(** * KeySight: the input validation gate and the encrypted hash-chained ledger

    A shallow embedding of [src/utils/secureStorage.ts] (the [SecureStorage]
    class and the [InputValidator] class that logs into it), followed by the
    properties of the hash chain, of the projector [getAllItems] and of
    [validate].

    Conventions of the embedding:
    - a JS string is the list of its UTF-16 code units ([jsstring]);
    - the JS numbers the core handles (indices, timestamps, ports) are
      integers and are modelled by [Z];
    - a JS value that travels through [JSON.stringify]/[JSON.parse] is a
      [json] tree; [JNull] is also what [decrypt] returns for [null];
    - an [async] method whose caller awaits it is one step of a state and
      exception monad over the state of the [secureStorage] singleton;
    - [Date.now()], [crypto.getRandomValues] and [Math.random()] are read
      from an explicit [Entropy] argument;
    - the browser primitives (Unicode normalisation and upper-casing,
      SHA-256, PBKDF2, AES-GCM with UTF-8 coding, JSON text) are the
      operations of the [Platform] class. *)

From Stdlib Require Import NArith ZArith String Ascii List Bool Lia.
From stdpp Require Import base option list gmap countable.

Local Open Scope Z_scope.

(* ===================================================================== *)
(** ** JavaScript strings *)
(* ===================================================================== *)

Definition jsstring := list N.

(** String literals of the source. *)
Definition js (s : string) : jsstring :=
  List.map N_of_ascii (list_ascii_of_string s).

Fixpoint uint_digits (u : Decimal.uint) : jsstring :=
  match u with
  | Decimal.Nil => []
  | Decimal.D0 u => 48%N :: uint_digits u
  | Decimal.D1 u => 49%N :: uint_digits u
  | Decimal.D2 u => 50%N :: uint_digits u
  | Decimal.D3 u => 51%N :: uint_digits u
  | Decimal.D4 u => 52%N :: uint_digits u
  | Decimal.D5 u => 53%N :: uint_digits u
  | Decimal.D6 u => 54%N :: uint_digits u
  | Decimal.D7 u => 55%N :: uint_digits u
  | Decimal.D8 u => 56%N :: uint_digits u
  | Decimal.D9 u => 57%N :: uint_digits u
  end.

(** [String(n)] for a non-negative integer. *)
Definition dec (n : N) : jsstring := uint_digits (N.to_uint n).

(** [String(z)] for an integer, as template literals print it. *)
Definition decZ (z : Z) : jsstring :=
  match z with
  | Zneg p => 45%N :: dec (Npos p)
  | _ => dec (Z.to_N z)
  end.

Definition jsstring_eqb (a b : jsstring) : bool := bool_decide (a = b).

(** Membership of a code unit in a union of inclusive ranges. *)
Definition in_ranges (rs : list (N * N)) (c : N) : bool :=
  existsb (fun r => (fst r <=? c)%N && (c <=? snd r)%N) rs.

(** ECMAScript WhiteSpace and LineTerminator code units: what [\s] matches
    and what [String.prototype.trim] removes. *)
Definition ws_ranges : list (N * N) :=
  [ (9, 13); (32, 32); (160, 160); (5760, 5760); (8192, 8202);
    (8232, 8233); (8239, 8239); (8287, 8287); (12288, 12288);
    (65279, 65279) ]%N.

Definition is_space (c : N) : bool := in_ranges ws_ranges c.

Fixpoint trim_start (s : jsstring) : jsstring :=
  match s with
  | c :: s' => if is_space c then trim_start s' else s
  | [] => []
  end.

Definition trim (s : jsstring) : jsstring :=
  rev (trim_start (rev (trim_start s))).

(* ===================================================================== *)
(** ** JSON values and JS objects *)
(* ===================================================================== *)

#[warnings="-register-all"]
Inductive json : Type :=
| JNull
| JBool (b : bool)
| JNum (z : Z)
| JStr (s : jsstring)
| JArr (l : list json)
| JObj (fields : list (jsstring * json)).

(** A JS object: its own properties.  Property enumeration order is kept
    as insertion order (integer-like keys are not moved to the front, as
    ECMAScript does when it enumerates), so what is stated about the items
    of [getAllItems] is what reading a property by name gives
    ([obj_get]), which does not depend on that order. *)
Definition obj := list (jsstring * json).

Fixpoint obj_get (o : obj) (k : jsstring) : option json :=
  match o with
  | [] => None
  | (k', v) :: o' => if jsstring_eqb k' k then Some v else obj_get o' k
  end.

(** [o[k] = v]: overwrite in place, or add as the last property. *)
Fixpoint obj_set (o : obj) (k : jsstring) (v : json) : obj :=
  match o with
  | [] => [(k, v)]
  | (k', v') :: o' =>
      if jsstring_eqb k' k then (k', v) :: o' else (k', v') :: obj_set o' k v
  end.

Definition obj_assign (o : obj) (fields : list (jsstring * json)) : obj :=
  fold_left (fun acc kv => obj_set acc (fst kv) (snd kv)) fields o.

Definition indexed {A} (l : list A) : list (jsstring * A) :=
  imap (fun i x => (dec (N.of_nat i), x)) l.

(** Object spread [{...base, ...v}]: the own enumerable properties of [v];
    a string spreads its characters, an array its elements, and [null],
    booleans and numbers spread nothing. *)
Definition spread (base : obj) (v : json) : obj :=
  match v with
  | JObj fields => obj_assign base fields
  | JArr l => obj_assign base (indexed l)
  | JStr s => obj_assign base (indexed (List.map (fun c => JStr [c]) s))
  | _ => base
  end.

(** Property read [v.k] for a key that is neither an index nor [length]:
    [None] is [undefined]. *)
Definition prop (v : json) (k : jsstring) : option json :=
  match v with
  | JObj fields => obj_get fields k
  | _ => None
  end.

(** ToBoolean. *)
Definition truthy (v : json) : bool :=
  match v with
  | JNull => false
  | JBool b => b
  | JNum z => negb (z =? 0)
  | JStr s => negb (bool_decide (s = []))
  | JArr _ | JObj _ => true
  end.

Definition truthy_opt (v : option json) : bool :=
  match v with Some x => truthy x | None => false end.

(** [v === 'literal']. *)
Definition strict_eq_str (v : option json) (lit : jsstring) : bool :=
  match v with
  | Some (JStr s) => jsstring_eqb s lit
  | _ => false
  end.

(** SameValueZero, the equality of [Set] and [Map] keys.  Arrays and
    objects are compared by reference; the ones met here come from distinct
    [JSON.parse] results and are never the same reference. *)
Definition same_value_zero (a b : json) : bool :=
  match a, b with
  | JNull, JNull => true
  | JBool x, JBool y => bool_decide (x = y)
  | JNum x, JNum y => x =? y
  | JStr x, JStr y => jsstring_eqb x y
  | _, _ => false
  end.

(** [Set<any>] in insertion order. *)
Definition jsset := list json.

Definition set_has (s : jsset) (v : json) : bool :=
  existsb (same_value_zero v) s.

Definition set_add (s : jsset) (v : json) : jsset :=
  if set_has s v then s else s ++ [v].

Definition set_delete (s : jsset) (v : json) : jsset :=
  List.filter (fun x => negb (same_value_zero v x)) s.

(** [Map<number, any>] in insertion order: [set] on a present key keeps
    its position. *)
Fixpoint map_set {A} (m : list (Z * A)) (k : Z) (v : A) : list (Z * A) :=
  match m with
  | [] => [(k, v)]
  | (k', v') :: m' =>
      if k' =? k then (k', v) :: m' else (k', v') :: map_set m' k v
  end.

(** No object of the tree has two properties of one name. *)
Fixpoint json_wf (v : json) : bool :=
  match v with
  | JArr l => forallb json_wf l
  | JObj fields =>
      bool_decide (NoDup (List.map fst fields))
      && forallb (fun kv => json_wf (snd kv)) fields
  | _ => true
  end.

(* ===================================================================== *)
(** ** Regular expressions of the source *)
(* ===================================================================== *)

(** The fragment of ECMAScript regular expressions that [PATTERNS] and
    [ATTACK_VECTORS] use.  Groups, capturing or not, do not change what
    [test] returns and are not represented; quantifiers are applied by the
    source to single-character classes only, except the counted group of
    [IP_V4], which [repeat_re] unfolds. *)
Inductive regex : Type :=
| Eps
| Chr (neg : bool) (rs : list (N * N))   (* a class, [neg] for [^...] *)
| Seq (r1 r2 : regex)
| Alt (r1 r2 : regex)
| Opt (r : regex)                        (* r? *)
| Star (neg : bool) (rs : list (N * N))  (* class* *)
| Bol                                    (* ^ without the m flag *)
| Eol                                    (* $ without the m flag *)
| WordB.                                 (* \b *)

Definition mem (neg : bool) (rs : list (N * N)) (c : N) : bool :=
  xorb neg (in_ranges rs c).

Definition word_ranges : list (N * N) :=
  [ (48, 57); (65, 90); (95, 95); (97, 122) ]%N.

Definition is_word_char (c : option N) : bool :=
  match c with Some x => in_ranges word_ranges x | None => false end.

Section Matcher.
(** The continuation receives the code unit before the position reached
    ([None] at the start of the input) and the rest of the input. *)
Variable k : option N -> jsstring -> bool.

Fixpoint star_loop (neg : bool) (rs : list (N * N))
    (prev : option N) (s : jsstring) : bool :=
  match s with
  | c :: s' => (mem neg rs c && star_loop neg rs (Some c) s') || k prev s
  | [] => k prev s
  end.
End Matcher.

(** Backtracking matcher: [rmatch r prev s k] holds when [r] matches a
    prefix of [s] after which [k] accepts. *)
Fixpoint rmatch (r : regex) (prev : option N) (s : jsstring)
    (k : option N -> jsstring -> bool) : bool :=
  match r with
  | Eps => k prev s
  | Chr neg rs =>
      match s with
      | c :: s' => mem neg rs c && k (Some c) s'
      | [] => false
      end
  | Seq r1 r2 => rmatch r1 prev s (fun p s' => rmatch r2 p s' k)
  | Alt r1 r2 => rmatch r1 prev s k || rmatch r2 prev s k
  | Opt r1 => rmatch r1 prev s k || k prev s
  | Star neg rs => star_loop k neg rs prev s
  | Bol => bool_decide (prev = None) && k prev s
  | Eol => bool_decide (s = []) && k prev s
  | WordB => xorb (is_word_char prev) (is_word_char (head s)) && k prev s
  end.

Definition accept : option N -> jsstring -> bool := fun _ _ => true.

(** A match attempt at every start position, left to right. *)
Fixpoint search (r : regex) (prev : option N) (s : jsstring) : bool :=
  rmatch r prev s accept ||
  match s with
  | c :: s' => search r (Some c) s'
  | [] => false
  end.

(** [RegExp.prototype.test] of a pattern without the g and y flags. *)
Definition test (r : regex) (s : jsstring) : bool := search r None s.

(** *** Builders for the pattern literals *)

Definition chr (c : N) : regex := Chr false [(c, c)].

(** A letter of a pattern under the i flag matches both of its cases; no
    code unit outside ASCII canonicalises to an ASCII letter. *)
Definition chr_i (c : N) : regex :=
  if in_ranges [(97, 122)%N] c then Chr false [(c - 32, c - 32); (c, c)]%N
  else if in_ranges [(65, 90)%N] c then Chr false [(c, c); (c + 32, c + 32)]%N
  else chr c.

Definition seq_of (rs : list regex) : regex := foldr Seq Eps rs.

Definition lit (s : string) : regex := seq_of (List.map chr (js s)).
Definition lit_i (s : string) : regex := seq_of (List.map chr_i (js s)).

Definition plus (neg : bool) (rs : list (N * N)) : regex :=
  Seq (Chr neg rs) (Star neg rs).

Fixpoint repeat_re (n : nat) (r : regex) : regex :=
  match n with
  | O => Eps
  | S n' => Seq r (repeat_re n' r)
  end.

Definition digit : list (N * N) := [(48, 57)%N].

(** [.] without the s flag: anything but a line terminator. *)
Definition any_star : regex :=
  Star true [(10, 10); (13, 13); (8232, 8233)]%N.

Definition anchored (r : regex) : regex := Seq Bol (Seq r Eol).

(** *** [PATTERNS] *)

Module PATTERNS.

(** [25[0-5]|2[0-4][0-9]|[01]?[0-9][0-9]?] *)
Definition octet_re : regex :=
  Alt (Seq (chr 50) (Seq (chr 53) (Chr false [(48, 53)%N])))
 (Alt (Seq (chr 50) (Seq (Chr false [(48, 52)%N]) (Chr false digit)))
      (Seq (Opt (Chr false [(48, 49)%N]))
           (Seq (Chr false digit) (Opt (Chr false digit))))).

Definition IP_V4 : regex :=
  anchored (Seq (repeat_re 3 (Seq octet_re (chr 46))) octet_re).

(** [[a-zA-Z0-9\s\-_.]] *)
Definition safe_text_class : list (N * N) :=
  [ (97, 122); (65, 90); (48, 57) ]%N ++ ws_ranges
  ++ [ (45, 45); (95, 95); (46, 46) ]%N.

Definition SAFE_TEXT : regex := anchored (plus false safe_text_class).

Definition FILENAME : regex :=
  anchored (plus false [ (97, 122); (65, 90); (48, 57); (45, 45); (95, 95) ]%N).

Definition hex4 : regex :=
  repeat_re 4 (Chr false [ (65, 70); (48, 57) ]%N).

Definition MASTER_KEY : regex :=
  anchored (Seq hex4 (Seq (chr 45) (Seq hex4 (Seq (chr 45)
           (Seq hex4 (Seq (chr 45) hex4)))))).

Definition PORT : regex := anchored (plus false digit).

Definition SERIAL : regex :=
  anchored (plus false [ (65, 90); (48, 57); (45, 45) ]%N).

End PATTERNS.

(** [/^[\x20-\x7E]+$/], the pattern of the PASSWORD case. *)
Definition PRINTABLE : regex := anchored (plus false [(32, 126)%N]).

(** *** [ATTACK_VECTORS] *)

(** [\bA\b.*\bB\b] under the i flag. *)
Definition sql (a b : string) : regex :=
  Seq WordB (Seq (lit_i a) (Seq WordB (Seq any_star
 (Seq WordB (Seq (lit_i b) WordB))))).

Definition ATTACK_VECTORS : list regex :=
  [ sql "UNION" "SELECT";
    sql "SELECT" "FROM";
    sql "INSERT" "INTO";
    sql "UPDATE" "SET";
    sql "DELETE" "FROM";
    lit "--";
    lit "/*";
    lit ";";
    lit "|";
    lit "`";
    lit "$(";
    lit "&";
    lit "../";
    lit "..\";
    lit_i "<script";
    lit_i "javascript:";
    lit_i "onerror=";
    lit_i "onload=" ].

(** The class removed by [canonicalize]:
    [[\x00-\x08\x0B\x0C\x0E-\x1F\x7F]]. *)
Definition control_ranges : list (N * N) :=
  [ (0, 8); (11, 12); (14, 31); (127, 127) ]%N.


(* ===================================================================== *)
(** ** The browser platform *)
(* ===================================================================== *)

(** What the source takes from the browser.  [digest] is
    [crypto.subtle.digest('SHA-256', ...)] of the UTF-8 bytes of a string;
    [pbkdf2 password salt iterations] is [importKey] followed by
    [deriveKey] for AES-GCM 256; [aes_gcm_encrypt key iv text] encrypts the
    UTF-8 bytes of [text], and [aes_gcm_decrypt] returns the decoded
    plaintext or fails ([None]) when authentication fails. *)
Class Platform : Type := {
  Key : Type;
  normalize_NFKC : jsstring -> jsstring;
  toUpperCase : jsstring -> jsstring;
  digest : jsstring -> list N;
  pbkdf2 : jsstring -> jsstring -> Z -> Key;
  aes_gcm_encrypt : Key -> list N -> jsstring -> list N;
  aes_gcm_decrypt : Key -> list N -> list N -> option jsstring;
  JSON_stringify : json -> jsstring;
  JSON_parse : jsstring -> option json
}.

(** The facts about the platform that the proofs use: NFKC leaves ASCII
    text alone, and serialising, encrypting, decrypting and parsing a
    well-formed value gives the value back. *)
Class PlatformLaws (P : Platform) : Prop := {
  nfkc_ascii : forall s : jsstring,
    Forall (fun c => (c < 128)%N) s -> normalize_NFKC s = s;
  aes_gcm_roundtrip : forall (key : Key) (iv : list N) (v : json),
    json_wf v = true ->
    aes_gcm_decrypt key iv (aes_gcm_encrypt key iv (JSON_stringify v))
    = Some (JSON_stringify v);
  JSON_roundtrip : forall v : json,
    json_wf v = true -> JSON_parse (JSON_stringify v) = Some v
}.

(** The values read from the clock and the random sources by one [append]:
    the two [Date.now()] of the block literal, the 12-byte nonce, and the
    hexadecimal fragment [Math.random().toString(16).substr(2, 8)]. *)
Record Entropy : Type := {
  now : Z;
  now_sig : Z;
  iv : list N;
  rnd : jsstring
}.

(** The exceptions of the source.  [TypeError] is what reading a property
    of [undefined] throws. *)
Inductive exn : Type :=
| Error (msg : jsstring)
| TypeError
| SecurityException (msg : jsstring).

Inductive outcome (A : Type) : Type :=
| Return (a : A)
| Throw (e : exn).
Arguments Return {A} a.
Arguments Throw {A} e.

Record StorageBlock : Type := {
  index : Z;
  previousHash : jsstring;
  timestamp : Z;
  dataHash : jsstring;
  signature : jsstring
}.

(** The block as [JSON.stringify] sees it: its properties in the order of
    the object literals of [initialize] and [append]. *)
Definition block_json (b : StorageBlock) : json :=
  JObj [ (js "index", JNum (index b));
         (js "previousHash", JStr (previousHash b));
         (js "timestamp", JNum (timestamp b));
         (js "dataHash", JStr (dataHash b));
         (js "signature", JStr (signature b)) ].

Inductive ValidationContext : Type :=
| IP | PORT | SAFE_TEXT | FILENAME | MASTER_KEY | SERIAL | PASSWORD.

Definition context_name (c : ValidationContext) : jsstring :=
  match c with
  | IP => js "IP"
  | PORT => js "PORT"
  | SAFE_TEXT => js "SAFE_TEXT"
  | FILENAME => js "FILENAME"
  | MASTER_KEY => js "MASTER_KEY"
  | SERIAL => js "SERIAL"
  | PASSWORD => js "PASSWORD"
  end.

Definition is_PASSWORD (c : ValidationContext) : bool :=
  match c with PASSWORD => true | _ => false end.

Definition is_SAFE_TEXT (c : ValidationContext) : bool :=
  match c with SAFE_TEXT => true | _ => false end.

Definition hex_digit (n : N) : N :=
  if (n <? 10)%N then (48 + n)%N else (87 + n)%N.

(** [b.toString(16).padStart(2, '0')] for a byte. *)
Definition hex2 (b : N) : jsstring :=
  [hex_digit (b / 16); hex_digit (b mod 16)]%N.

(** [parseInt(s, 10)] of a string of decimal digits. *)
Definition parseInt (s : jsstring) : Z :=
  fold_left (fun acc c => 10 * acc + (Z.of_N c - 48)) s 0.

(** The state the projector builds while it replays the chain. *)
Record Replay : Type := {
  rawItems : list (Z * obj);
  locks : jsset;
  deletions : jsset
}.

Definition is_event (content : json) (type : string) : bool :=
  strict_eq_str (prop content (js "type")) (js type)
  && truthy_opt (prop content (js "targetIndex")).

Definition targetIndex_of (content : json) : json :=
  default JNull (prop content (js "targetIndex")).

(** The object literal of [getAllItems]: the prefixed block fields, then
    the fields of the decrypted record. *)
Definition item_of (block : StorageBlock) (content : json) : obj :=
  spread [ (js "_blockIndex", JNum (index block));
           (js "_blockHash", JStr (dataHash block));
           (js "_timestamp", JNum (timestamp block)) ] content.

(** The body of the first loop of [getAllItems] for one block, given what
    [decrypt] returned for it. *)
Definition replay_step (acc : Replay) (block : StorageBlock) (content : json)
    : Replay :=
  if truthy content then
    let item := item_of block content in
    if is_event content "LOCK_EVIDENCE" then
      {| locks := set_add (locks acc) (targetIndex_of content);
         deletions := deletions acc;
         rawItems := map_set (rawItems acc) (index block) item |}
    else if is_event content "UNLOCK_EVIDENCE" then
      {| locks := set_delete (locks acc) (targetIndex_of content);
         deletions := deletions acc;
         rawItems := map_set (rawItems acc) (index block) item |}
    else if is_event content "TOMBSTONE" then
      {| locks := locks acc;
         deletions := set_add (deletions acc) (targetIndex_of content);
         rawItems := map_set (rawItems acc) (index block) item |}
    else
      {| locks := locks acc;
         deletions := deletions acc;
         rawItems := map_set (rawItems acc) (index block) item |}
  else acc.

(** The second loop of [getAllItems]: filter and decorate, in the order of
    the entries of [rawItems]. *)
Fixpoint decorate (entries : list (Z * obj)) (locks deletions : jsset)
    : list obj :=
  match entries with
  | [] => []
  | (index, item) :: rest =>
      if set_has deletions (JNum index) then decorate rest locks deletions
      else
        obj_set item (js "locked") (JBool (set_has locks (JNum index)))
        :: decorate rest locks deletions
  end.

(** The records of [lockItem], [unlockItem] and [deleteItem]. *)
Definition event_record (type : string) (targetBlockIndex : Z)
    (date_now : Z) (user : jsstring) (verb : string) : json :=
  JObj [ (js "type", JStr (js type));
         (js "targetIndex", JNum targetBlockIndex);
         (js "timestamp", JNum date_now);
         (js "user", JStr user);
         (js "description", JStr (js verb ++ user)) ].

Section Core.
Context {P : Platform}.

Record SecureStorage : Type := {
  chain : list StorageBlock;
  encryptionKey : option Key;
  storage : gmap Z (list N)
}.

(** The state after the constructor. *)
Definition new_SecureStorage : SecureStorage :=
  {| chain := []; encryptionKey := None; storage := ∅ |}.

(** *** The monad of the methods *)

Definition M (A : Type) : Type := SecureStorage -> outcome A * SecureStorage.

Definition ret {A} (a : A) : M A := fun st => (Return a, st).
Definition throw {A} (e : exn) : M A := fun st => (Throw e, st).
Definition bind {A B} (m : M A) (f : A -> M B) : M B :=
  fun st =>
    match m st with
    | (Return a, st') => f a st'
    | (Throw e, st') => (Throw e, st')
    end.
Definition this : M SecureStorage := fun st => (Return st, st).
Definition assign (st' : SecureStorage) : M unit := fun _ => (Return tt, st').
(** [try { m } catch (e) { h e }] *)
Definition try_catch {A} (m : M A) (h : exn -> M A) : M A :=
  fun st =>
    match m st with
    | (Return a, st') => (Return a, st')
    | (Throw e, st') => h e st'
    end.

Notation "'let!' x ':=' m 'in' k" := (bind m (fun x => k))
  (at level 10, x name, m at level 100, k at level 200).

(** *** SecureStorage *)

Definition initialize (masterKey : jsstring) (date_now : Z) : M bool :=
  let! st := this in
  let key := pbkdf2 masterKey (js "KEYSIGHT_LOCAL_SALT") 100000 in
  let chain' :=
    if bool_decide (length (chain st) = 0%nat) then
      chain st ++ [ {| index := 0;
                       previousHash := js "00000000000000000000000000000000";
                       timestamp := date_now;
                       dataHash := js "GENESIS_BLOCK";
                       signature := js "SYSTEM_INIT" |} ]
    else chain st in
  let! _ := assign {| chain := chain'; encryptionKey := Some key;
                      storage := storage st |} in
  ret true.

Definition sha256 (data : jsstring) : jsstring :=
  flat_map hex2 (digest data).

Definition getKey : M Key :=
  let! st := this in
  match encryptionKey st with
  | None => throw (Error (js "Storage locked: Encryption key not initialized"))
  | Some key => ret key
  end.

Definition append (data : json) (e : Entropy) : M StorageBlock :=
  let! key := getKey in
  let! st := this in
  let prevBlock := list.last (chain st) in
  let dataString :=
    match data with JStr s => s | _ => JSON_stringify data end in
  let dataHash := sha256 dataString in
  let encryptedContent := aes_gcm_encrypt key (iv e) dataString in
  let storedBlob := iv e ++ encryptedContent in
  match prevBlock with
  | None => throw TypeError
  | Some prevBlock =>
      let newIndex := index prevBlock + 1 in
      let storage' := <[newIndex := storedBlob]> (storage st) in
      let newBlock :=
        {| index := newIndex;
           previousHash := sha256 (JSON_stringify (block_json prevBlock));
           timestamp := now e;
           dataHash := dataHash;
           signature := js "SIG_" ++ decZ (now_sig e) ++ js "_" ++ rnd e |} in
      let! _ := assign {| chain := chain st ++ [newBlock];
                          encryptionKey := encryptionKey st;
                          storage := storage' |} in
      ret newBlock
  end.

(** [null] is [JNull]; a parse failure throws and is caught like the
    other failures. *)
Definition decrypt (index : Z) : M json :=
  try_catch
    (let! key := getKey in
     let! st := this in
     match storage st !! index with
     | None => ret JNull
     | Some encryptedData =>
         let iv := take 12 encryptedData in
         let ciphertext := drop 12 encryptedData in
         match aes_gcm_decrypt key iv ciphertext with
         | None => throw (Error (js "OperationError"))
         | Some jsonStr =>
             match JSON_parse jsonStr with
             | None => throw (Error (js "SyntaxError"))
             | Some v => ret v
             end
         end
     end)
    (fun _ => ret JNull).

Definition lockItem (targetBlockIndex : Z) (user : jsstring)
    (date_now : Z) (e : Entropy) : M bool :=
  let! _ := append (event_record "LOCK_EVIDENCE" targetBlockIndex date_now
                      user "Evidence locked by ") e in
  ret true.

Definition unlockItem (targetBlockIndex : Z) (user : jsstring)
    (date_now : Z) (e : Entropy) : M bool :=
  let! _ := append (event_record "UNLOCK_EVIDENCE" targetBlockIndex date_now
                      user "Evidence unlocked by ") e in
  ret true.

Definition deleteItem (targetBlockIndex : Z) (user : jsstring)
    (date_now : Z) (e : Entropy) : M bool :=
  let! _ := append (event_record "TOMBSTONE" targetBlockIndex date_now
                      user "Item deleted by ") e in
  ret true.

(** The first loop of [getAllItems] over the blocks after the genesis
    block. *)
Fixpoint replay (blocks : list StorageBlock) (acc : Replay) : M Replay :=
  match blocks with
  | [] => ret acc
  | block :: rest =>
      let! content := decrypt (index block) in
      replay rest (replay_step acc block content)
  end.

Definition getAllItems : M (list obj) :=
  let! st := this in
  let! r := replay (drop 1 (chain st))
              {| rawItems := []; locks := []; deletions := [] |} in
  ret (rev (decorate (rawItems r) (locks r) (deletions r))).

Definition getChainLength : M Z :=
  let! st := this in ret (Z.of_nat (length (chain st))).

Definition getStorageUsage : M Z :=
  let! st := this in
  ret (map_fold (fun _ blob size => size + Z.of_nat (length blob)) 0
         (storage st)).

(** *** InputValidator *)

Definition canonicalize (input : jsstring) : jsstring :=
  match input with
  | [] => []
  | _ =>
      let clean := normalize_NFKC input in
      let clean := List.filter (fun c => negb (in_ranges control_ranges c)) clean in
      trim clean
  end.

Definition detectAttackVectors (input : jsstring) (context : ValidationContext)
    : M unit :=
  if is_PASSWORD context then ret tt
  else if existsb (fun pattern => test pattern input) ATTACK_VECTORS then
    throw (SecurityException
             (js "Malicious Pattern Detected: " ++ context_name context))
  else ret tt.

Definition maskedInput (input : jsstring) (context : ValidationContext)
    : jsstring :=
  match context with
  | PASSWORD | MASTER_KEY => js "********"
  | _ => take 50 input
         ++ (if bool_decide (50 < length input)%nat then js "..." else [])
  end.

Definition violation_record (input : jsstring) (context : ValidationContext)
    (fieldName : jsstring) : json :=
  JObj [ (js "type", JStr (js "SECURITY_VIOLATION"));
         (js "severity", JStr (js "critical"));
         (js "description",
           JStr (js "Injection Blocked (" ++ context_name context
                 ++ js "): " ++ fieldName));
         (js "metadata",
           JObj [ (js "payload_fragment", JStr (maskedInput input context));
                  (js "validation_schema", JStr (context_name context)) ]) ].

(** [validate] does not await [logViolation]: the [append] it starts ends
    after [validate] has thrown.  Here it runs to its end at the call,
    which is what the ledger sees when no other [append] is in flight. *)
Definition logViolation (input : jsstring) (context : ValidationContext)
    (fieldName : jsstring) (e : Entropy) : M unit :=
  try_catch
    (let! _ := append (violation_record input context fieldName) e in ret tt)
    (fun _ => ret tt).

Definition schema_valid (cleanInput : jsstring) (context : ValidationContext)
    : bool :=
  match context with
  | IP =>
      if test PATTERNS.IP_V4 cleanInput then
        negb (jsstring_eqb cleanInput (js "0.0.0.0")
              || jsstring_eqb cleanInput (js "255.255.255.255"))
      else false
  | PORT =>
      if test PATTERNS.PORT cleanInput then
        let port := parseInt cleanInput in
        (0 <? port) && (port <=? 65535)
      else false
  | SAFE_TEXT => test PATTERNS.SAFE_TEXT cleanInput
  | FILENAME =>
      test PATTERNS.FILENAME cleanInput
      && negb (bool_decide (255 < length cleanInput)%nat)
  | MASTER_KEY => test PATTERNS.MASTER_KEY (toUpperCase cleanInput)
  | SERIAL => test PATTERNS.SERIAL (toUpperCase cleanInput)
  | PASSWORD =>
      test PRINTABLE cleanInput && bool_decide (8 <= length cleanInput)%nat
  end.

Definition validate (input : jsstring) (context : ValidationContext)
    (fieldName : jsstring) (e : Entropy) : M jsstring :=
  let cleanInput := canonicalize input in
  if bool_decide (cleanInput = []) && negb (is_SAFE_TEXT context) then
    throw (SecurityException
             (fieldName ++ js " cannot be empty or whitespace only."))
  else
    let! _ := detectAttackVectors cleanInput context in
    let isValid := schema_valid cleanInput context in
    if negb isValid then
      let! _ := logViolation cleanInput context fieldName e in
      throw (SecurityException
               (js "Security Policy Violation: " ++ fieldName
                ++ js " format is invalid or contains prohibited characters."))
    else
      match context with
      | MASTER_KEY | SERIAL => ret (toUpperCase cleanInput)
      | _ => ret cleanInput
      end.

(** *** The operations of the core, as one step function *)

Inductive operation : Type :=
| OpInitialize (masterKey : jsstring) (date_now : Z)
| OpAppend (data : json) (e : Entropy)
| OpDecrypt (index : Z)
| OpLockItem (targetBlockIndex : Z) (user : jsstring) (date_now : Z) (e : Entropy)
| OpUnlockItem (targetBlockIndex : Z) (user : jsstring) (date_now : Z) (e : Entropy)
| OpDeleteItem (targetBlockIndex : Z) (user : jsstring) (date_now : Z) (e : Entropy)
| OpGetAllItems
| OpGetChainLength
| OpGetStorageUsage
| OpValidate (input : jsstring) (context : ValidationContext)
    (fieldName : jsstring) (e : Entropy).

(** The state an operation leaves, whether it returns or throws. *)
Definition run (op : operation) (st : SecureStorage) : SecureStorage :=
  match op with
  | OpInitialize masterKey date_now => snd (initialize masterKey date_now st)
  | OpAppend data e => snd (append data e st)
  | OpDecrypt index => snd (decrypt index st)
  | OpLockItem i u t e => snd (lockItem i u t e st)
  | OpUnlockItem i u t e => snd (unlockItem i u t e st)
  | OpDeleteItem i u t e => snd (deleteItem i u t e st)
  | OpGetAllItems => snd (getAllItems st)
  | OpGetChainLength => snd (getChainLength st)
  | OpGetStorageUsage => snd (getStorageUsage st)
  | OpValidate input context fieldName e =>
      snd (validate input context fieldName e st)
  end.

(** The states reached from the constructor by [initialize] and then any
    sequence of successful [append] calls (and further [initialize]
    calls). *)
Inductive reachable : SecureStorage -> Prop :=
| reachable_initialize masterKey date_now :
    reachable (snd (initialize masterKey date_now new_SecureStorage))
| reachable_reinitialize st masterKey date_now :
    reachable st -> reachable (snd (initialize masterKey date_now st))
| reachable_append st data e block st' :
    reachable st -> append data e st = (Return block, st') -> reachable st'.

End Core.

Arguments SecureStorage P : clear implicits.
Arguments M P A : clear implicits.

Notation "'let!' x ':=' m 'in' k" := (bind m (fun x => k))
  (at level 10, x name, m at level 100, k at level 200, only parsing).

(** An operation raises in a state when it ends with a thrown exception. *)
Definition raises {P : Platform} {A} (m : M P A) (st : SecureStorage P) : Prop :=
  exists e st', m st = (Throw e, st').

Definition raises_SecurityException {P : Platform} {A}
    (m : M P A) (st : SecureStorage P) : Prop :=
  exists msg st', m st = (Throw (SecurityException msg), st').

(* ===================================================================== *)
(** ** A small platform to run the model on *)
(* ===================================================================== *)

(** An instance of [Platform] that computes inside Rocq.  It is not the
    browser: the digest is a 32-bit checksum, the cipher prefixes the text
    with the key, JSON text is a numbering of the value.  It is what the
    examples are evaluated on and it shows that [PlatformLaws] can be
    met. *)
Module Simple.

(** Compatibility mappings of the Halfwidth and Fullwidth Forms block and
    of the no-break and ideographic spaces; other code units are kept. *)
Definition nfkc_unit (c : N) : N :=
  if in_ranges [(65281, 65374)%N] c then (c - 65248)%N
  else if in_ranges [(160, 160); (12288, 12288)]%N c then 32%N
  else c.

Definition upper_unit (c : N) : N :=
  if in_ranges [(97, 122)%N] c then (c - 32)%N else c.

Definition checksum (s : jsstring) : N :=
  fold_left (fun h c => ((h * 31 + c) mod 4294967296)%N) s 7%N.

Definition digest32 (s : jsstring) : list N :=
  let h := checksum s in
  [ (h / 16777216) mod 256; (h / 65536) mod 256; (h / 256) mod 256;
    h mod 256 ]%N.

Definition stretch (password salt : jsstring) (iterations : Z) : jsstring :=
  dec (checksum (salt ++ password)).

Definition seal (key : jsstring) (iv : list N) (text : jsstring) : list N :=
  N.of_nat (length key) :: key ++ text.

Definition unseal (key : jsstring) (iv : list N) (ct : list N)
    : option jsstring :=
  match ct with
  | n :: body =>
      if bool_decide (take (N.to_nat n) body = key)
      then Some (drop (N.to_nat n) body) else None
  | [] => None
  end.

Definition leaf : Type := bool + Z + jsstring.

Fixpoint to_tree (v : json) : gen_tree leaf :=
  match v with
  | JNull => GenNode 0 []
  | JBool b => GenLeaf (inl (inl b))
  | JNum z => GenLeaf (inl (inr z))
  | JStr s => GenLeaf (inr s)
  | JArr l => GenNode 1 (List.map to_tree l)
  | JObj fields =>
      GenNode 2
        ((fix go (fs : list (jsstring * json)) : list (gen_tree leaf) :=
            match fs with
            | [] => []
            | (k, x) :: fs' => GenLeaf (inr k) :: to_tree x :: go fs'
            end) fields)
  end.

Fixpoint of_tree (t : gen_tree leaf) : json :=
  match t with
  | GenLeaf (inl (inl b)) => JBool b
  | GenLeaf (inl (inr z)) => JNum z
  | GenLeaf (inr s) => JStr s
  | GenNode 1 ts => JArr (List.map of_tree ts)
  | GenNode 2 ts =>
      JObj
        ((fix go (ts : list (gen_tree leaf)) : list (jsstring * json) :=
            match ts with
            | GenLeaf (inr k) :: t' :: ts' => (k, of_tree t') :: go ts'
            | _ => []
            end) ts)
  | GenNode _ _ => JNull
  end.

Definition stringify (v : json) : jsstring := [Npos (encode (to_tree v))].

Definition parse (s : jsstring) : option json :=
  match s with
  | [Npos p] => of_tree <$> decode p
  | _ => None
  end.

Definition platform : Platform := {|
  Key := jsstring;
  normalize_NFKC := List.map nfkc_unit;
  toUpperCase := List.map upper_unit;
  digest := digest32;
  pbkdf2 := stretch;
  aes_gcm_encrypt := seal;
  aes_gcm_decrypt := unseal;
  JSON_stringify := stringify;
  JSON_parse := parse
|}.

Definition entropy (t : Z) : Entropy :=
  {| now := t; now_sig := t + 1;
     iv := [1; 2; 3; 4; 5; 6; 7; 8; 9; 10; 11; 12]%N;
     rnd := js "9f3c2a71" |}.

(** The ledger after [initialize]. *)
Definition unlocked : SecureStorage platform :=
  snd (initialize (js "correct horse") 1000 new_SecureStorage).

End Simple.

#[global] Existing Instance Simple.platform.

(* ===================================================================== *)
(** ** Definitions used in the statements *)
(* ===================================================================== *)

(** The code unit before the position reached after reading [m]. *)
Definition last_of (prev : option N) (m : jsstring) : option N :=
  match list.last m with Some c => Some c | None => prev end.

Definition at_end : option N -> jsstring -> bool :=
  fun _ s => bool_decide (s = []).

Definition is_octet (o : jsstring) : bool :=
  forallb (in_ranges digit) o
  && bool_decide (1 <= length o <= 3)%nat
  && (parseInt o <=? 255).

(** Four groups of one to three decimal digits, each of value at most 255,
    separated by dots. *)
Definition dotted_quad (s : jsstring) : Prop :=
  exists o1 o2 o3 o4 : jsstring,
    s = o1 ++ js "." ++ o2 ++ js "." ++ o3 ++ js "." ++ o4
    /\ is_octet o1 = true /\ is_octet o2 = true
    /\ is_octet o3 = true /\ is_octet o4 = true.

(** [dead A r]: every match of [r] reads a code unit that is not in [A]. *)
Fixpoint dead (A : list N) (r : regex) : bool :=
  match r with
  | Chr neg rs => forallb (fun c => negb (mem neg rs c)) A
  | Seq r1 r2 => dead A r1 || dead A r2
  | Alt r1 r2 => dead A r1 && dead A r2
  | _ => false
  end.

(** The code units of a dotted quad. *)
Definition ip_alphabet : list N := js "0123456789.".

Definition contains (s sub : jsstring) : Prop :=
  exists pre post, s = pre ++ sub ++ post.

(** The four attack strings of the specification. *)
Definition attack_signatures : list jsstring :=
  [ js "' OR 1=1 --"; js "; rm -rf"; js "<script>"; js "../../etc/passwd" ].

Section Readings.
Context {P : Platform}.
Implicit Types (st : SecureStorage P) (data : json) (e : Entropy).

Definition data_string data : jsstring :=
  match data with JStr s => s | _ => JSON_stringify data end.

(** The block that [append] builds after [prevBlock]. *)
Definition appended_block (prevBlock : StorageBlock) data e : StorageBlock :=
  {| index := index prevBlock + 1;
     previousHash := sha256 (JSON_stringify (block_json prevBlock));
     timestamp := now e;
     dataHash := sha256 (data_string data);
     signature := js "SIG_" ++ decZ (now_sig e) ++ js "_" ++ rnd e |}.

Definition stored_blob (key : Key) data e : list N :=
  iv e ++ aes_gcm_encrypt key (iv e) (data_string data).

(** What [decrypt] returns. *)
Definition decrypted st (i : Z) : json :=
  match encryptionKey st with
  | None => JNull
  | Some key =>
      match storage st !! i with
      | None => JNull
      | Some encryptedData =>
          match aes_gcm_decrypt key (take 12 encryptedData)
                  (drop 12 encryptedData) with
          | None => JNull
          | Some jsonStr => default JNull (JSON_parse jsonStr)
          end
      end
  end.

Definition replayed st (blocks : list StorageBlock) (acc : Replay) : Replay :=
  fold_left (fun acc b => replay_step acc b (decrypted st (index b))) blocks acc.

Definition empty_replay : Replay :=
  {| rawItems := []; locks := []; deletions := [] |}.

(** The result of the first loop of [getAllItems] in a state. *)
Definition view st : Replay := replayed st (drop 1 (chain st)) empty_replay.

Definition projection (r : Replay) : list obj :=
  rev (decorate (rawItems r) (locks r) (deletions r)).

Definition is_genesis (b : StorageBlock) : Prop :=
  index b = 0
  /\ previousHash b = js "00000000000000000000000000000000"
  /\ dataHash b = js "GENESIS_BLOCK"
  /\ signature b = js "SYSTEM_INIT".

(** Block [i] carries index [i]; block 0 is the genesis block; every later
    block carries the hash of the serialised block before it. *)
Definition chain_linked (l : list StorageBlock) : Prop :=
  (exists g, l !! 0%nat = Some g /\ is_genesis g)
  /\ forall (i : nat) (b : StorageBlock), l !! i = Some b ->
       index b = Z.of_nat i
       /\ ((0 < i)%nat -> exists p, l !! (i - 1)%nat = Some p
             /\ previousHash b = sha256 (JSON_stringify (block_json p))).

Definition ledger_inv st : Prop :=
  is_Some (encryptionKey st)
  /\ chain_linked (chain st)
  /\ forall k, is_Some (storage st !! k) -> 1 <= k < Z.of_nat (length (chain st)).

End Readings.

(** A ledger with two appended records on the small platform. *)
Definition two_records : SecureStorage Simple.platform :=
  snd (append (JObj [(js "type", JStr (js "VIDEO_CLIP"))]) (Simple.entropy 3000)
    (snd (append (JStr (js "plain text")) (Simple.entropy 2000) Simple.unlocked))).

(** The dotted quad of four numbers, each printed in decimal. *)
Definition ip_string (a b c d : N) : jsstring :=
  dec a ++ js "." ++ dec b ++ js "." ++ dec c ++ js "." ++ dec d.

Definition printable (c : N) : Prop := (32 <= c <= 126)%N.

(** A record of the generic kind: an object without duplicate names that
    the projector does not read as a lock, unlock or tombstone event. *)
Definition is_evidence (record : json) : bool :=
  match record with
  | JObj _ =>
      json_wf record
      && negb (is_event record "LOCK_EVIDENCE")
      && negb (is_event record "UNLOCK_EVIDENCE")
      && negb (is_event record "TOMBSTONE")
  | _ => false
  end.

(** The projected item of a block: the item of the first loop with the
    [locked] property the second loop gives it. *)
Definition locked_item (b : StorageBlock) (content : json) (locked : bool) : obj :=
  obj_set (item_of b content) (js "locked") (JBool locked).

(** The entries of [rawItems] that the second loop keeps, with the index
    they are stored under. *)
Fixpoint visible (entries : list (Z * obj)) (locks deletions : jsset)
    : list (Z * obj) :=
  match entries with
  | [] => []
  | (index, item) :: rest =>
      if set_has deletions (JNum index) then visible rest locks deletions
      else
        (index, obj_set item (js "locked") (JBool (set_has locks (JNum index))))
        :: visible rest locks deletions
  end.

Definition visible_items {P : Platform} (st : SecureStorage P) : list (Z * obj) :=
  visible (rawItems (view st)) (locks (view st)) (deletions (view st)).

(** The scenario of C6 up to the lock. *)
Definition lock_scenario {P : Platform} (masterKey : jsstring) (t0 : Z)
    (r1 r2 r3 : json) (e1 e2 e3 e4 : Entropy) (user : jsstring) (t4 : Z)
    : M P (StorageBlock * StorageBlock * StorageBlock) :=
  let! _ := initialize masterKey t0 in
  let! b1 := append r1 e1 in
  let! b2 := append r2 e2 in
  let! b3 := append r3 e3 in
  let! _ := lockItem 2 user t4 e4 in
  ret (b1, b2, b3).

Definition snapshot (camera : string) : json :=
  JObj [ (js "type", JStr (js "EVIDENCE_SNAPSHOT"));
         (js "cameraId", JStr (js camera));
         (js "locked", JBool true) ].

(** A ledger with one snapshot. *)
Definition one_snapshot : SecureStorage Simple.platform :=
  snd (append (snapshot "cam-1") (Simple.entropy 10) Simple.unlocked).

(** The unlocked ledger after [deleteItem 2], called before any block 2
    exists: block 1 is a tombstone that names index 2. *)
Definition early_tombstone : SecureStorage Simple.platform :=
  snd (deleteItem 2 (js "u") 11 (Simple.entropy 10) Simple.unlocked).

(* ===================================================================== *)
(** ** Sequences of operations *)
(* ===================================================================== *)

(** The state after a sequence of operations, each awaited before the
    next. *)
Definition run_all {P : Platform} (ops : list operation)
    (st : SecureStorage P) : SecureStorage P :=
  fold_left (fun s op => run op s) ops st.

Definition is_initialize (op : operation) : bool :=
  match op with OpInitialize _ _ => true | _ => false end.

(** What [getStorageUsage] returns. *)
Definition storage_usage {P : Platform} (st : SecureStorage P) : Z :=
  map_fold (fun (_ : Z) (blob : list N) size => size + Z.of_nat (length blob)) 0
    (storage st).


(** A block is readable in a state when [decrypt] returns a truthy value
    for its index. *)
Definition readable {P : Platform} (st : SecureStorage P) (b : StorageBlock) : bool :=
  truthy (decrypted st (index b)).


(** What the schema of a context is tested on and what [validate] returns:
    the canonical form, upper-cased for MASTER_KEY and SERIAL. *)
Definition validated {P : Platform} (context : ValidationContext)
    (cleanInput : jsstring) : jsstring :=
  match context with
  | MASTER_KEY | SERIAL => toUpperCase cleanInput
  | _ => cleanInput
  end.

(** The result of the loop of [detectAttackVectors]. *)
Definition attack_found (input : jsstring) : bool :=
  existsb (fun pattern => test pattern input) ATTACK_VECTORS.

(** A string of code units of a class. *)
Definition over (rs : list (N * N)) (s : jsstring) : Prop :=
  Forall (fun c => in_ranges rs c = true) s.

Definition is_hex4 (g : jsstring) : bool :=
  bool_decide (length g = 4%nat)
  && forallb (in_ranges [ (65, 70); (48, 57) ]%N) g.

(** Four groups of four upper-case hexadecimal digits joined by dashes. *)
Definition key_groups (v : jsstring) : Prop :=
  exists g1 g2 g3 g4 : jsstring,
    v = g1 ++ js "-" ++ g2 ++ js "-" ++ g3 ++ js "-" ++ g4
    /\ is_hex4 g1 = true /\ is_hex4 g2 = true
    /\ is_hex4 g3 = true /\ is_hex4 g4 = true.

(** The strings of a context, read without the patterns. *)
Definition well_formed (context : ValidationContext) (v : jsstring) : Prop :=
  match context with
  | IP => dotted_quad v /\ v <> js "0.0.0.0" /\ v <> js "255.255.255.255"
  | PORT => v <> [] /\ over digit v /\ 1 <= parseInt v <= 65535
  | SAFE_TEXT =>
      v <> []
      /\ over ([ (97, 122); (65, 90); (48, 57) ]%N ++ ws_ranges
               ++ [ (45, 45); (95, 95); (46, 46) ]%N) v
  | FILENAME =>
      v <> []
      /\ over [ (97, 122); (65, 90); (48, 57); (45, 45); (95, 95) ]%N v
      /\ (length v <= 255)%nat
  | MASTER_KEY => key_groups v
  | SERIAL => v <> [] /\ over [ (65, 90); (48, 57); (45, 45) ]%N v
  | PASSWORD => over [ (32, 126)%N ] v /\ (8 <= length v)%nat
  end.

(** The patterns of [ATTACK_VECTORS] that text of the SAFE_TEXT class can
    match. *)
Definition text_vectors : list regex :=
  [ sql "UNION" "SELECT";
    sql "SELECT" "FROM";
    sql "INSERT" "INTO";
    sql "UPDATE" "SET";
    sql "DELETE" "FROM";
    lit "--" ].

(** The code units of a union of ranges. *)
Definition units (rs : list (N * N)) : list N :=
  flat_map (fun r => List.map N.of_nat
                       (seq (N.to_nat (fst r))
                            (S (N.to_nat (snd r)) - N.to_nat (fst r)))) rs.


(** *** The attack patterns, read as conditions on the text *)

(** Upper-casing of the ASCII letters: what the i flag identifies. *)
Definition fold_case (c : N) : N :=
  if in_ranges [(97, 122)%N] c then (c - 32)%N else c.

Definition same_letters (a b : jsstring) : Prop :=
  List.map fold_case a = List.map fold_case b.

Definition contains_ci (s w : jsstring) : Prop :=
  exists pre m post, s = pre ++ m ++ post /\ same_letters m w.

(** A word boundary between two adjacent parts of a text. *)
Definition boundary_at (before after : jsstring) : bool :=
  xorb (is_word_char (list.last before)) (is_word_char (head after)).

Definition line_terminators : list (N * N) :=
  [ (10, 10); (13, 13); (8232, 8233) ]%N.

(** Keyword [a], later on the same line keyword [b], in any case, each
    with a word boundary on both sides. *)
Definition keyword_pair (a b s : jsstring) : Prop :=
  exists pre x mid y post,
    s = pre ++ x ++ mid ++ y ++ post
    /\ same_letters x a /\ same_letters y b
    /\ Forall (fun c => in_ranges line_terminators c = false) mid
    /\ boundary_at pre (x ++ mid ++ y ++ post) = true
    /\ boundary_at (pre ++ x) (mid ++ y ++ post) = true
    /\ boundary_at (pre ++ x ++ mid) (y ++ post) = true
    /\ boundary_at (pre ++ x ++ mid ++ y) post = true.

Definition sql_keywords : list (string * string) :=
  [ ("UNION", "SELECT"); ("SELECT", "FROM"); ("INSERT", "INTO");
    ("UPDATE", "SET"); ("DELETE", "FROM") ]%string.

Definition plain_marks : list string :=
  [ "--"; "/*"; ";"; "|"; "`"; "$("; "&"; "../"; "..\" ]%string.

Definition script_marks : list string :=
  [ "<script"; "javascript:"; "onerror="; "onload=" ]%string.


(** The properties that [getAllItems] puts before those of the record. *)
Definition block_fields (b : StorageBlock) : obj :=
  [ (js "_blockIndex", JNum (index b));
    (js "_blockHash", JStr (dataHash b));
    (js "_timestamp", JNum (timestamp b)) ].

(** The own enumerable properties of a value, as the object spread of
    [getAllItems] copies them. *)
Definition own_properties (content : json) : list (jsstring * json) :=
  match content with
  | JObj fields => fields
  | JArr l => indexed l
  | JStr s => indexed (List.map (fun c => JStr [c]) s)
  | _ => []
  end.

(** The value a record gives to a property: the value of its last property
    of that name. *)
Definition own_property (content : json) (name : jsstring) : option json :=
  obj_get (rev (own_properties content)) name.

(** What reading the properties of a returned item gives: [locked] is the
    flag of the projector; every other property is the one of the record,
    when the record has a property of that name, and else the one of the
    block.  Nothing is said about the order of the properties. *)
Definition reads_as (item : obj) (b : StorageBlock) (content : json)
    (locked : bool) : Prop :=
  obj_get item (js "locked") = Some (JBool locked)
  /\ forall name : jsstring, name <> js "locked" ->
       obj_get item name
       = match own_property content name with
         | Some v => Some v
         | None => obj_get (block_fields b) name
         end.

(** A ledger whose one record has a property named [_blockIndex]. *)
Definition shadowed : SecureStorage Simple.platform :=
  snd (append (JObj [ (js "type", JStr (js "NOTE"));
                      (js "_blockIndex", JNum 99) ])
         (Simple.entropy 10) Simple.unlocked).

(* ===================================================================== *)
(** ** Properties of the matcher *)
(* ===================================================================== *)

Lemma mem_range (lo hi c : N) :
  mem false [(lo, hi)] c = true <-> (lo <= c <= hi)%N.
Proof.
  unfold mem, in_ranges; simpl.
  rewrite orb_false_r, andb_true_iff, !N.leb_le. tauto.
Qed.

Lemma last_of_cons prev c m : last_of prev (c :: m) = last_of (Some c) m.
Proof.
  unfold last_of. destruct m as [|d m]; [reflexivity|].
  rewrite last_cons_cons. destruct (list.last (d :: m)) eqn:E; [reflexivity|].
  apply last_None in E. discriminate.
Qed.

(** A sequence of classes reads the code units that belong to them. *)
Lemma rmatch_seq_of (rs : list regex) (m : jsstring) :
  Forall2 (fun r c => forall prev s k,
             rmatch r prev (c :: s) k = k (Some c) s) rs m ->
  forall prev rest k,
    rmatch (seq_of rs) prev (m ++ rest) k = k (last_of prev m) rest.
Proof.
  induction 1 as [|r c rs m Hr _ IH]; intros prev rest k.
  - reflexivity.
  - simpl. rewrite Hr, IH, last_of_cons. reflexivity.
Qed.

Lemma search_app (r : regex) (pre s : jsstring) (prev : option N) :
  search r (last_of prev pre) s = true -> search r prev (pre ++ s) = true.
Proof.
  revert prev. induction pre as [|c pre IH]; intros prev H.
  - exact H.
  - simpl. rewrite last_of_cons in H. rewrite (IH _ H). apply orb_true_r.
Qed.

Lemma search_here (r : regex) (prev : option N) (s : jsstring) :
  rmatch r prev s accept = true -> search r prev s = true.
Proof. intros H. destruct s; simpl; rewrite H; reflexivity. Qed.

(** A pattern that is a sequence of classes is found in every string that
    contains code units of these classes in a row. *)
Lemma test_infix (rs : list regex) (m pre post : jsstring) :
  Forall2 (fun r c => forall prev s k,
             rmatch r prev (c :: s) k = k (Some c) s) rs m ->
  test (seq_of rs) (pre ++ m ++ post) = true.
Proof.
  intros H. unfold test. apply search_app, search_here.
  rewrite (rmatch_seq_of _ _ H). reflexivity.
Qed.

(** *** Anchored patterns *)

Lemma search_Bol_later (r : regex) (c : N) (s : jsstring) :
  search (Seq Bol r) (Some c) s = false.
Proof.
  revert c. induction s as [|d s IH]; intros c.
  - reflexivity.
  - change (search (Seq Bol r) (Some c) (d :: s))
      with (false || search (Seq Bol r) (Some d) s).
    apply IH.
Qed.

Lemma star_loop_ext (k1 k2 : option N -> jsstring -> bool) neg rs :
  (forall p s, k1 p s = k2 p s) ->
  forall prev s, star_loop k1 neg rs prev s = star_loop k2 neg rs prev s.
Proof.
  intros E prev s. revert prev.
  induction s as [|c s IH]; intros prev; simpl.
  - apply E.
  - rewrite IH, E. reflexivity.
Qed.

Lemma rmatch_ext (r : regex) :
  forall (k1 k2 : option N -> jsstring -> bool),
    (forall p s, k1 p s = k2 p s) ->
    forall prev s, rmatch r prev s k1 = rmatch r prev s k2.
Proof.
  induction r as [| neg rs | r1 IH1 r2 IH2 | r1 IH1 r2 IH2 | r IH | neg rs
                 | | | ]; intros k1 k2 E prev s; simpl.
  - apply E.
  - destruct s; [reflexivity|]. rewrite E. reflexivity.
  - apply IH1. intros p s'. apply IH2, E.
  - rewrite (IH1 k1 k2 E), (IH2 k1 k2 E). reflexivity.
  - rewrite (IH k1 k2 E), E. reflexivity.
  - apply star_loop_ext, E.
  - rewrite E. reflexivity.
  - rewrite E. reflexivity.
  - rewrite E. reflexivity.
Qed.

(** An anchored pattern is tried at the start only and must read the whole
    input. *)
Lemma test_anchored (r : regex) (s : jsstring) :
  test (anchored r) s = rmatch r None s at_end.
Proof.
  unfold test, anchored.
  assert (E : rmatch (Seq Bol (Seq r Eol)) None s accept = rmatch r None s at_end).
  { simpl. apply rmatch_ext. intros p s'. simpl. unfold at_end, accept.
    apply andb_true_r. }
  destruct s as [|c s]; cbn [search].
  - rewrite E. apply orb_false_r.
  - rewrite search_Bol_later, E. apply orb_false_r.
Qed.

Lemma star_loop_all (k : option N -> jsstring -> bool) neg rs (s : jsstring) :
  Forall (fun c => mem neg rs c = true) s ->
  forall prev, k (last_of prev s) [] = true ->
    star_loop k neg rs prev s = true.
Proof.
  induction 1 as [|c s Hc _ IH]; intros prev Hk.
  - exact Hk.
  - simpl. rewrite Hc, IH; [reflexivity|]. rewrite <- last_of_cons with (prev := prev).
    exact Hk.
Qed.

Lemma star_loop_sound (k : option N -> jsstring -> bool) neg rs :
  forall s prev, star_loop k neg rs prev s = true ->
    exists m rest, s = m ++ rest
                   /\ Forall (fun c => mem neg rs c = true) m
                   /\ k (last_of prev m) rest = true.
Proof.
  induction s as [|c s IH]; intros prev H; simpl in H.
  - exists [], []. auto.
  - apply orb_true_iff in H as [H | H].
    + apply andb_true_iff in H as [Hc H].
      destruct (IH _ H) as (m & rest & -> & Hm & Hk).
      exists (c :: m), rest. rewrite last_of_cons. auto.
    + exists [], (c :: s). auto.
Qed.

(** [^[class]+$] accepts exactly the non-empty strings over the class. *)
Lemma test_anchored_plus neg rs (s : jsstring) :
  test (anchored (plus neg rs)) s = true
  <-> s <> [] /\ Forall (fun c => mem neg rs c = true) s.
Proof.
  rewrite test_anchored. unfold plus. simpl. split.
  - destruct s as [|c s]; [discriminate|]. intros H.
    apply andb_true_iff in H as [Hc H].
    apply star_loop_sound in H as (m & rest & -> & Hm & Hk).
    unfold at_end in Hk. apply bool_decide_eq_true in Hk. subst rest.
    rewrite app_nil_r. split; [discriminate | constructor; assumption].
  - intros [Hne H]. destruct H as [|c s Hc H]; [congruence|].
    rewrite Hc. simpl. apply star_loop_all; [assumption | reflexivity].
Qed.

(** *** The octet and the dotted quad of [IP_V4] *)

Ltac bool_hyps :=
  repeat match goal with
  | H : (_ || _) = true |- _ => apply orb_true_iff in H; destruct H as [H | H]
  | H : (_ && _) = true |- _ =>
      let H1 := fresh H in apply andb_true_iff in H; destruct H as [H1 H]
  | H : context [digit] |- _ => unfold digit in H
  | H : mem false [(_, _)] _ = true |- _ => apply mem_range in H
  | H : in_ranges [(_, _)] _ = true |- _ => apply (mem_range _ _ _) in H
  | H : match ?s with [] => false | _ :: _ => _ end = true |- _ =>
      destruct s; [discriminate H |]
  end.

Lemma is_octet_intro (o : jsstring) :
  Forall (fun c => (48 <= c <= 57)%N) o -> (1 <= length o <= 3)%nat ->
  parseInt o <= 255 -> is_octet o = true.
Proof.
  intros Hd Hl Hv. unfold is_octet.
  rewrite !andb_true_iff, bool_decide_eq_true, Z.leb_le, forallb_forall.
  repeat split; try lia. intros c Hc.
  rewrite Forall_forall in Hd. apply (mem_range 48 57 c), Hd, Hc.
Qed.

Lemma rmatch_octet_sound prev s k :
  rmatch PATTERNS.octet_re prev s k = true ->
  exists o rest, s = o ++ rest /\ is_octet o = true
                 /\ k (list.last o) rest = true.
Proof.
  unfold PATTERNS.octet_re, chr. cbn [rmatch]. intros H.
  bool_hyps.
  all: match goal with
       | H : _ (Some ?c) ?rest = true |- _ =>
           first [ eexists [_; _; c], rest; split; [reflexivity|]
                 | eexists [_; c], rest; split; [reflexivity|]
                 | eexists [c], rest; split; [reflexivity|] ];
           (split; [| exact H])
       end.
  all: apply is_octet_intro; [repeat (apply Forall_cons; [lia|]); apply Forall_nil | simpl; lia | unfold parseInt; simpl; lia].
Qed.

Ltac go_left := apply orb_true_iff; left.
Ltac go_right := apply orb_true_iff; right.
Ltac both := apply andb_true_iff; split.
Ltac in_class := unfold digit; apply mem_range; lia.

Lemma rmatch_octet_complete prev o rest k :
  is_octet o = true -> k (list.last o) rest = true ->
  rmatch PATTERNS.octet_re prev (o ++ rest) k = true.
Proof.
  unfold is_octet. rewrite !andb_true_iff, bool_decide_eq_true, Z.leb_le.
  intros [[Hd Hl] Hv] Hk.
  destruct o as [|a [|b [|c [|d o]]]]; simpl in Hl; try lia;
    simpl in Hd; bool_hyps; try discriminate; rewrite ?N.leb_le in *;
    unfold parseInt in Hv; simpl in Hv, Hk;
    unfold PATTERNS.octet_re, chr; cbn [rmatch app].
  - do 3 go_right. both; [in_class | go_right; exact Hk].
  - do 3 go_right. both; [in_class | go_left; both; [in_class | exact Hk]].
  - assert (C : (a <= 49 \/ (a = 50 /\ b <= 52) \/ (a = 50 /\ b = 53 /\ c <= 53))%N)
      by lia.
    destruct C as [C | [C | C]].
    + do 2 go_right. go_left. both; [in_class |].
      both; [in_class |]. go_left. both; [in_class | exact Hk].
    + go_right. go_left. both; [in_class |].
      both; [in_class |]. both; [in_class | exact Hk].
    + go_left. both; [in_class |].
      both; [in_class |]. both; [in_class | exact Hk].
Qed.

Lemma rmatch_octet prev s k :
  rmatch PATTERNS.octet_re prev s k = true
  <-> exists o rest, s = o ++ rest /\ is_octet o = true
                     /\ k (list.last o) rest = true.
Proof.
  split; [apply rmatch_octet_sound |].
  intros (o & rest & -> & Ho & Hk). apply rmatch_octet_complete; assumption.
Qed.

Lemma rmatch_dot prev s k :
  rmatch (chr 46) prev s k = true <-> exists rest, s = 46%N :: rest /\ k (Some 46%N) rest = true.
Proof.
  unfold chr. cbn [rmatch]. split.
  - intros H. bool_hyps. assert (n = 46%N) by lia. subst. eauto.
  - intros (rest & -> & H). both; [in_class | exact H].
Qed.

Lemma test_IP_V4 (s : jsstring) :
  test PATTERNS.IP_V4 s = true <-> dotted_quad s.
Proof.
  unfold PATTERNS.IP_V4. rewrite test_anchored.
  cbn [repeat_re rmatch]. split.
  - intros H.
    apply rmatch_octet in H as (o1 & r1 & -> & Ho1 & H).
    apply rmatch_dot in H as (r2 & -> & H).
    apply rmatch_octet in H as (o2 & r3 & -> & Ho2 & H).
    apply rmatch_dot in H as (r4 & -> & H).
    apply rmatch_octet in H as (o3 & r5 & -> & Ho3 & H).
    apply rmatch_dot in H as (r6 & -> & H).
    apply rmatch_octet in H as (o4 & r7 & -> & Ho4 & H).
    unfold at_end in H. apply bool_decide_eq_true in H. subst r7.
    exists o1, o2, o3, o4. rewrite app_nil_r. auto.
  - intros (o1 & o2 & o3 & o4 & -> & Ho1 & Ho2 & Ho3 & Ho4).
    apply rmatch_octet. eexists o1, _. split; [reflexivity|]. split; [assumption|].
    apply rmatch_dot. eexists. split; [reflexivity|].
    apply rmatch_octet. eexists o2, _. split; [reflexivity|]. split; [assumption|].
    apply rmatch_dot. eexists. split; [reflexivity|].
    apply rmatch_octet. eexists o3, _. split; [reflexivity|]. split; [assumption|].
    apply rmatch_dot. eexists. split; [reflexivity|].
    apply rmatch_octet. exists o4, []. rewrite app_nil_r. auto.
Qed.

(** *** Patterns that need a code unit outside an alphabet *)

Lemma star_loop_false (A : list N) (k : option N -> jsstring -> bool) neg rs :
  (forall p s, Forall (fun c => In c A) s -> k p s = false) ->
  forall s prev, Forall (fun c => In c A) s -> star_loop k neg rs prev s = false.
Proof.
  intros Hk. induction s as [|c s IH]; intros prev Hs; simpl.
  - apply Hk, Hs.
  - rewrite (Hk _ _ Hs). inversion Hs; subst.
    rewrite IH by assumption. rewrite andb_false_r. reflexivity.
Qed.

Lemma rmatch_k_false (A : list N) (r : regex) :
  forall (k : option N -> jsstring -> bool),
    (forall p s, Forall (fun c => In c A) s -> k p s = false) ->
    forall prev s, Forall (fun c => In c A) s -> rmatch r prev s k = false.
Proof.
  induction r as [| neg rs | r1 IH1 r2 IH2 | r1 IH1 r2 IH2 | r IH | neg rs
                 | | | ]; intros k Hk prev s Hs; simpl.
  - apply Hk, Hs.
  - destruct s as [|c s]; [reflexivity|]. inversion Hs; subst.
    rewrite Hk by assumption. apply andb_false_r.
  - apply IH1; [|assumption]. intros p s' Hs'. apply IH2; assumption.
  - rewrite IH1, IH2 by assumption. reflexivity.
  - rewrite IH, Hk by assumption. reflexivity.
  - apply star_loop_false with (A := A); assumption.
  - rewrite Hk by assumption. apply andb_false_r.
  - rewrite Hk by assumption. apply andb_false_r.
  - rewrite Hk by assumption. apply andb_false_r.
Qed.

Lemma rmatch_dead (A : list N) (r : regex) :
  dead A r = true ->
  forall k prev s, Forall (fun c => In c A) s -> rmatch r prev s k = false.
Proof.
  induction r as [| neg rs | r1 IH1 r2 IH2 | r1 IH1 r2 IH2 | r IH | neg rs
                 | | | ]; simpl; intros Hd k prev s Hs; try discriminate.
  - destruct s as [|c s]; [reflexivity|]. inversion Hs; subst.
    rewrite forallb_forall in Hd.
    rewrite (proj1 (negb_true_iff _) (Hd c ltac:(assumption))). reflexivity.
  - apply orb_true_iff in Hd as [Hd | Hd].
    + apply IH1; assumption.
    + apply rmatch_k_false with (A := A); [|assumption].
      intros p s' Hs'. apply IH2; assumption.
  - apply andb_true_iff in Hd as [Hd1 Hd2].
    rewrite IH1, IH2 by assumption. reflexivity.
Qed.

Lemma test_dead (A : list N) (r : regex) (s : jsstring) :
  dead A r = true -> Forall (fun c => In c A) s -> test r s = false.
Proof.
  intros Hd. unfold test. generalize (@None N).
  induction s as [|c s IH]; intros prev Hs; simpl.
  - rewrite (rmatch_dead A) by assumption. reflexivity.
  - rewrite (rmatch_dead A) by assumption. inversion Hs; subst. apply IH.
    assumption.
Qed.

Lemma no_attack_in_ip_text (s : jsstring) :
  Forall (fun c => In c ip_alphabet) s ->
  existsb (fun pattern => test pattern s) ATTACK_VECTORS = false.
Proof.
  intros Hs.
  assert (D : forallb (dead ip_alphabet) ATTACK_VECTORS = true)
    by (vm_compute; reflexivity).
  rewrite forallb_forall in D.
  apply not_true_is_false. intros H. apply existsb_exists in H as (r & Hr & Ht).
  rewrite (test_dead ip_alphabet r s (D r Hr) Hs) in Ht. discriminate.
Qed.

(* ===================================================================== *)
(** ** Properties of the validator *)
(* ===================================================================== *)

Lemma trim_start_id (s : jsstring) :
  Forall (fun c => is_space c = false) s -> trim_start s = s.
Proof. intros H. destruct H as [|c s Hc _]; simpl; [|rewrite Hc]; reflexivity. Qed.

Lemma trim_id (s : jsstring) :
  Forall (fun c => is_space c = false) s -> trim s = s.
Proof.
  intros H. unfold trim. rewrite (trim_start_id s H).
  rewrite trim_start_id by (apply Forall_rev, H). apply rev_involutive.
Qed.

Lemma filter_id {A} (f : A -> bool) (l : list A) :
  Forall (fun x => f x = true) l -> List.filter f l = l.
Proof.
  induction 1 as [|x l Hx _ IH]; simpl; [|rewrite Hx, IH]; reflexivity.
Qed.

(** Text of ASCII code units without control characters and white space is
    its own canonical form. *)
Lemma canonicalize_id {P : Platform} {L : PlatformLaws P} (s : jsstring) :
  Forall (fun c => (c < 128)%N /\ in_ranges control_ranges c = false
                   /\ is_space c = false) s ->
  canonicalize s = s.
Proof.
  intros H. unfold canonicalize. destruct s as [|c s]; [reflexivity|].
  rewrite nfkc_ascii by (revert H; apply List.Forall_impl; simpl; tauto).
  rewrite filter_id
    by (revert H; apply List.Forall_impl; simpl; intros ? (_ & -> & _); reflexivity).
  apply trim_id. revert H. apply List.Forall_impl. simpl. tauto.
Qed.

Lemma trim_start_blank (s : jsstring) :
  Forall (fun c => is_space c = true) s -> trim_start s = [].
Proof. induction 1 as [|c s Hc _ IH]; simpl; [|rewrite Hc]; auto. Qed.

(** Input of ASCII white space only has the empty canonical form. *)
Lemma canonicalize_blank {P : Platform} {L : PlatformLaws P} (s : jsstring) :
  Forall (fun c => (c < 128)%N /\ is_space c = true) s -> canonicalize s = [].
Proof.
  intros H. unfold canonicalize. destruct s as [|c s]; [reflexivity|].
  rewrite nfkc_ascii by (revert H; apply List.Forall_impl; simpl; tauto).
  unfold trim. rewrite (trim_start_blank (List.filter _ _)); [reflexivity|].
  apply Forall_forall. intros x Hx. apply filter_In in Hx as [Hx _].
  rewrite Forall_forall in H. apply (H x Hx).
Qed.

Lemma logViolation_returns {P : Platform} input context fieldName e
    (st : SecureStorage P) :
  exists st', logViolation input context fieldName e st = (Return tt, st').
Proof.
  unfold logViolation, try_catch, bind.
  destruct (append _ e st) as [[b | err] st']; simpl; eauto.
Qed.

(** [validate] with the monad unfolded. *)
Lemma validate_unfold {P : Platform} input context fieldName e (st : SecureStorage P) :
  validate input context fieldName e st =
  let cleanInput := canonicalize input in
  if bool_decide (cleanInput = []) && negb (is_SAFE_TEXT context) then
    (Throw (SecurityException
              (fieldName ++ js " cannot be empty or whitespace only.")), st)
  else
    match detectAttackVectors cleanInput context st with
    | (Throw exc, st1) => (Throw exc, st1)
    | (Return _, st1) =>
        if schema_valid cleanInput context then
          (Return match context with
                  | MASTER_KEY | SERIAL => toUpperCase cleanInput
                  | _ => cleanInput
                  end, st1)
        else
          match logViolation cleanInput context fieldName e st1 with
          | (Throw exc, st2) => (Throw exc, st2)
          | (Return _, st2) =>
              (Throw (SecurityException
                        (js "Security Policy Violation: " ++ fieldName
                         ++ js " format is invalid or contains prohibited characters.")),
               st2)
          end
    end.
Proof.
  unfold validate. cbv zeta.
  destruct (bool_decide (canonicalize input = []) && negb (is_SAFE_TEXT context));
    [reflexivity|].
  unfold bind at 1.
  destruct (detectAttackVectors (canonicalize input) context st) as [[[] | exc] st1];
    [|reflexivity].
  destruct (schema_valid (canonicalize input) context); simpl.
  - destruct context; reflexivity.
  - unfold bind. destruct (logViolation _ _ _ _ st1) as [[[] | exc] st2]; reflexivity.
Qed.

Lemma detectAttackVectors_cases {P : Platform} input context (st : SecureStorage P) :
  detectAttackVectors input context st = (Return tt, st)
  \/ detectAttackVectors input context st
     = (Throw (SecurityException
                 (js "Malicious Pattern Detected: " ++ context_name context)), st).
Proof.
  unfold detectAttackVectors. destruct (is_PASSWORD context); [left; reflexivity|].
  destruct (existsb _ _); [right | left]; reflexivity.
Qed.

(** The ways [validate] ends. *)
Lemma validate_empty {P : Platform} input context fieldName e (st : SecureStorage P) :
  canonicalize input = [] -> is_SAFE_TEXT context = false ->
  validate input context fieldName e st
  = (Throw (SecurityException
              (fieldName ++ js " cannot be empty or whitespace only.")), st).
Proof.
  intros Hc Hs. rewrite validate_unfold. cbv zeta. rewrite Hc, Hs. reflexivity.
Qed.

Lemma validate_attack {P : Platform} input context fieldName e (st : SecureStorage P) :
  canonicalize input <> [] -> is_PASSWORD context = false ->
  existsb (fun pattern => test pattern (canonicalize input)) ATTACK_VECTORS = true ->
  validate input context fieldName e st
  = (Throw (SecurityException
              (js "Malicious Pattern Detected: " ++ context_name context)), st).
Proof.
  intros Hc Hp Ha. rewrite validate_unfold. cbv zeta.
  rewrite (bool_decide_eq_false_2 _ Hc). simpl andb. cbv iota.
  unfold detectAttackVectors. rewrite Hp, Ha. reflexivity.
Qed.

Lemma validate_schema_failure {P : Platform} input context fieldName e
    (st : SecureStorage P) :
  schema_valid (canonicalize input) context = false ->
  raises_SecurityException (validate input context fieldName e) st.
Proof.
  intros Hs. unfold raises_SecurityException. rewrite validate_unfold. cbv zeta.
  destruct (bool_decide (canonicalize input = []) && negb (is_SAFE_TEXT context)).
  { eexists _, _. reflexivity. }
  destruct (detectAttackVectors_cases (canonicalize input) context st) as [-> | ->].
  - rewrite Hs.
    destruct (logViolation_returns (canonicalize input) context fieldName e st)
      as [st' ->].
    eexists _, _. reflexivity.
  - eexists _, _. reflexivity.
Qed.

Lemma validate_accepts {P : Platform} input context fieldName e (st : SecureStorage P) :
  canonicalize input <> [] ->
  (is_PASSWORD context = true
   \/ existsb (fun pattern => test pattern (canonicalize input)) ATTACK_VECTORS = false) ->
  schema_valid (canonicalize input) context = true ->
  validate input context fieldName e st
  = (Return match context with
            | MASTER_KEY | SERIAL => toUpperCase (canonicalize input)
            | _ => canonicalize input
            end, st).
Proof.
  intros Hc Ha Hs. rewrite validate_unfold. cbv zeta.
  rewrite (bool_decide_eq_false_2 _ Hc). simpl andb. cbv iota.
  assert (Hd : detectAttackVectors (canonicalize input) context st = (Return tt, st)).
  { unfold detectAttackVectors. destruct Ha as [-> | Ha]; [reflexivity|].
    rewrite Ha. destruct (is_PASSWORD context); reflexivity. }
  rewrite Hd, Hs. reflexivity.
Qed.

Lemma contains_app (s a m b : jsstring) :
  contains s (a ++ m ++ b) -> exists pre post, s = pre ++ m ++ post.
Proof.
  intros (pre & post & ->). exists (pre ++ a), (b ++ post).
  rewrite <- !app_assoc. reflexivity.
Qed.

Ltac reads_literal :=
  repeat (apply Forall2_cons; [intros; reflexivity |]); apply Forall2_nil.

Lemma signature_detected (c sig : jsstring) :
  In sig attack_signatures -> contains c sig ->
  existsb (fun pattern => test pattern c) ATTACK_VECTORS = true.
Proof.
  intros Hin Hc. apply existsb_exists.
  simpl in Hin. destruct Hin as [<- | [<- | [<- | [<- | []]]]].
  - exists (lit "--"). split; [simpl; tauto|].
    apply (contains_app c (js "' OR 1=1 ") (js "--") []) in Hc as (pre & post & ->).
    apply (test_infix (List.map chr (js "--"))). reads_literal.
  - exists (lit ";"). split; [simpl; tauto|].
    apply (contains_app c [] (js ";") (js " rm -rf")) in Hc as (pre & post & ->).
    apply (test_infix (List.map chr (js ";"))). reads_literal.
  - exists (lit_i "<script"). split; [simpl; tauto|].
    apply (contains_app c [] (js "<script") (js ">")) in Hc as (pre & post & ->).
    apply (test_infix (List.map chr_i (js "<script"))). reads_literal.
  - exists (lit "../"). split; [simpl; tauto|].
    apply (contains_app c [] (js "../") (js "../etc/passwd")) in Hc as (pre & post & ->).
    apply (test_infix (List.map chr (js "../"))). reads_literal.
Qed.

Lemma contains_nonempty (c sig : jsstring) :
  In sig attack_signatures -> contains c sig -> c <> [] /\ (8 <= length c)%nat.
Proof.
  intros Hin (pre & post & ->). rewrite !length_app.
  assert (8 <= length sig)%nat.
  { simpl in Hin. destruct Hin as [<- | [<- | [<- | [<- | []]]]]; simpl; lia. }
  split; [|lia]. intros E. apply (f_equal length) in E.
  rewrite !length_app in E. simpl in E. lia.
Qed.

(* ===================================================================== *)
(** ** The small platform satisfies the laws *)
(* ===================================================================== *)

(** Induction on [json] with the hypothesis for the values below. *)
Lemma json_nested_ind (Q : json -> Prop) :
  Q JNull -> (forall b, Q (JBool b)) -> (forall z, Q (JNum z)) ->
  (forall s, Q (JStr s)) ->
  (forall l, Forall Q l -> Q (JArr l)) ->
  (forall fields, Forall (fun kv => Q (snd kv)) fields -> Q (JObj fields)) ->
  forall v, Q v.
Proof.
  intros Hnull Hbool Hnum Hstr Harr Hobj.
  fix IH 1. intros [| b | z | s | l | fields].
  - exact Hnull.
  - apply Hbool.
  - apply Hnum.
  - apply Hstr.
  - apply Harr. induction l as [|x l IHl]; constructor; [apply IH | exact IHl].
  - apply Hobj. induction fields as [|[k x] fields IHf]; constructor;
      [apply IH | exact IHf].
Qed.

Lemma simple_of_to_tree (v : json) : Simple.of_tree (Simple.to_tree v) = v.
Proof.
  induction v as [| b | z | s | l IH | fields IH] using json_nested_ind;
    try reflexivity.
  - simpl. f_equal. induction IH as [|x l Hx _ IHl]; simpl; [reflexivity|].
    rewrite Hx, IHl. reflexivity.
  - simpl. f_equal. induction IH as [|[k x] fields Hx _ IHf]; simpl; [reflexivity|].
    simpl in Hx. rewrite Hx, IHf. reflexivity.
Qed.

Lemma simple_nfkc_ascii (s : jsstring) :
  Forall (fun c => (c < 128)%N) s -> List.map Simple.nfkc_unit s = s.
Proof.
  induction 1 as [|c s Hc _ IH]; simpl; [reflexivity|]. rewrite IH. f_equal.
  unfold Simple.nfkc_unit, in_ranges. simpl.
  destruct (N.leb_spec 65281 c); [lia|].
  destruct (N.leb_spec 160 c); [lia|].
  destruct (N.leb_spec 12288 c); [lia|]. reflexivity.
Qed.

Lemma simple_unseal_seal (key : jsstring) (iv : list N) (text : jsstring) :
  Simple.unseal key iv (Simple.seal key iv text) = Some text.
Proof.
  unfold Simple.unseal, Simple.seal. rewrite Nat2N.id.
  rewrite take_app_length, drop_app_length.
  rewrite bool_decide_eq_true_2 by reflexivity. reflexivity.
Qed.

Lemma simple_parse_stringify (v : json) :
  Simple.parse (Simple.stringify v) = Some v.
Proof.
  unfold Simple.parse, Simple.stringify. rewrite decode_encode. simpl.
  rewrite simple_of_to_tree. reflexivity.
Qed.

#[global] Instance simple_laws : PlatformLaws Simple.platform.
Proof.
  split.
  - exact simple_nfkc_ascii.
  - intros key iv v _. apply simple_unseal_seal.
  - intros v _. apply simple_parse_stringify.
Qed.

(* ===================================================================== *)
(** ** Properties of the ledger *)
(* ===================================================================== *)

Section LedgerFacts.
Context {P : Platform}.
Implicit Types (st : SecureStorage P) (data : json) (e : Entropy).

Lemma append_unfold data e st :
  append data e st =
  match encryptionKey st with
  | None =>
      (Throw (Error (js "Storage locked: Encryption key not initialized")), st)
  | Some key =>
      match list.last (chain st) with
      | None => (Throw TypeError, st)
      | Some prevBlock =>
          (Return (appended_block prevBlock data e),
           {| chain := chain st ++ [appended_block prevBlock data e];
              encryptionKey := encryptionKey st;
              storage := <[index prevBlock + 1 := stored_blob key data e]>
                           (storage st) |})
      end
  end.
Proof.
  unfold append, getKey. cbv [bind this ret throw assign].
  destruct (encryptionKey st) as [key|] eqn:Ek; [|reflexivity].
  destruct (list.last (chain st)); rewrite ?Ek; reflexivity.
Qed.

Lemma decrypt_unfold i st : decrypt i st = (Return (decrypted st i), st).
Proof.
  unfold decrypt, decrypted, getKey. cbv [try_catch bind this ret throw].
  destruct (encryptionKey st) as [key|]; [|reflexivity].
  destruct (storage st !! i) as [blob|]; [|reflexivity].
  destruct (aes_gcm_decrypt _ _ _) as [s|]; [|reflexivity].
  destruct (JSON_parse s); reflexivity.
Qed.

Lemma replay_unfold blocks acc st :
  replay blocks acc st = (Return (replayed st blocks acc), st).
Proof.
  revert acc. induction blocks as [|b blocks IH]; intros acc; [reflexivity|].
  simpl. unfold bind. rewrite decrypt_unfold. apply IH.
Qed.

Lemma getAllItems_unfold st :
  getAllItems st = (Return (projection (view st)), st).
Proof.
  unfold getAllItems, bind, this. rewrite replay_unfold. reflexivity.
Qed.

Lemma initialize_unfold masterKey date_now st :
  initialize masterKey date_now st =
  (Return true,
   {| chain :=
        if bool_decide (length (chain st) = 0%nat) then
          chain st ++ [ {| index := 0;
                           previousHash := js "00000000000000000000000000000000";
                           timestamp := date_now;
                           dataHash := js "GENESIS_BLOCK";
                           signature := js "SYSTEM_INIT" |} ]
        else chain st;
      encryptionKey := Some (pbkdf2 masterKey (js "KEYSIGHT_LOCAL_SALT") 100000);
      storage := storage st |}).
Proof. reflexivity. Qed.

(** *** The invariant of the reachable states *)

Lemma chain_linked_last (l : list StorageBlock) :
  chain_linked l ->
  exists prev, list.last l = Some prev
               /\ index prev = Z.of_nat (length l) - 1
               /\ (1 <= length l)%nat.
Proof.
  intros [(g & Hg & _) Hl].
  destruct (list.last l) as [prev|] eqn:E.
  - exists prev. split; [reflexivity|].
    rewrite last_lookup in E. destruct (Hl _ _ E) as [-> _].
    apply lookup_lt_Some in Hg. lia.
  - apply last_None in E. subst l. discriminate.
Qed.

Lemma chain_linked_snoc (l : list StorageBlock) (prev b : StorageBlock) :
  chain_linked l -> list.last l = Some prev ->
  index b = index prev + 1 ->
  previousHash b = sha256 (JSON_stringify (block_json prev)) ->
  chain_linked (l ++ [b]).
Proof.
  intros Hl Hlast Hi Hp.
  destruct (chain_linked_last l Hl) as (prev' & Hlast' & Hidx & Hlen1).
  rewrite Hlast in Hlast'. injection Hlast' as <-.
  destruct Hl as [(g & Hg & Hgen) Hl]. split.
  - exists g. split; [|exact Hgen]. apply lookup_app_l_Some, Hg.
  - intros i x Hx. apply lookup_app_Some in Hx as [Hx | [Hlen Hx]].
    + destruct (Hl _ _ Hx) as [Hix Hprev]. split; [exact Hix|].
      intros Hpos. destruct (Hprev Hpos) as (p & Hp' & Hh).
      exists p. split; [apply lookup_app_l_Some, Hp' | exact Hh].
    + destruct (i - length l)%nat as [|n] eqn:En; [|destruct n; discriminate].
      injection Hx as <-.
      assert (i = length l) by lia. subst i. split; [lia|].
      intros _. exists prev. split; [|exact Hp].
      rewrite last_lookup in Hlast.
      apply lookup_app_l_Some.
      replace (length l - 1)%nat with (Nat.pred (length l)) by lia. exact Hlast.
Qed.

Lemma ledger_inv_initialize masterKey date_now :
  ledger_inv (snd (initialize masterKey date_now new_SecureStorage)).
Proof.
  rewrite initialize_unfold. unfold ledger_inv. simpl. split; [eauto|]. split.
  - split.
    + eexists. split; [reflexivity|]. repeat split.
    + intros [|[|i]] b Hb; try discriminate. injection Hb as <-.
      split; [reflexivity | lia].
  - intros k [blob Hk]. rewrite lookup_empty in Hk. discriminate.
Qed.

Lemma ledger_inv_reinitialize masterKey date_now st :
  ledger_inv st -> ledger_inv (snd (initialize masterKey date_now st)).
Proof.
  intros (Hk & Hl & Hs). rewrite initialize_unfold. unfold ledger_inv. simpl.
  assert (Hne : length (chain st) <> 0%nat).
  { destruct Hl as [(g & Hg & _) _]. apply lookup_lt_Some in Hg. lia. }
  rewrite (bool_decide_eq_false_2 _ Hne). split; [eauto|]. split; assumption.
Qed.

Lemma ledger_inv_append data e st block st' :
  ledger_inv st -> append data e st = (Return block, st') -> ledger_inv st'.
Proof.
  intros (Hk & Hl & Hs). rewrite append_unfold.
  destruct (encryptionKey st) as [key|] eqn:Ek; [|discriminate].
  destruct (chain_linked_last _ Hl) as (prev & Hlast & Hidx & Hlen1). rewrite Hlast.
  intros [= <- <-]. unfold ledger_inv. simpl. split; [eauto|]. split.
  - eapply chain_linked_snoc; eauto.
  - intros k Hsome. rewrite length_app. simpl.
    destruct (decide (index prev + 1 = k)) as [<- | Hne].
    + lia.
    + rewrite lookup_insert_ne in Hsome by exact Hne.
      specialize (Hs k Hsome). lia.
Qed.

Lemma reachable_inv st : reachable st -> ledger_inv st.
Proof.
  induction 1 as [mk t | st mk t _ IH | st data e block st' _ IH Happ].
  - apply ledger_inv_initialize.
  - apply ledger_inv_reinitialize, IH.
  - eapply ledger_inv_append; eauto.
Qed.

(** In a state that satisfies the invariant [append] returns. *)
Lemma append_returns data e st :
  ledger_inv st ->
  exists key prevBlock,
    encryptionKey st = Some key
    /\ list.last (chain st) = Some prevBlock
    /\ index prevBlock + 1 = Z.of_nat (length (chain st))
    /\ append data e st =
       (Return (appended_block prevBlock data e),
        {| chain := chain st ++ [appended_block prevBlock data e];
           encryptionKey := Some key;
           storage := <[index prevBlock + 1 := stored_blob key data e]>
                        (storage st) |}).
Proof.
  intros ([key Hk] & Hl & Hs).
  destruct (chain_linked_last _ Hl) as (prev & Hlast & Hidx & Hlen1).
  exists key, prev. rewrite append_unfold, Hk, Hlast.
  repeat split; try reflexivity. lia.
Qed.

End LedgerFacts.

Section ViewFacts.
Context {P : Platform}.
Implicit Types (st : SecureStorage P) (data : json) (e : Entropy).

Lemma decrypted_same st st' (k : Z) :
  encryptionKey st' = encryptionKey st ->
  storage st' !! k = storage st !! k ->
  decrypted st' k = decrypted st k.
Proof. intros Hk Hs. unfold decrypted. rewrite Hk, Hs. reflexivity. Qed.

Lemma replayed_same st st' (blocks : list StorageBlock) :
  Forall (fun b => decrypted st' (index b) = decrypted st (index b)) blocks ->
  forall acc, replayed st' blocks acc = replayed st blocks acc.
Proof.
  induction 1 as [|b blocks Hb _ IH]; intros acc; [reflexivity|].
  simpl. rewrite Hb. apply IH.
Qed.

Lemma replayed_snoc st (blocks : list StorageBlock) (b : StorageBlock) acc :
  replayed st (blocks ++ [b]) acc
  = replay_step (replayed st blocks acc) b (decrypted st (index b)).
Proof. unfold replayed. rewrite fold_left_app. reflexivity. Qed.

(** A record that is not given as a string comes back from [decrypt]
    as it was appended. *)
Lemma decrypted_stored {L : PlatformLaws P} st (key : Key) (k : Z) data e :
  encryptionKey st = Some key ->
  storage st !! k = Some (stored_blob key data e) ->
  json_wf data = true -> (forall s, data <> JStr s) ->
  length (iv e) = 12%nat ->
  decrypted st k = data.
Proof.
  intros Hk Hs Hwf Hstr Hiv. unfold decrypted. rewrite Hk, Hs.
  unfold stored_blob.
  rewrite <- Hiv, take_app_length, drop_app_length.
  assert (Hd : data_string data = JSON_stringify data).
  { destruct data; try reflexivity. destruct (Hstr s). reflexivity. }
  rewrite Hd, aes_gcm_roundtrip by exact Hwf.
  rewrite JSON_roundtrip by exact Hwf. reflexivity.
Qed.

(** One [append] extends the replay by one step: the earlier blocks
    decrypt as before. *)
Lemma append_view data e st :
  ledger_inv st ->
  exists (key : Key) (b : StorageBlock) st',
    append data e st = (Return b, st')
    /\ ledger_inv st'
    /\ chain st' = chain st ++ [b]
    /\ index b = Z.of_nat (length (chain st))
    /\ timestamp b = now e
    /\ dataHash b = sha256 (data_string data)
    /\ encryptionKey st = Some key /\ encryptionKey st' = Some key
    /\ storage st' = <[index b := stored_blob key data e]> (storage st)
    /\ (forall k blob, storage st !! k = Some blob -> storage st' !! k = Some blob)
    /\ view st' = replay_step (view st) b (decrypted st' (index b)).
Proof.
  intros Hinv.
  destruct (append_returns data e st Hinv) as (key & prev & Hk & Hlast & Hidx & Happ).
  eexists key, _, _. split; [exact Happ|].
  split; [eapply ledger_inv_append; eauto|].
  cbn [chain encryptionKey storage appended_block index timestamp dataHash].
  destruct Hinv as (_ & Hl & Hs).
  assert (Hfresh : forall k, is_Some (storage st !! k) -> k <> index prev + 1).
  { intros k Hsome. specialize (Hs k Hsome). lia. }
  repeat split; try reflexivity; try assumption.
  - intros k blob Hb. rewrite lookup_insert_ne; [exact Hb|].
    intros E. apply (Hfresh k); [eauto | congruence].
  - unfold view. cbn [chain].
    assert (Hne : chain st <> []).
    { intros E. rewrite E in Hlast. discriminate. }
    replace (drop 1 (chain st ++ [appended_block prev data e]))
      with (drop 1 (chain st) ++ [appended_block prev data e])
      by (destruct (chain st); [congruence | reflexivity]).
    rewrite replayed_snoc. f_equal.
    apply replayed_same. apply Forall_forall. intros b Hb.
    apply decrypted_same; [cbn [encryptionKey]; congruence|].
    cbn [storage]. apply lookup_insert_ne.
    apply list_elem_of_In in Hb. apply list_elem_of_lookup in Hb as [i Hi].
    rewrite lookup_drop in Hi. destruct Hl as [_ Hl].
    destruct (Hl _ _ Hi) as [Hib _]. apply lookup_lt_Some in Hi. lia.
Qed.

End ViewFacts.

(* ===================================================================== *)
(** ** The hash chain *)
(* ===================================================================== *)

(** C1. In every ledger state reached by [initialize] and any sequence of
    successful [append] calls, block 0 is the genesis block with index 0,
    and for every i > 0 block i has index i and its [previousHash] is the
    SHA-256 hash of the JSON serialisation of block i-1. *)
Theorem C1_hash_chain_invariant {P : Platform} (st : SecureStorage P) :
  reachable st ->
  (exists g, chain st !! 0%nat = Some g /\ is_genesis g)
  /\ forall (i : nat) (b : StorageBlock),
       (0 < i)%nat -> chain st !! i = Some b ->
       index b = Z.of_nat i
       /\ exists p, chain st !! (i - 1)%nat = Some p
            /\ previousHash b = sha256 (JSON_stringify (block_json p)).
Proof.
  intros Hr. destruct (reachable_inv st Hr) as (_ & [Hg Hl] & _).
  split; [exact Hg|]. intros i b Hpos Hb.
  destruct (Hl i b Hb) as [Hi Hp]. split; [exact Hi | exact (Hp Hpos)].
Qed.

Lemma reachable_after_append {P : Platform} data e (st : SecureStorage P) :
  reachable st -> reachable (snd (append data e st)).
Proof.
  intros Hr. destruct (append data e st) as [[b|exc] st'] eqn:E; simpl.
  - eapply reachable_append; eauto.
  - rewrite append_unfold in E. destruct (encryptionKey st); [|congruence].
    destruct (list.last (chain st)); [discriminate | congruence].
Qed.

Lemma two_records_reachable : reachable two_records.
Proof.
  unfold two_records. do 2 apply reachable_after_append.
  apply reachable_initialize.
Qed.

Lemma C1_hash_chain_invariant_witness :
  reachable two_records
  /\ (exists g, chain two_records !! 0%nat = Some g /\ is_genesis g)
  /\ forall (i : nat) (b : StorageBlock),
       (0 < i)%nat -> chain two_records !! i = Some b ->
       index b = Z.of_nat i
       /\ exists p, chain two_records !! (i - 1)%nat = Some p
            /\ previousHash b = sha256 (JSON_stringify (block_json p)).
Proof.
  split; [exact two_records_reachable|].
  exact (C1_hash_chain_invariant two_records two_records_reachable).
Defined.

(* ===================================================================== *)
(** ** The length of the chain *)
(* ===================================================================== *)

Lemma getChainLength_unfold {P : Platform} (st : SecureStorage P) :
  getChainLength st = (Return (Z.of_nat (length (chain st))), st).
Proof. reflexivity. Qed.

(** An operation that ends, returning or throwing, leaves the chain as it
    was or with one more block at the end. *)
Lemma append_chain {P : Platform} data e (st : SecureStorage P) :
  chain (snd (append data e st)) = chain st
  \/ exists b, chain (snd (append data e st)) = chain st ++ [b].
Proof.
  rewrite append_unfold. destruct (encryptionKey st); [|left; reflexivity].
  destruct (list.last (chain st)); [right; eexists|left]; reflexivity.
Qed.

Lemma event_chain {P : Platform} (m : M P StorageBlock) (st : SecureStorage P) :
  snd ((let! _ := m in ret true) st) = snd (m st).
Proof. unfold bind. destruct (m st) as [[b|exc] st']; reflexivity. Qed.

Lemma validate_chain {P : Platform} input context fieldName e (st : SecureStorage P) :
  snd (validate input context fieldName e st) = st
  \/ snd (validate input context fieldName e st)
     = snd (append (violation_record (canonicalize input) context fieldName) e st).
Proof.
  rewrite validate_unfold. cbv zeta.
  destruct (_ && _); [left; reflexivity|].
  destruct (detectAttackVectors_cases (canonicalize input) context st) as [-> | ->];
    [|left; reflexivity].
  destruct (schema_valid _ _); [left; reflexivity|]. right.
  unfold logViolation, try_catch, bind.
  destruct (append _ e st) as [[b|exc] st']; reflexivity.
Qed.

Lemma run_chain {P : Platform} (op : operation) (st : SecureStorage P) :
  (length (chain st) <= length (chain (run op st)))%nat.
Proof.
  assert (Happ : forall data e,
             (length (chain st) <= length (chain (snd (append data e st))))%nat).
  { intros data e. destruct (append_chain data e st) as [-> | [b ->]];
      [|rewrite length_app]; lia. }
  destruct op; cbn [run].
  - rewrite initialize_unfold. cbn [snd chain].
    destruct (bool_decide _); [rewrite length_app|]; lia.
  - apply Happ.
  - rewrite decrypt_unfold. reflexivity.
  - unfold lockItem. rewrite event_chain. apply Happ.
  - unfold unlockItem. rewrite event_chain. apply Happ.
  - unfold deleteItem. rewrite event_chain. apply Happ.
  - rewrite getAllItems_unfold. reflexivity.
  - reflexivity.
  - reflexivity.
  - destruct (validate_chain input context fieldName e st) as [-> | ->];
      [lia | apply Happ].
Qed.

(** C8. A successful [append] increases [getChainLength] by exactly one,
    and no operation of the core decreases it. *)
Theorem C8_chain_length {P : Platform} (st : SecureStorage P) :
  exists n : Z,
    getChainLength st = (Return n, st)
    /\ (forall data e block st',
          append data e st = (Return block, st') ->
          getChainLength st' = (Return (n + 1), st'))
    /\ (forall op : operation,
          exists n', getChainLength (run op st) = (Return n', run op st)
                     /\ n <= n').
Proof.
  exists (Z.of_nat (length (chain st))). split; [reflexivity|]. split.
  - intros data e block st'. rewrite append_unfold.
    destruct (encryptionKey st); [|discriminate].
    destruct (list.last (chain st)); [|discriminate].
    intros [= <- <-]. rewrite getChainLength_unfold. cbn [chain].
    rewrite length_app. simpl. do 2 f_equal. lia.
  - intros op. eexists. split; [reflexivity|].
    pose proof (run_chain op st). lia.
Qed.

Lemma C8_chain_length_witness :
  exists n : Z,
    getChainLength Simple.unlocked = (Return n, Simple.unlocked)
    /\ getChainLength
         (snd (append (JStr (js "plain text")) (Simple.entropy 2000) Simple.unlocked))
       = (Return (n + 1),
          snd (append (JStr (js "plain text")) (Simple.entropy 2000) Simple.unlocked))
    /\ exists n', getChainLength (run (OpDecrypt 1) Simple.unlocked)
                  = (Return n', run (OpDecrypt 1) Simple.unlocked) /\ n <= n'.
Proof.
  destruct (C8_chain_length Simple.unlocked) as (n & Hn & Happ & Hrun).
  exists n. split; [exact Hn|]. split; [|apply Hrun].
  eapply (Happ (JStr (js "plain text")) (Simple.entropy 2000)).
  rewrite append_unfold. reflexivity.
Defined.

(* ===================================================================== *)
(** ** The projector reads without writing *)
(* ===================================================================== *)

(** C9. Two calls of [getAllItems] with no [append] between them return
    the same sequence of projected items, and the ledger is the one before
    the calls. *)
Theorem C9_view_idempotent {P : Platform} (st : SecureStorage P) :
  exists items : list obj,
    getAllItems st = (Return items, st)
    /\ (let! first := getAllItems in
        let! second := getAllItems in
        ret (first, second)) st = (Return (items, items), st).
Proof.
  exists (projection (view st)). split; [apply getAllItems_unfold|].
  unfold bind. rewrite !getAllItems_unfold. reflexivity.
Qed.

(* ===================================================================== *)
(** ** Before a key is established *)
(* ===================================================================== *)

Lemma view_locked {P : Platform} (st : SecureStorage P) :
  encryptionKey st = None -> view st = empty_replay.
Proof.
  intros Hk. unfold view. generalize (drop 1 (chain st)) empty_replay.
  induction l as [|b l IH]; intros acc; [reflexivity|].
  simpl. replace (decrypted st (index b)) with JNull
    by (unfold decrypted; rewrite Hk; reflexivity).
  apply IH.
Qed.

(** C2, as the code has it.  Without a key [append] and the three helpers
    built on it throw the storage-locked error and leave the ledger as it
    was; [decrypt] catches that error and returns [null], and
    [getAllItems] returns the empty sequence. *)
Theorem C2_uninitialized_amended {P : Platform} (st : SecureStorage P) :
  encryptionKey st = None ->
  let locked := Error (js "Storage locked: Encryption key not initialized") in
  (forall data e, append data e st = (Throw locked, st))
  /\ (forall i u t e, lockItem i u t e st = (Throw locked, st))
  /\ (forall i u t e, unlockItem i u t e st = (Throw locked, st))
  /\ (forall i u t e, deleteItem i u t e st = (Throw locked, st))
  /\ (forall i, decrypt i st = (Return JNull, st))
  /\ getAllItems st = (Return [], st).
Proof.
  intros Hk locked.
  assert (Happ : forall data e, append data e st = (Throw locked, st)).
  { intros data e. rewrite append_unfold, Hk. reflexivity. }
  split; [exact Happ|].
  split; [intros; unfold lockItem, bind; rewrite Happ; reflexivity|].
  split; [intros; unfold unlockItem, bind; rewrite Happ; reflexivity|].
  split; [intros; unfold deleteItem, bind; rewrite Happ; reflexivity|].
  split.
  - intros i. rewrite decrypt_unfold. unfold decrypted. rewrite Hk. reflexivity.
  - rewrite getAllItems_unfold, (view_locked st Hk). reflexivity.
Qed.

Lemma C2_uninitialized_amended_witness :
  encryptionKey (@new_SecureStorage Simple.platform) = None
  /\ raises (append (JStr (js "x")) (Simple.entropy 1)) (@new_SecureStorage Simple.platform)
  /\ decrypt 1 (@new_SecureStorage Simple.platform) = (Return JNull, new_SecureStorage)
  /\ getAllItems (@new_SecureStorage Simple.platform) = (Return [], new_SecureStorage).
Proof.
  split; [reflexivity|].
  destruct (C2_uninitialized_amended (@new_SecureStorage Simple.platform) eq_refl)
    as (Happ & _ & _ & _ & Hdec & Hall).
  split; [eexists _, _; apply Happ|]. split; [apply Hdec | exact Hall].
Defined.

(** C2 as stated fails: in the uninitialized state [decrypt] and
    [getAllItems] return instead of raising. *)
Lemma C2_decrypt_and_getAllItems_do_not_raise :
  ~ raises (decrypt 1) (@new_SecureStorage Simple.platform)
  /\ ~ raises getAllItems (@new_SecureStorage Simple.platform).
Proof.
  split; intros (exc & st' & H).
  - rewrite decrypt_unfold in H. discriminate H.
  - rewrite getAllItems_unfold in H. discriminate H.
Qed.

(* ===================================================================== *)
(** ** The IP schema *)
(* ===================================================================== *)

Lemma dec_octet (n : N) :
  (n <= 255)%N ->
  is_octet (dec n) = true /\ Forall (fun c => In c ip_alphabet) (dec n).
Proof.
  intros Hn.
  assert (H : forallb (fun n => is_octet (dec n)
                       && forallb (fun c => existsb (N.eqb c) ip_alphabet) (dec n))
                (List.map N.of_nat (seq 0 256)) = true)
    by (vm_compute; reflexivity).
  rewrite forallb_forall in H. specialize (H n).
  destruct (proj1 (andb_true_iff _ _) (H ltac:(
    rewrite <- (N2Nat.id n); apply in_map, in_seq; lia))) as [Ho Ha].
  split; [exact Ho|]. apply Forall_forall. intros c Hc.
  rewrite forallb_forall in Ha. specialize (Ha c Hc).
  apply existsb_exists in Ha as (c' & Hin & Heq).
  apply N.eqb_eq in Heq. subst c'. exact Hin.
Qed.

Lemma ip_string_alphabet (a b c d : N) :
  (a <= 255)%N -> (b <= 255)%N -> (c <= 255)%N -> (d <= 255)%N ->
  Forall (fun x => In x ip_alphabet) (ip_string a b c d).
Proof.
  intros Ha Hb Hc Hd. unfold ip_string.
  assert (Hdot : Forall (fun x => In x ip_alphabet) (js "."))
    by (repeat constructor; vm_compute; tauto).
  repeat (apply Forall_app; split); try exact Hdot; apply dec_octet; assumption.
Qed.

Lemma ip_alphabet_clean (s : jsstring) :
  Forall (fun c => In c ip_alphabet) s ->
  Forall (fun c => (c < 128)%N /\ in_ranges control_ranges c = false
                   /\ is_space c = false) s.
Proof.
  apply List.Forall_impl. intros c Hc.
  assert (H : forallb (fun c => (c <? 128)%N
                       && negb (in_ranges control_ranges c)
                       && negb (is_space c)) ip_alphabet = true)
    by (vm_compute; reflexivity).
  rewrite forallb_forall in H. specialize (H c Hc).
  rewrite !andb_true_iff, !negb_true_iff, N.ltb_lt in H. tauto.
Qed.

Lemma ip_string_dotted_quad (a b c d : N) :
  (a <= 255)%N -> (b <= 255)%N -> (c <= 255)%N -> (d <= 255)%N ->
  dotted_quad (ip_string a b c d).
Proof.
  intros Ha Hb Hc Hd. exists (dec a), (dec b), (dec c), (dec d).
  split; [reflexivity|]. repeat split; apply dec_octet; assumption.
Qed.

(** C3, as the code has it.  A dotted quad of four numbers from 0 to 255
    printed without leading zeros, other than 0.0.0.0 and 255.255.255.255,
    is returned unchanged, whether its range is private or public; an input
    whose canonical form is 0.0.0.0, 255.255.255.255, or not four
    dot-separated groups of one to three digits of value at most 255 is
    rejected with a [SecurityException]. *)
Theorem C3_ip_amended {P : Platform} {L : PlatformLaws P}
    (fieldName : jsstring) (e : Entropy) (st : SecureStorage P) :
  (forall a b c d : N,
      (a <= 255)%N -> (b <= 255)%N -> (c <= 255)%N -> (d <= 255)%N ->
      ip_string a b c d <> js "0.0.0.0" ->
      ip_string a b c d <> js "255.255.255.255" ->
      validate (ip_string a b c d) IP fieldName e st
      = (Return (ip_string a b c d), st))
  /\ (forall x : jsstring,
        canonicalize x = js "0.0.0.0"
        \/ canonicalize x = js "255.255.255.255"
        \/ ~ dotted_quad (canonicalize x) ->
        raises_SecurityException (validate x IP fieldName e) st).
Proof.
  split.
  - intros a b c d Ha Hb Hc Hd Hzero Hbroadcast.
    pose proof (ip_string_alphabet a b c d Ha Hb Hc Hd) as Halpha.
    pose proof (canonicalize_id _ (ip_alphabet_clean _ Halpha)) as Hcanon.
    rewrite <- Hcanon at 2.
    apply (validate_accepts (ip_string a b c d) IP).
    + rewrite Hcanon. unfold ip_string. intros E.
      apply (f_equal length) in E. rewrite !length_app in E. simpl in E. lia.
    + right. rewrite Hcanon. apply no_attack_in_ip_text, Halpha.
    + rewrite Hcanon. unfold schema_valid.
      rewrite (proj2 (test_IP_V4 _) (ip_string_dotted_quad a b c d Ha Hb Hc Hd)).
      unfold jsstring_eqb.
      rewrite !bool_decide_eq_false_2 by assumption. reflexivity.
  - intros x Hx. apply validate_schema_failure. unfold schema_valid.
    destruct (test PATTERNS.IP_V4 (canonicalize x)) eqn:Ht; [|reflexivity].
    destruct Hx as [-> | [-> | Hx]]; [reflexivity | reflexivity |].
    destruct Hx. apply test_IP_V4, Ht.
Qed.

Lemma C3_ip_amended_witness :
  validate (js "192.168.1.10") IP (js "Camera IP") (Simple.entropy 1)
    Simple.unlocked
  = (Return (js "192.168.1.10"), Simple.unlocked)
  /\ raises_SecurityException
       (validate (js " 0.0.0.0 ") IP (js "Camera IP") (Simple.entropy 1))
       Simple.unlocked
  /\ raises_SecurityException
       (validate (js "10.0.0") IP (js "Camera IP") (Simple.entropy 1))
       Simple.unlocked.
Proof.
  destruct (C3_ip_amended (js "Camera IP") (Simple.entropy 1) Simple.unlocked)
    as [Haccept Hreject].
  split; [|split].
  - apply (Haccept 192 168 1 10)%N; try lia; vm_compute; discriminate.
  - apply Hreject. left. vm_compute. reflexivity.
  - apply Hreject. right. right.
    intros Hq. apply test_IP_V4 in Hq. vm_compute in Hq. discriminate Hq.
Defined.

(** C3 as stated fails: a public-range address is accepted, and so is a
    string that is a dotted quad only after trimming. *)
Lemma C3_public_address_accepted :
  ~ raises (validate (js "8.8.8.8") IP (js "Camera IP") (Simple.entropy 1))
      Simple.unlocked
  /\ ~ raises (validate (js " 10.0.0.1 ") IP (js "Camera IP") (Simple.entropy 1))
        Simple.unlocked.
Proof.
  split; intros (exc & st' & H); apply (f_equal fst) in H; vm_compute in H;
    discriminate H.
Qed.

(* ===================================================================== *)
(** ** The attack signature scan *)
(* ===================================================================== *)

(** C4. An input whose canonical form contains one of the four attack
    strings is rejected with a [SecurityException] in every context other
    than PASSWORD; in the PASSWORD context the scan is skipped, and such an
    input is accepted when its canonical form is printable ASCII of length
    at least 8. *)
Theorem C4_attack_signatures {P : Platform}
    (x : jsstring) (context : ValidationContext) (fieldName : jsstring)
    (e : Entropy) (st : SecureStorage P) (sig : jsstring) :
  In sig attack_signatures -> contains (canonicalize x) sig ->
  (context <> PASSWORD ->
   validate x context fieldName e st
   = (Throw (SecurityException
               (js "Malicious Pattern Detected: " ++ context_name context)), st))
  /\ (Forall printable (canonicalize x) -> (8 <= length (canonicalize x))%nat ->
      validate x PASSWORD fieldName e st = (Return (canonicalize x), st)).
Proof.
  intros Hsig Hc. destruct (contains_nonempty _ _ Hsig Hc) as [Hne _]. split.
  - intros Hctx. apply validate_attack.
    + exact Hne.
    + destruct context; try reflexivity. congruence.
    + eapply signature_detected; eauto.
  - intros Hp Hlen. apply (validate_accepts x PASSWORD).
    + exact Hne.
    + left. reflexivity.
    + unfold schema_valid.
      rewrite (proj2 (test_anchored_plus false [(32, 126)%N] (canonicalize x))).
      * rewrite bool_decide_eq_true_2 by exact Hlen. reflexivity.
      * split; [exact Hne|]. revert Hp. apply List.Forall_impl.
        intros c Hcp. apply mem_range, Hcp.
Qed.

Lemma C4_attack_signatures_witness :
  validate (js " x; rm -rf / ") FILENAME (js "File") (Simple.entropy 1)
    Simple.unlocked
  = (Throw (SecurityException (js "Malicious Pattern Detected: FILENAME")),
     Simple.unlocked)
  /\ validate (js " x; rm -rf / ") PASSWORD (js "File") (Simple.entropy 1)
       Simple.unlocked
     = (Return (js "x; rm -rf /"), Simple.unlocked).
Proof.
  assert (Hin : In (js "; rm -rf") attack_signatures) by (simpl; tauto).
  assert (Hc : contains (canonicalize (js " x; rm -rf / ")) (js "; rm -rf"))
    by (exists (js "x"), (js " /"); vm_compute; reflexivity).
  split.
  - apply (C4_attack_signatures _ FILENAME _ _ _ _ Hin Hc). discriminate.
  - apply (C4_attack_signatures _ FILENAME _ _ _ _ Hin Hc).
    + vm_compute. repeat constructor; discriminate.
    + vm_compute. lia.
Defined.

(* ===================================================================== *)
(** ** Empty input *)
(* ===================================================================== *)

(** C10. An input whose canonical form is empty is rejected with a
    [SecurityException] in every context: by the empty check in the
    contexts other than SAFE_TEXT, and by the SAFE_TEXT pattern, which needs
    one character, in the SAFE_TEXT context. *)
Theorem C10_empty_rejected {P : Platform}
    (x : jsstring) (context : ValidationContext) (fieldName : jsstring)
    (e : Entropy) (st : SecureStorage P) :
  canonicalize x = [] ->
  raises_SecurityException (validate x context fieldName e) st.
Proof.
  intros Hc. destruct (is_SAFE_TEXT context) eqn:Hs.
  - apply validate_schema_failure. rewrite Hc.
    destruct context; try discriminate Hs. reflexivity.
  - eexists _, _. apply validate_empty; assumption.
Qed.

Lemma C10_empty_rejected_witness :
  canonicalize (js "   ") = []
  /\ raises_SecurityException
       (validate (js "   ") SAFE_TEXT (js "Description") (Simple.entropy 1))
       Simple.unlocked.
Proof.
  split; [vm_compute; reflexivity|].
  apply C10_empty_rejected. vm_compute. reflexivity.
Defined.

(* ===================================================================== *)
(** ** The projection of locks and tombstones *)
(* ===================================================================== *)

Lemma decorate_visible entries locks deletions :
  decorate entries locks deletions = List.map snd (visible entries locks deletions).
Proof.
  induction entries as [|[k item] rest IH]; simpl; [reflexivity|].
  destruct (set_has deletions (JNum k)); simpl; rewrite IH; reflexivity.
Qed.

Lemma visible_not_deleted entries locks deletions entry :
  In entry (visible entries locks deletions) ->
  set_has deletions (JNum (fst entry)) = false
  /\ In (fst entry) (List.map fst entries).
Proof.
  induction entries as [|[k item] rest IH]; simpl; [tauto|].
  destruct (set_has deletions (JNum k)) eqn:E.
  - intros H. destruct (IH H). auto.
  - intros [<- | H]; [auto|]. destruct (IH H). auto.
Qed.

Lemma visible_kept entries locks deletions k item :
  In (k, item) entries -> set_has deletions (JNum k) = false ->
  In (k, obj_set item (js "locked") (JBool (set_has locks (JNum k))))
     (visible entries locks deletions).
Proof.
  intros Hin Hd. induction entries as [|[k' item'] rest IH]; simpl in *; [tauto|].
  destruct Hin as [[= -> ->] | Hin].
  - rewrite Hd. left. reflexivity.
  - destruct (set_has deletions (JNum k')); [|right]; apply IH, Hin.
Qed.

Lemma map_set_in {A} (m : list (Z * A)) k v : In (k, v) (map_set m k v).
Proof.
  induction m as [|[k' v'] m IH]; simpl; [left; reflexivity|].
  destruct (k' =? k) eqn:E; [|right; exact IH].
  apply Z.eqb_eq in E. subst. left. reflexivity.
Qed.

Lemma map_set_keys {A} (m : list (Z * A)) k v k0 :
  In k0 (List.map fst (map_set m k v)) -> k0 = k \/ In k0 (List.map fst m).
Proof.
  induction m as [|[k' v'] m IH]; simpl.
  - intros [<- | []]. left. reflexivity.
  - destruct (k' =? k) eqn:E; simpl.
    + intros [<- | H]; [right; left; reflexivity | right; right; exact H].
    + intros [<- | H]; [right; left; reflexivity|].
      destruct (IH H); [left | right; right]; assumption.
Qed.

Lemma set_has_add_num (s : jsset) (i n : Z) :
  set_has (set_add s (JNum i)) (JNum n) = set_has s (JNum n) || (n =? i).
Proof.
  unfold set_add. destruct (set_has s (JNum i)) eqn:E.
  - destruct (n =? i) eqn:En; [|rewrite orb_false_r; reflexivity].
    apply Z.eqb_eq in En. subst n. rewrite E. reflexivity.
  - unfold set_has. rewrite existsb_app. simpl.
    rewrite orb_false_r. reflexivity.
Qed.

Lemma is_event_record (type type' : string) (i t : Z) (u : jsstring) (verb : string) :
  is_event (event_record type i t u verb) type'
  = jsstring_eqb (js type) (js type') && negb (i =? 0).
Proof. reflexivity. Qed.

Lemma replay_step_evidence (acc : Replay) (b : StorageBlock) (record : json) :
  is_evidence record = true ->
  replay_step acc b record
  = {| rawItems := map_set (rawItems acc) (index b) (item_of b record);
       locks := locks acc; deletions := deletions acc |}.
Proof.
  unfold is_evidence. destruct record; try discriminate.
  rewrite !andb_true_iff, !negb_true_iff. intros [[[_ H1] H2] H3].
  unfold replay_step. cbn [truthy]. rewrite H1, H2, H3. reflexivity.
Qed.

Section Projection.
Context {P : Platform} {L : PlatformLaws P}.
Implicit Types (st : SecureStorage P) (e : Entropy).

(** Appending a well-formed object extends the replay by the step for
    that object. *)
Lemma append_record (record : json) e st :
  ledger_inv st -> json_wf record = true ->
  (forall s, record <> JStr s) -> length (iv e) = 12%nat ->
  exists (b : StorageBlock) st',
    append record e st = (Return b, st')
    /\ ledger_inv st'
    /\ chain st' = chain st ++ [b]
    /\ index b = Z.of_nat (length (chain st))
    /\ (forall k blob, storage st !! k = Some blob -> storage st' !! k = Some blob)
    /\ view st' = replay_step (view st) b record.
Proof.
  intros Hinv Hwf Hstr Hiv.
  destruct (append_view record e st Hinv)
    as (key & b & st' & Happ & Hinv' & Hchain & Hidx & _ & _ & _ & Hk' & Hsto
        & Hkeep & Hview).
  exists b, st'. do 5 (split; [assumption|]).
  rewrite Hview. f_equal.
  apply (decrypted_stored st' key (index b) record e); try assumption.
  rewrite Hsto. apply lookup_insert_eq.
Qed.

Lemma is_evidence_wf (record : json) :
  is_evidence record = true ->
  json_wf record = true /\ forall s, record <> JStr s.
Proof.
  unfold is_evidence. destruct record; try discriminate.
  rewrite !andb_true_iff. intros [[[H _] _] _]. split; [exact H | discriminate].
Qed.

Lemma append_evidence (record : json) e st :
  ledger_inv st -> is_evidence record = true -> length (iv e) = 12%nat ->
  exists (b : StorageBlock) st',
    append record e st = (Return b, st')
    /\ ledger_inv st'
    /\ chain st' = chain st ++ [b]
    /\ index b = Z.of_nat (length (chain st))
    /\ rawItems (view st')
       = map_set (rawItems (view st)) (index b) (item_of b record)
    /\ locks (view st') = locks (view st)
    /\ deletions (view st') = deletions (view st).
Proof.
  intros Hinv Hev Hiv. destruct (is_evidence_wf record Hev) as [Hwf Hstr].
  destruct (append_record record e st Hinv Hwf Hstr Hiv)
    as (b & st' & Happ & Hinv' & Hchain & Hidx & _ & Hview).
  exists b, st'. rewrite Hview, replay_step_evidence by exact Hev.
  do 4 (split; [assumption|]). repeat split.
Qed.

(** The records of [lockItem], [unlockItem] and [deleteItem] with a
    target other than 0. *)
Lemma append_event (type verb : string) (i t : Z) (u : jsstring) e st :
  ledger_inv st -> length (iv e) = 12%nat ->
  exists (b : StorageBlock) st',
    append (event_record type i t u verb) e st = (Return b, st')
    /\ ledger_inv st'
    /\ chain st' = chain st ++ [b]
    /\ index b = Z.of_nat (length (chain st))
    /\ (forall k blob, storage st !! k = Some blob -> storage st' !! k = Some blob)
    /\ view st' = replay_step (view st) b (event_record type i t u verb).
Proof.
  intros Hinv Hiv. apply append_record; try assumption.
  - reflexivity.
  - discriminate.
Qed.

End Projection.

Lemma obj_get_set (o : obj) (k : jsstring) (v : json) :
  obj_get (obj_set o k v) k = Some v.
Proof.
  induction o as [|[k' v'] o IH]; simpl.
  - unfold jsstring_eqb. rewrite bool_decide_eq_true_2 by reflexivity. reflexivity.
  - destruct (jsstring_eqb k' k) eqn:E; simpl; rewrite E; [reflexivity | exact IH].
Qed.

(** The [locked] property of a projected item is the flag it was given. *)
Lemma locked_item_flag (b : StorageBlock) (content : json) (locked : bool) :
  obj_get (locked_item b content locked) (js "locked") = Some (JBool locked).
Proof. apply obj_get_set. Qed.

Lemma obj_get_set_other (o : obj) (k k' : jsstring) (v : json) :
  k <> k' -> obj_get (obj_set o k v) k' = obj_get o k'.
Proof.
  intros Hne. unfold jsstring_eqb.
  induction o as [|[k0 v0] o IH]; simpl.
  - unfold jsstring_eqb. rewrite bool_decide_eq_false_2 by exact Hne. reflexivity.
  - unfold jsstring_eqb. destruct (bool_decide (k0 = k)) eqn:E; simpl;
      unfold jsstring_eqb.
    + apply bool_decide_eq_true in E. subst k0.
      rewrite bool_decide_eq_false_2 by exact Hne. reflexivity.
    + rewrite IH. reflexivity.
Qed.

Lemma obj_get_snoc (o : obj) (k k' : jsstring) (v : json) :
  obj_get (o ++ [(k, v)]) k'
  = match obj_get o k' with
    | Some x => Some x
    | None => if jsstring_eqb k k' then Some v else None
    end.
Proof.
  induction o as [|[k0 v0] o IH]; simpl; [reflexivity|].
  destruct (jsstring_eqb k0 k'); [reflexivity | exact IH].
Qed.

(** After [Object.assign] a property has the value of the last source
    property of its name, or else the value it had. *)
Lemma obj_get_assign (fields : list (jsstring * json)) :
  forall (o : obj) (k : jsstring),
    obj_get (obj_assign o fields) k
    = match obj_get (rev fields) k with
      | Some v => Some v
      | None => obj_get o k
      end.
Proof.
  unfold obj_assign. induction fields as [|[k0 v0] fields IH]; intros o k.
  - reflexivity.
  - cbn [fold_left fst snd rev]. rewrite IH, obj_get_snoc.
    destruct (obj_get (rev fields) k); [reflexivity|].
    unfold jsstring_eqb. destruct (bool_decide (k0 = k)) eqn:E.
    + apply bool_decide_eq_true in E. subst k0. apply obj_get_set.
    + apply bool_decide_eq_false in E. apply obj_get_set_other, E.
Qed.

Lemma spread_own (base : obj) (content : json) :
  spread base content = obj_assign base (own_properties content).
Proof. destruct content; reflexivity. Qed.

(** Reading the item that the two loops of [getAllItems] build for a
    block. *)
Lemma locked_item_reads (b : StorageBlock) (content : json) (locked : bool) :
  reads_as (locked_item b content locked) b content locked.
Proof.
  split; [apply obj_get_set|].
  intros name Hname. unfold locked_item, item_of, own_property.
  rewrite obj_get_set_other by congruence.
  rewrite spread_own. apply obj_get_assign.
Qed.

Lemma replay_step_lock (acc : Replay) (b : StorageBlock) (i t : Z) (u : jsstring)
    (verb : string) :
  i <> 0 ->
  replay_step acc b (event_record "LOCK_EVIDENCE" i t u verb)
  = {| rawItems := map_set (rawItems acc) (index b)
                     (item_of b (event_record "LOCK_EVIDENCE" i t u verb));
       locks := set_add (locks acc) (JNum i);
       deletions := deletions acc |}.
Proof.
  intros Hi. unfold replay_step. rewrite !is_event_record.
  apply Z.eqb_neq in Hi. rewrite Hi. reflexivity.
Qed.

Lemma replay_step_unlock (acc : Replay) (b : StorageBlock) (i t : Z) (u : jsstring)
    (verb : string) :
  i <> 0 ->
  replay_step acc b (event_record "UNLOCK_EVIDENCE" i t u verb)
  = {| rawItems := map_set (rawItems acc) (index b)
                     (item_of b (event_record "UNLOCK_EVIDENCE" i t u verb));
       locks := set_delete (locks acc) (JNum i);
       deletions := deletions acc |}.
Proof.
  intros Hi. unfold replay_step. rewrite !is_event_record.
  apply Z.eqb_neq in Hi. rewrite Hi. reflexivity.
Qed.

Lemma replay_step_tombstone (acc : Replay) (b : StorageBlock) (i t : Z)
    (u : jsstring) (verb : string) :
  replay_step acc b (event_record "TOMBSTONE" i t u verb)
  = {| rawItems := map_set (rawItems acc) (index b)
                     (item_of b (event_record "TOMBSTONE" i t u verb));
       locks := locks acc;
       deletions := if i =? 0 then deletions acc
                    else set_add (deletions acc) (JNum i) |}.
Proof.
  unfold replay_step. rewrite !is_event_record.
  destruct (i =? 0); reflexivity.
Qed.

Lemma replay_step_keys (acc : Replay) (b : StorageBlock) (content : json) (k : Z) :
  In k (List.map fst (rawItems (replay_step acc b content))) ->
  k = index b \/ In k (List.map fst (rawItems acc)).
Proof.
  unfold replay_step.
  repeat match goal with
         | |- context [if ?c then _ else _] => destruct c
         end; cbn [rawItems]; try apply map_set_keys; auto.
Qed.

Lemma replayed_keys {P : Platform} (st : SecureStorage P)
    (blocks : list StorageBlock) (acc : Replay) (k : Z) :
  In k (List.map fst (rawItems (replayed st blocks acc))) ->
  In k (List.map index blocks) \/ In k (List.map fst (rawItems acc)).
Proof.
  revert acc. induction blocks as [|b blocks IH]; intros acc; simpl; [auto|].
  intros H. destruct (IH _ H) as [Hin | Hin]; [auto|].
  destruct (replay_step_keys _ _ _ _ Hin); auto.
Qed.

(** The items of the view are stored under indices of blocks after the
    genesis block. *)
Lemma view_keys {P : Platform} (st : SecureStorage P) (k : Z) :
  ledger_inv st ->
  In k (List.map fst (rawItems (view st))) ->
  1 <= k < Z.of_nat (length (chain st)).
Proof.
  intros (_ & [_ Hl] & _) Hk. unfold view in Hk.
  apply replayed_keys in Hk as [Hk | []].
  apply in_map_iff in Hk as (b & <- & Hb).
  apply list_elem_of_In, list_elem_of_lookup in Hb as [i Hi].
  rewrite lookup_drop in Hi. destruct (Hl _ _ Hi) as [-> _].
  apply lookup_lt_Some in Hi. lia.
Qed.

Lemma getAllItems_visible {P : Platform} (st : SecureStorage P) :
  getAllItems st = (Return (rev (List.map snd (visible_items st))), st).
Proof.
  rewrite getAllItems_unfold. unfold projection, visible_items.
  rewrite decorate_visible. reflexivity.
Qed.

(** C6. After three evidence records are appended at indices 1 to 3 and
    [lockItem 2 u] is called, [getAllItems] returns four items, newest
    first: the lock record as its own item, then items 3, 2 and 1, whose
    [locked] property reads false, true and false; after [unlockItem 2 u]
    it returns five items: the unlock record, the lock record and items 3,
    2 and 1, and [locked] reads false in all of them.  In every item the
    other properties read as those of the record and, where the record has
    none of that name, as [_blockIndex], [_blockHash] and [_timestamp] of
    the block. *)
Theorem C6_lock_projection {P : Platform} {L : PlatformLaws P}
    (masterKey : jsstring) (t0 : Z) (r1 r2 r3 : json)
    (e1 e2 e3 e4 e5 : Entropy) (u : jsstring) (t4 t5 : Z) :
  is_evidence r1 = true -> is_evidence r2 = true -> is_evidence r3 = true ->
  Forall (fun e => length (iv e) = 12%nat) [e1; e2; e3; e4; e5] ->
  let lock := event_record "LOCK_EVIDENCE" 2 t4 u "Evidence locked by " in
  let unlock := event_record "UNLOCK_EVIDENCE" 2 t5 u "Evidence unlocked by " in
  exists (b1 b2 b3 b4 b5 : StorageBlock) (st4 st5 : SecureStorage P)
         (i1 i2 i3 i4 j1 j2 j3 j4 j5 : obj),
    lock_scenario masterKey t0 r1 r2 r3 e1 e2 e3 e4 u t4 new_SecureStorage
    = (Return (b1, b2, b3), st4)
    /\ List.map index [b1; b2; b3; b4; b5] = [1; 2; 3; 4; 5]
    /\ list.last (chain st4) = Some b4
    /\ getAllItems st4 = (Return [i4; i3; i2; i1], st4)
    /\ reads_as i4 b4 lock false
    /\ reads_as i3 b3 r3 false
    /\ reads_as i2 b2 r2 true
    /\ reads_as i1 b1 r1 false
    /\ unlockItem 2 u t5 e5 st4 = (Return true, st5)
    /\ list.last (chain st5) = Some b5
    /\ getAllItems st5 = (Return [j5; j4; j3; j2; j1], st5)
    /\ reads_as j5 b5 unlock false
    /\ reads_as j4 b4 lock false
    /\ reads_as j3 b3 r3 false
    /\ reads_as j2 b2 r2 false
    /\ reads_as j1 b1 r1 false.
Proof.
  intros Hr1 Hr2 Hr3 Hiv lock unlock.
  inversion_clear Hiv as [|? ? Hiv1 Hiv']. inversion_clear Hiv' as [|? ? Hiv2 Hiv].
  inversion_clear Hiv as [|? ? Hiv3 Hiv']. inversion_clear Hiv' as [|? ? Hiv4 Hiv].
  inversion_clear Hiv as [|? ? Hiv5 _].
  pose proof (ledger_inv_initialize masterKey t0) as Hinv0.
  set (st0 := snd (initialize masterKey t0 new_SecureStorage)) in Hinv0.
  assert (Hlen0 : length (chain st0) = 1%nat) by reflexivity.
  assert (Hview0 : view st0 = empty_replay) by reflexivity.
  destruct (append_evidence r1 e1 st0 Hinv0 Hr1 Hiv1)
    as (b1 & st1 & H1 & Hinv1 & Hc1 & Hi1 & Hraw1 & Hlk1 & Hdl1).
  assert (Hlen1 : length (chain st1) = 2%nat)
    by (rewrite Hc1, length_app, Hlen0; reflexivity).
  destruct (append_evidence r2 e2 st1 Hinv1 Hr2 Hiv2)
    as (b2 & st2 & H2 & Hinv2 & Hc2 & Hi2 & Hraw2 & Hlk2 & Hdl2).
  assert (Hlen2 : length (chain st2) = 3%nat)
    by (rewrite Hc2, length_app, Hlen1; reflexivity).
  destruct (append_evidence r3 e3 st2 Hinv2 Hr3 Hiv3)
    as (b3 & st3 & H3 & Hinv3 & Hc3 & Hi3 & Hraw3 & Hlk3 & Hdl3).
  assert (Hlen3 : length (chain st3) = 4%nat)
    by (rewrite Hc3, length_app, Hlen2; reflexivity).
  destruct (append_event "LOCK_EVIDENCE" "Evidence locked by " 2 t4 u e4 st3
              Hinv3 Hiv4)
    as (b4 & st4 & H4 & Hinv4 & Hc4 & Hi4 & _ & Hview4).
  assert (Hlen4 : length (chain st4) = 5%nat)
    by (rewrite Hc4, length_app, Hlen3; reflexivity).
  destruct (append_event "UNLOCK_EVIDENCE" "Evidence unlocked by " 2 t5 u e5 st4
              Hinv4 Hiv5)
    as (b5 & st5 & H5 & Hinv5 & Hc5 & Hi5 & _ & Hview5).
  rewrite Hlen0 in Hi1. rewrite Hlen1 in Hi2. rewrite Hlen2 in Hi3.
  rewrite Hlen3 in Hi4. rewrite Hlen4 in Hi5.
  rewrite replay_step_lock in Hview4 by discriminate.
  rewrite replay_step_unlock in Hview5 by discriminate.
  rewrite Hview4 in Hview5. cbn [rawItems locks deletions] in Hview5.
  rewrite Hraw3, Hlk3, Hdl3, Hraw2, Hlk2, Hdl2, Hraw1, Hlk1, Hdl1, Hview0
    in Hview4, Hview5.
  rewrite Hi1, Hi2, Hi3, Hi4 in Hview4. rewrite Hi1, Hi2, Hi3, Hi4, Hi5 in Hview5.
  exists b1, b2, b3, b4, b5, st4, st5.
  exists (locked_item b1 r1 false), (locked_item b2 r2 true),
    (locked_item b3 r3 false), (locked_item b4 lock false).
  exists (locked_item b1 r1 false), (locked_item b2 r2 false),
    (locked_item b3 r3 false), (locked_item b4 lock false),
    (locked_item b5 unlock false).
  split.
  { unfold lock_scenario, bind.
    rewrite (surjective_pairing (initialize masterKey t0 new_SecureStorage)).
    change (fst (initialize masterKey t0 new_SecureStorage)) with (@Return bool true).
    fold st0. cbv iota. rewrite H1, H2, H3. unfold lockItem, bind.
    rewrite H4. reflexivity. }
  split; [cbn [List.map]; rewrite Hi1, Hi2, Hi3, Hi4, Hi5; reflexivity|].
  split; [rewrite Hc4; apply last_snoc|].
  split; [rewrite getAllItems_unfold, Hview4; reflexivity|].
  do 4 (split; [apply locked_item_reads|]).
  split; [unfold unlockItem, bind; rewrite H5; reflexivity|].
  split; [rewrite Hc5; apply last_snoc|].
  split; [rewrite getAllItems_unfold, Hview5; reflexivity|].
  do 4 (split; [apply locked_item_reads|]). apply locked_item_reads.
Qed.

Lemma C6_lock_projection_witness :
  is_evidence (snapshot "cam-1") = true
  /\ Forall (fun e => length (iv e) = 12%nat)
       [Simple.entropy 10; Simple.entropy 20; Simple.entropy 30;
        Simple.entropy 40; Simple.entropy 50]
  /\ exists (b1 b2 b3 : StorageBlock)
       (st4 st5 : SecureStorage Simple.platform)
       (i1 i2 i3 i4 j1 j2 j3 j4 j5 : obj),
       lock_scenario (js "correct horse") 1000
         (snapshot "cam-1") (snapshot "cam-2") (snapshot "cam-3")
         (Simple.entropy 10) (Simple.entropy 20) (Simple.entropy 30)
         (Simple.entropy 40) (js "u") 41 new_SecureStorage
       = (Return (b1, b2, b3), st4)
       /\ getAllItems st4 = (Return [i4; i3; i2; i1], st4)
       /\ obj_get i4 (js "type") = Some (JStr (js "LOCK_EVIDENCE"))
       /\ obj_get i3 (js "locked") = Some (JBool false)
       /\ obj_get i2 (js "locked") = Some (JBool true)
       /\ obj_get i2 (js "_blockIndex") = Some (JNum 2)
       /\ obj_get i2 (js "cameraId") = Some (JStr (js "cam-2"))
       /\ obj_get i1 (js "locked") = Some (JBool false)
       /\ unlockItem 2 (js "u") 51 (Simple.entropy 50) st4 = (Return true, st5)
       /\ getAllItems st5 = (Return [j5; j4; j3; j2; j1], st5)
       /\ obj_get j5 (js "type") = Some (JStr (js "UNLOCK_EVIDENCE"))
       /\ obj_get j4 (js "type") = Some (JStr (js "LOCK_EVIDENCE"))
       /\ obj_get j2 (js "locked") = Some (JBool false)
       /\ obj_get j2 (js "_blockIndex") = Some (JNum 2).
Proof.
  split; [reflexivity|].
  assert (Hiv : Forall (fun e => length (iv e) = 12%nat)
                  [Simple.entropy 10; Simple.entropy 20; Simple.entropy 30;
                   Simple.entropy 40; Simple.entropy 50])
    by (repeat constructor).
  split; [exact Hiv|].
  destruct (C6_lock_projection (js "correct horse") 1000
              (snapshot "cam-1") (snapshot "cam-2") (snapshot "cam-3")
              (Simple.entropy 10) (Simple.entropy 20) (Simple.entropy 30)
              (Simple.entropy 40) (Simple.entropy 50) (js "u") 41 51
              eq_refl eq_refl eq_refl Hiv)
    as (b1 & b2 & b3 & b4 & b5 & st4 & st5 & i1 & i2 & i3 & i4
        & j1 & j2 & j3 & j4 & j5
        & Hrun & Hidx & _ & Hall4 & [_ Hi4] & [Hi3 _] & [Hi2 Hi2'] & [Hi1 _]
        & Hunlock & _ & Hall5 & [_ Hj5] & [_ Hj4] & _ & [Hj2 Hj2'] & _).
  injection Hidx as _ Hb2 _ _ _.
  exists b1, b2, b3, st4, st5, i1, i2, i3, i4, j1, j2, j3, j4, j5.
  split; [exact Hrun|]. split; [exact Hall4|].
  split; [rewrite Hi4 by discriminate; reflexivity|].
  split; [exact Hi3|]. split; [exact Hi2|].
  split; [rewrite Hi2' by discriminate; cbn; rewrite Hb2; reflexivity|].
  split; [rewrite Hi2' by discriminate; reflexivity|].
  split; [exact Hi1|]. split; [exact Hunlock|]. split; [exact Hall5|].
  split; [rewrite Hj5 by discriminate; reflexivity|].
  split; [rewrite Hj4 by discriminate; reflexivity|].
  split; [exact Hj2|].
  rewrite Hj2' by discriminate. cbn. rewrite Hb2. reflexivity.
Defined.

(** C7, as the code has it.  After [deleteItem i u] on a reachable ledger
    the chain is the old chain with the tombstone block appended, every
    stored payload is still stored, and no item stored under index [i] is
    returned by [getAllItems].  When [i] is the index of an earlier block
    and no earlier tombstone names the index the tombstone block gets, the
    tombstone record is returned as its own item. *)
Theorem C7_tombstone_amended {P : Platform} {L : PlatformLaws P}
    (st : SecureStorage P) (i : Z) (u : jsstring) (t : Z) (e : Entropy) :
  reachable st -> length (iv e) = 12%nat ->
  let n := Z.of_nat (length (chain st)) in
  let tombstone := event_record "TOMBSTONE" i t u "Item deleted by " in
  exists (b : StorageBlock) (st' : SecureStorage P),
    deleteItem i u t e st = (Return true, st')
    /\ chain st' = chain st ++ [b] /\ index b = n
    /\ (forall k blob, storage st !! k = Some blob -> storage st' !! k = Some blob)
    /\ getAllItems st' = (Return (rev (List.map snd (visible_items st'))), st')
    /\ (forall entry, In entry (visible_items st') -> fst entry <> i)
    /\ (1 <= i < n -> set_has (deletions (view st)) (JNum n) = false ->
        In (n, locked_item b tombstone (set_has (locks (view st)) (JNum n)))
           (visible_items st')).
Proof.
  intros Hr Hiv n tombstone. subst n tombstone.
  pose proof (reachable_inv st Hr) as Hinv.
  destruct (append_event "TOMBSTONE" "Item deleted by " i t u e st Hinv Hiv)
    as (b & st' & Happ & Hinv' & Hchain & Hidx & Hkeep & Hview).
  rewrite replay_step_tombstone in Hview.
  exists b, st'.
  split; [unfold deleteItem, bind; rewrite Happ; reflexivity|].
  split; [exact Hchain|]. split; [exact Hidx|]. split; [exact Hkeep|].
  split; [apply getAllItems_visible|]. split.
  - intros entry Hin. unfold visible_items in Hin.
    apply visible_not_deleted in Hin as [Hdel Hkey].
    apply (view_keys st' _ Hinv') in Hkey.
    rewrite Hview in Hdel. cbn [deletions] in Hdel.
    destruct (i =? 0) eqn:Ei.
    + apply Z.eqb_eq in Ei. lia.
    + rewrite set_has_add_num in Hdel. apply orb_false_iff in Hdel as [_ Hne].
      apply Z.eqb_neq in Hne. exact Hne.
  - intros Hi Hfree. unfold visible_items. rewrite Hview.
    cbn [rawItems locks deletions]. rewrite Hidx. unfold locked_item.
    apply visible_kept.
    + apply map_set_in.
    + destruct (i =? 0); [exact Hfree|].
      rewrite set_has_add_num, Hfree. simpl. apply Z.eqb_neq. lia.
Qed.

Lemma C7_tombstone_amended_witness :
  reachable one_snapshot
  /\ length (iv (Simple.entropy 20)) = 12%nat
  /\ exists (b : StorageBlock) (st' : SecureStorage Simple.platform),
       deleteItem 1 (js "u") 21 (Simple.entropy 20) one_snapshot = (Return true, st')
       /\ index b = 2
       /\ (forall entry, In entry (visible_items st') -> fst entry <> 1)
       /\ In (2, locked_item b
                   (event_record "TOMBSTONE" 1 21 (js "u") "Item deleted by ") false)
             (visible_items st').
Proof.
  assert (Hr : reachable one_snapshot)
    by (apply reachable_after_append, reachable_initialize).
  split; [exact Hr|]. split; [reflexivity|].
  destruct (C7_tombstone_amended one_snapshot 1 (js "u") 21 (Simple.entropy 20)
              Hr eq_refl)
    as (b & st' & Hdel & _ & Hidx & _ & _ & Habsent & Hvisible).
  exists b, st'. split; [exact Hdel|]. split; [exact Hidx|].
  split; [exact Habsent|]. apply Hvisible; [split; [lia | reflexivity] | reflexivity].
Defined.

(** C7 as stated fails.  In [early_tombstone] the only item is the
    tombstone of block 1.  [deleteItem 1] deletes that item: its own
    tombstone is block 2, which the first tombstone names, so the
    projection is empty and the new tombstone is not visible.  Likewise
    [deleteItem 1] on the ledger that holds the genesis block only appends
    its tombstone as block 1, which hides itself. *)
Lemma C7_tombstone_hidden_by_earlier_tombstone :
  List.map (fun item => obj_get item (js "_blockIndex"))
    (projection (view early_tombstone)) = [Some (JNum 1)]
  /\ fst (deleteItem 1 (js "u") 21 (Simple.entropy 20) early_tombstone)
     = Return true
  /\ fst (getAllItems
            (snd (deleteItem 1 (js "u") 21 (Simple.entropy 20) early_tombstone)))
     = Return []
  /\ fst (getAllItems
            (snd (deleteItem 1 (js "u") 21 (Simple.entropy 20) Simple.unlocked)))
     = Return [].
Proof. repeat split; vm_compute; reflexivity. Qed.

(* ===================================================================== *)
(** ** Logging of violations *)
(* ===================================================================== *)

(** On the schema-failure path the rejection is recorded: on a reachable
    ledger the chain gains one block, and the block decrypts to the
    SECURITY_VIOLATION record with the masked payload. *)
Lemma schema_failure_is_recorded {P : Platform} {L : PlatformLaws P}
    (input : jsstring) (context : ValidationContext) (fieldName : jsstring)
    (e : Entropy) (st : SecureStorage P) :
  reachable st -> length (iv e) = 12%nat ->
  canonicalize input <> [] \/ context = SAFE_TEXT ->
  detectAttackVectors (canonicalize input) context st = (Return tt, st) ->
  schema_valid (canonicalize input) context = false ->
  exists (b : StorageBlock) (st' : SecureStorage P),
    validate input context fieldName e st
    = (Throw (SecurityException
                (js "Security Policy Violation: " ++ fieldName
                 ++ js " format is invalid or contains prohibited characters.")),
       st')
    /\ chain st' = chain st ++ [b]
    /\ decrypt (index b) st'
       = (Return (violation_record (canonicalize input) context fieldName), st')
    /\ prop (default JNull
               (prop (violation_record (canonicalize input) context fieldName)
                  (js "metadata")))
         (js "payload_fragment")
       = Some (JStr (maskedInput (canonicalize input) context)).
Proof.
  intros Hr Hiv Hne Hscan Hschema.
  pose proof (reachable_inv st Hr) as Hinv.
  destruct (append_view (violation_record (canonicalize input) context fieldName)
              e st Hinv)
    as (key & b & st' & Happ & _ & Hchain & _ & _ & _ & _ & Hk' & Hsto & _ & _).
  exists b, st'. split; [|split; [exact Hchain | split; [|reflexivity]]].
  - rewrite validate_unfold. cbv zeta.
    replace (bool_decide (canonicalize input = []) && negb (is_SAFE_TEXT context))
      with false.
    + rewrite Hscan, Hschema. unfold logViolation, try_catch, bind.
      rewrite Happ. reflexivity.
    + symmetry. destruct Hne as [Hne | ->].
      * rewrite (bool_decide_eq_false_2 _ Hne). reflexivity.
      * apply andb_false_r.
  - rewrite decrypt_unfold. do 2 f_equal.
    apply (decrypted_stored st' key (index b) _ e); try assumption.
    + rewrite Hsto. apply lookup_insert_eq.
    + destruct context; reflexivity.
    + discriminate.
Qed.

(** A failure of the logging is swallowed: without a key the [append] of
    [logViolation] throws, and [validate] still ends with its own
    [SecurityException] and the ledger as it was. *)
Lemma logging_failure_is_swallowed {P : Platform}
    (input : jsstring) (context : ValidationContext) (fieldName : jsstring)
    (e : Entropy) (st : SecureStorage P) :
  encryptionKey st = None ->
  detectAttackVectors (canonicalize input) context st = (Return tt, st) ->
  schema_valid (canonicalize input) context = false ->
  exists msg, validate input context fieldName e st
              = (Throw (SecurityException msg), st).
Proof.
  intros Hk Hscan Hschema. rewrite validate_unfold. cbv zeta.
  destruct (_ && _); [eauto|].
  rewrite Hscan, Hschema. unfold logViolation, try_catch, bind.
  rewrite append_unfold, Hk. eauto.
Qed.

(** C5 at an input that an attack pattern matches.  On the unlocked ledger
    [validate "a;b" SAFE_TEXT] throws from the scan and the ledger is the
    one before the call: nothing is recorded.  The input "a!b", which only
    fails the schema, is recorded: the chain has one more block and it
    decrypts to the SECURITY_VIOLATION record with the payload fragment. *)
Theorem C5_attack_match_not_logged :
  validate (js "a;b") SAFE_TEXT (js "Name") (Simple.entropy 5000) Simple.unlocked
  = (Throw (SecurityException (js "Malicious Pattern Detected: SAFE_TEXT")),
     Simple.unlocked)
  /\ exists (b : StorageBlock) (st' : SecureStorage Simple.platform),
       snd (validate (js "a!b") SAFE_TEXT (js "Name") (Simple.entropy 5000)
              Simple.unlocked) = st'
       /\ chain st' = chain Simple.unlocked ++ [b]
       /\ decrypt (index b) st'
          = (Return (violation_record (js "a!b") SAFE_TEXT (js "Name")), st').
Proof.
  split.
  - apply validate_attack; [vm_compute; discriminate | reflexivity |].
    vm_compute. reflexivity.
  - eexists _, _. split; [reflexivity|]. split.
    + rewrite (surjective_pairing (validate _ _ _ _ _)).
      vm_compute. reflexivity.
    + rewrite decrypt_unfold. reflexivity.
Qed.

(* ===================================================================== *)
(** ** Evaluations of the patterns *)
(* ===================================================================== *)

Example ip_private_matches : test PATTERNS.IP_V4 (js "192.168.1.10") = true.
Proof. vm_compute. reflexivity. Qed.

Example ip_octet_above_255_rejected : test PATTERNS.IP_V4 (js "256.1.1.1") = false.
Proof. vm_compute. reflexivity. Qed.

(** The pattern accepts an octet written with a leading zero. *)
Example leading_zero_octet_accepted :
  test PATTERNS.IP_V4 (js "192.168.01.1") = true
  /\ fst (validate (js "192.168.01.1") IP (js "Camera IP") (Simple.entropy 1)
            Simple.unlocked) = Return (js "192.168.01.1").
Proof. split; vm_compute; reflexivity. Qed.

Example sql_keywords_match :
  test (sql "UNION" "SELECT") (js "x union all Select y") = true.
Proof. vm_compute. reflexivity. Qed.

Example sql_keywords_need_word_boundaries :
  test (sql "UNION" "SELECT") (js "reunion selected") = false.
Proof. vm_compute. reflexivity. Qed.

Example master_key_matches :
  test PATTERNS.MASTER_KEY (js "A1B2-C3D4-E5F6-0789") = true.
Proof. vm_compute. reflexivity. Qed.

Example port_scenarios :
  fst (validate (js "8080") PORT (js "Port") (Simple.entropy 1) Simple.unlocked)
  = Return (js "8080")
  /\ raises_SecurityException
       (validate (js "70000") PORT (js "Port") (Simple.entropy 1)) Simple.unlocked
  /\ raises_SecurityException
       (validate (js "0") PORT (js "Port") (Simple.entropy 1)) Simple.unlocked.
Proof.
  split; [vm_compute; reflexivity|].
  split; apply validate_schema_failure; vm_compute; reflexivity.
Qed.

(** A long rejected value is logged as its first 50 characters and three
    dots; a password is logged as eight stars. *)
Example masked_payloads :
  maskedInput (js "0123456789012345678901234567890123456789012345678901234") FILENAME
  = js "01234567890123456789012345678901234567890123456789..."
  /\ maskedInput (js "hunter2") PASSWORD = js "********".
Proof. split; vm_compute; reflexivity. Qed.

(* ===================================================================== *)
(** ** The ledger is append-only *)
(* ===================================================================== *)

Lemma append_state {P : Platform} data e (st : SecureStorage P) :
  snd (append data e st) = st
  \/ exists key prevBlock,
       encryptionKey st = Some key
       /\ list.last (chain st) = Some prevBlock
       /\ snd (append data e st)
          = {| chain := chain st ++ [appended_block prevBlock data e];
               encryptionKey := encryptionKey st;
               storage := <[index prevBlock + 1 := stored_blob key data e]>
                            (storage st) |}.
Proof.
  rewrite append_unfold. destruct (encryptionKey st) as [key|] eqn:Ek;
    [|left; reflexivity].
  destruct (list.last (chain st)) as [prev|] eqn:El; [|left; reflexivity].
  right. exists key, prev. auto.
Qed.

(** Every operation ends in the state it started from, in the state of
    [initialize], or in the state of one [append]. *)
Lemma run_cases {P : Platform} (op : operation) (st : SecureStorage P) :
  run op st = st
  \/ (is_initialize op = true
      /\ exists masterKey date_now, run op st = snd (initialize masterKey date_now st))
  \/ (is_initialize op = false
      /\ exists data e, run op st = snd (append data e st)).
Proof.
  destruct op; cbn [run is_initialize].
  - right. left. eauto.
  - right. right. eauto.
  - left. rewrite decrypt_unfold. reflexivity.
  - right. right. split; [reflexivity|]. unfold lockItem.
    rewrite event_chain. eauto.
  - right. right. split; [reflexivity|]. unfold unlockItem.
    rewrite event_chain. eauto.
  - right. right. split; [reflexivity|]. unfold deleteItem.
    rewrite event_chain. eauto.
  - left. rewrite getAllItems_unfold. reflexivity.
  - left. reflexivity.
  - left. reflexivity.
  - destruct (validate_chain input context fieldName e st) as [-> | ->];
      [left; reflexivity | right; right; eauto].
Qed.

Lemma run_reachable {P : Platform} (op : operation) (st : SecureStorage P) :
  reachable st -> reachable (run op st).
Proof.
  intros Hr. destruct (run_cases op st) as [-> | [(_ & mk & t & ->) | (_ & d & e & ->)]].
  - exact Hr.
  - apply reachable_reinitialize, Hr.
  - apply reachable_after_append, Hr.
Qed.

Lemma run_all_reachable {P : Platform} (ops : list operation) (st : SecureStorage P) :
  reachable st -> reachable (run_all ops st).
Proof.
  revert st. induction ops as [|op ops IH]; intros st Hr; [exact Hr|].
  apply IH, run_reachable, Hr.
Qed.

Lemma run_chain_prefix {P : Platform} (op : operation) (st : SecureStorage P) :
  exists added, chain (run op st) = chain st ++ added.
Proof.
  destruct (run_cases op st) as [-> | [(_ & mk & t & ->) | (_ & d & e & ->)]].
  - exists []. rewrite app_nil_r. reflexivity.
  - rewrite initialize_unfold. cbn [snd chain].
    destruct (bool_decide _); [eexists; reflexivity|].
    exists []. rewrite app_nil_r. reflexivity.
  - destruct (append_chain d e st) as [-> | [b ->]].
    + exists []. rewrite app_nil_r. reflexivity.
    + eexists; reflexivity.
Qed.

(** X1. Whatever operations are run, in any state, the blocks already in
    the chain stay where they are and as they are: the new chain is the old
    chain followed by the blocks added. *)
Theorem chain_is_append_only {P : Platform} (ops : list operation)
    (st : SecureStorage P) :
  exists added : list StorageBlock,
    chain (run_all ops st) = chain st ++ added.
Proof.
  revert st. induction ops as [|op ops IH]; intros st.
  - exists []. rewrite app_nil_r. reflexivity.
  - cbn [run_all fold_left]. destruct (IH (run op st)) as [added2 H2].
    destruct (run_chain_prefix op st) as [added1 H1].
    exists (added1 ++ added2). unfold run_all in H2. rewrite H2, H1.
    rewrite app_assoc. reflexivity.
Qed.

Lemma run_storage_kept {P : Platform} (op : operation) (st : SecureStorage P)
    (k : Z) (blob : list N) :
  ledger_inv st -> storage st !! k = Some blob ->
  storage (run op st) !! k = Some blob.
Proof.
  intros (_ & Hl & Hs) Hk.
  destruct (run_cases op st) as [-> | [(_ & mk & t & ->) | (_ & d & e & ->)]].
  - exact Hk.
  - rewrite initialize_unfold. exact Hk.
  - destruct (append_state d e st) as [-> | (key & prev & _ & Hlast & ->)];
      [exact Hk|].
    cbn [storage]. rewrite lookup_insert_ne; [exact Hk|].
    destruct (chain_linked_last _ Hl) as (prev' & Hlast' & Hidx & _).
    rewrite Hlast in Hlast'. injection Hlast' as <-.
    specialize (Hs k (ex_intro _ blob Hk)). lia.
Qed.

(** X2. On a reachable ledger no operation overwrites or removes a stored
    payload: what is stored under an index stays stored under it. *)
Theorem payloads_are_kept {P : Platform} (ops : list operation)
    (st : SecureStorage P) (k : Z) (blob : list N) :
  reachable st -> storage st !! k = Some blob ->
  storage (run_all ops st) !! k = Some blob.
Proof.
  revert st. induction ops as [|op ops IH]; intros st Hr Hk; [exact Hk|].
  cbn [run_all fold_left]. apply IH; [apply run_reachable, Hr|].
  apply run_storage_kept; [apply reachable_inv, Hr | exact Hk].
Qed.

Lemma payloads_are_kept_witness :
  reachable two_records
  /\ (exists blob, storage two_records !! 1 = Some blob
        /\ storage (run_all [OpDeleteItem 1 (js "u") 5 (Simple.entropy 6);
                             OpInitialize (js "other") 7;
                             OpAppend (JStr (js "x")) (Simple.entropy 8)]
                      two_records) !! 1 = Some blob).
Proof.
  split; [exact two_records_reachable|].
  assert (H : is_Some (storage two_records !! 1)) by (vm_compute; eauto).
  destruct H as [blob H]. exists blob. split; [exact H|].
  exact (payloads_are_kept _ two_records 1 blob two_records_reachable H).
Defined.

(* ===================================================================== *)
(** ** What [decrypt] returns *)
(* ===================================================================== *)

Lemma run_key_kept {P : Platform} (op : operation) (st : SecureStorage P) :
  is_initialize op = false -> encryptionKey (run op st) = encryptionKey st.
Proof.
  intros Hop.
  destruct (run_cases op st) as [-> | [(Hi & _) | (_ & d & e & ->)]].
  - reflexivity.
  - congruence.
  - destruct (append_state d e st) as [-> | (key & prev & _ & _ & ->)];
      reflexivity.
Qed.

Lemma decrypted_kept {P : Platform} (ops : list operation)
    (st : SecureStorage P) (k : Z) (blob : list N) :
  reachable st -> forallb (fun op => negb (is_initialize op)) ops = true ->
  storage st !! k = Some blob ->
  decrypted (run_all ops st) k = decrypted st k.
Proof.
  revert st. induction ops as [|op ops IH]; intros st Hr Hops Hk; [reflexivity|].
  cbn [forallb] in Hops. apply andb_true_iff in Hops as [Hop Hops].
  apply negb_true_iff in Hop.
  cbn [run_all fold_left]. fold (run_all ops (run op st)).
  rewrite IH; [| apply run_reachable, Hr | exact Hops
               | apply run_storage_kept; [apply reachable_inv, Hr | exact Hk]].
  apply decrypted_same; [apply run_key_kept, Hop|].
  rewrite Hk. apply run_storage_kept; [apply reachable_inv, Hr | exact Hk].
Qed.

(** X3. Round trip of [append] and [decrypt].  On a reachable ledger a
    record given as an object is appended, [decrypt] of the index of the
    new block returns the record, and it still does after any further
    operations other than [initialize] (which may install another key). *)
Theorem decrypt_returns_the_appended_record
    {P : Platform} {L : PlatformLaws P}
    (record : json) (e : Entropy) (st : SecureStorage P)
    (ops : list operation) :
  reachable st -> json_wf record = true -> (forall s, record <> JStr s) ->
  length (iv e) = 12%nat ->
  forallb (fun op => negb (is_initialize op)) ops = true ->
  exists (b : StorageBlock) (st' : SecureStorage P),
    append record e st = (Return b, st')
    /\ index b = Z.of_nat (length (chain st))
    /\ decrypt (index b) st' = (Return record, st')
    /\ decrypt (index b) (run_all ops st') = (Return record, run_all ops st').
Proof.
  intros Hr Hwf Hstr Hiv Hops. pose proof (reachable_inv st Hr) as Hinv.
  destruct (append_view record e st Hinv)
    as (key & b & st' & Happ & _ & _ & Hidx & _ & _ & _ & Hk' & Hsto & _ & _).
  assert (Hb : storage st' !! index b = Some (stored_blob key record e))
    by (rewrite Hsto; apply lookup_insert_eq).
  assert (Hd : decrypted st' (index b) = record)
    by (apply (decrypted_stored st' key (index b) record e); assumption).
  exists b, st'. split; [exact Happ|]. split; [exact Hidx|].
  rewrite !decrypt_unfold. split; [rewrite Hd; reflexivity|].
  rewrite (decrypted_kept ops st' (index b) _ (reachable_append _ _ _ _ _ Hr Happ)
             Hops Hb), Hd.
  reflexivity.
Qed.

Lemma decrypt_returns_the_appended_record_witness :
  reachable two_records
  /\ exists (b : StorageBlock) (st' : SecureStorage Simple.platform),
       append (snapshot "cam-7") (Simple.entropy 70) two_records = (Return b, st')
       /\ index b = 3
       /\ decrypt 3 (run_all [OpDeleteItem 3 (js "u") 80 (Simple.entropy 81);
                              OpGetAllItems] st')
          = (Return (snapshot "cam-7"),
             run_all [OpDeleteItem 3 (js "u") 80 (Simple.entropy 81);
                      OpGetAllItems] st').
Proof.
  split; [exact two_records_reachable|].
  destruct (decrypt_returns_the_appended_record (snapshot "cam-7")
              (Simple.entropy 70) two_records
              [OpDeleteItem 3 (js "u") 80 (Simple.entropy 81); OpGetAllItems]
              two_records_reachable eq_refl ltac:(discriminate) eq_refl eq_refl)
    as (b & st' & Happ & Hidx & _ & Hlater).
  exists b, st'. split; [exact Happ|]. split; [exact Hidx|].
  rewrite Hidx in Hlater. exact Hlater.
Defined.

(** X4. On a reachable ledger [decrypt] returns [null] for every index that
    is not the index of an appended block: index 0 (the genesis block has
    no payload), negative indices and indices from the chain length on. *)
Theorem decrypt_unknown_index_is_null {P : Platform}
    (st : SecureStorage P) (k : Z) :
  reachable st -> k <= 0 \/ Z.of_nat (length (chain st)) <= k ->
  decrypt k st = (Return JNull, st).
Proof.
  intros Hr Hk. destruct (reachable_inv st Hr) as (_ & _ & Hs).
  rewrite decrypt_unfold. unfold decrypted.
  destruct (encryptionKey st); [|reflexivity].
  destruct (storage st !! k) as [blob|] eqn:E; [|reflexivity].
  specialize (Hs k (ex_intro _ blob E)). lia.
Qed.

Lemma decrypt_unknown_index_is_null_witness :
  reachable two_records
  /\ decrypt 0 two_records = (Return JNull, two_records)
  /\ decrypt 3 two_records = (Return JNull, two_records).
Proof.
  split; [exact two_records_reachable|]. split.
  - apply decrypt_unknown_index_is_null; [exact two_records_reachable | left; lia].
  - apply decrypt_unknown_index_is_null; [exact two_records_reachable|].
    right. vm_compute. discriminate.
Defined.

(* ===================================================================== *)
(** ** [initialize] *)
(* ===================================================================== *)

(** X5. On a reachable ledger a further [initialize] returns [true] and
    only installs the key derived from its passphrase: it adds no second
    genesis block, and the chain and the stored payloads are the ones
    before the call.  With the passphrase of the key in use it changes
    nothing at all. *)
Theorem reinitialize_keeps_the_ledger {P : Platform}
    (masterKey : jsstring) (t : Z) (st : SecureStorage P) :
  reachable st ->
  exists st1 : SecureStorage P,
    initialize masterKey t st = (Return true, st1)
    /\ chain st1 = chain st
    /\ storage st1 = storage st
    /\ encryptionKey st1
       = Some (pbkdf2 masterKey (js "KEYSIGHT_LOCAL_SALT") 100000)
    /\ (encryptionKey st
        = Some (pbkdf2 masterKey (js "KEYSIGHT_LOCAL_SALT") 100000) ->
        st1 = st).
Proof.
  intros Hr. destruct (reachable_inv st Hr) as (_ & Hl & _).
  destruct (chain_linked_last _ Hl) as (_ & _ & _ & Hlen).
  eexists. rewrite initialize_unfold.
  rewrite bool_decide_eq_false_2 by lia.
  split; [reflexivity|]. cbn [chain storage encryptionKey].
  split; [reflexivity|]. split; [reflexivity|]. split; [reflexivity|].
  intros Hk. destruct st as [c k s]. cbn in *. rewrite Hk. reflexivity.
Qed.

Lemma reinitialize_keeps_the_ledger_witness :
  reachable two_records
  /\ exists st1 : SecureStorage Simple.platform,
       initialize (js "correct horse") 9000 two_records = (Return true, st1)
       /\ st1 = two_records.
Proof.
  split; [exact two_records_reachable|].
  destruct (reinitialize_keeps_the_ledger (js "correct horse") 9000 two_records
              two_records_reachable) as (st1 & Hinit & _ & _ & _ & Hsame).
  exists st1. split; [exact Hinit|]. apply Hsame. reflexivity.
Defined.

(* ===================================================================== *)
(** ** [getStorageUsage] *)
(* ===================================================================== *)

Lemma getStorageUsage_unfold {P : Platform} (st : SecureStorage P) :
  getStorageUsage st = (Return (storage_usage st), st).
Proof. reflexivity. Qed.

Lemma storage_usage_insert {P : Platform} (st st' : SecureStorage P)
    (k : Z) (blob : list N) :
  storage st !! k = None -> storage st' = <[k := blob]> (storage st) ->
  storage_usage st' = storage_usage st + Z.of_nat (length blob).
Proof.
  intros Hk Hs. unfold storage_usage. rewrite Hs.
  rewrite map_fold_insert_L; [reflexivity | | exact Hk].
  intros. lia.
Qed.

(** X6. On a reachable ledger a successful [append] makes
    [getStorageUsage] larger by exactly the size of the stored blob: the
    nonce and the ciphertext of the serialised record. *)
Theorem storage_usage_grows_by_the_blob {P : Platform}
    (data : json) (e : Entropy) (st : SecureStorage P) :
  reachable st ->
  exists (key : Key) (b : StorageBlock) (st' : SecureStorage P),
    encryptionKey st = Some key
    /\ append data e st = (Return b, st')
    /\ getStorageUsage st' =
       (Return (storage_usage st
                + Z.of_nat (length (iv e)
                            + length (aes_gcm_encrypt key (iv e) (data_string data)))),
        st').
Proof.
  intros Hr. pose proof (reachable_inv st Hr) as Hinv.
  destruct (append_view data e st Hinv)
    as (key & b & st' & Happ & _ & _ & Hidx & _ & _ & Hk & _ & Hsto & _ & _).
  exists key, b, st'. split; [exact Hk|]. split; [exact Happ|].
  rewrite getStorageUsage_unfold. do 2 f_equal.
  rewrite (storage_usage_insert st st' (index b) (stored_blob key data e));
    [unfold stored_blob; rewrite length_app; reflexivity | | exact Hsto].
  destruct Hinv as (_ & _ & Hs).
  destruct (storage st !! index b) as [blob|] eqn:E; [|reflexivity].
  specialize (Hs _ (ex_intro _ blob E)). lia.
Qed.

Lemma storage_usage_grows_by_the_blob_witness :
  reachable Simple.unlocked
  /\ fst (getStorageUsage Simple.unlocked) = Return 0
  /\ fst (getStorageUsage
            (snd (append (JStr (js "abc")) (Simple.entropy 5) Simple.unlocked)))
     = Return 26.
Proof.
  assert (Hr : reachable Simple.unlocked) by apply reachable_initialize.
  split; [exact Hr|]. split; [reflexivity|].
  destruct (storage_usage_grows_by_the_blob (JStr (js "abc")) (Simple.entropy 5)
              Simple.unlocked Hr) as (key & b & st' & Hk & Happ & Hu).
  rewrite Happ. cbn [snd]. rewrite Hu. cbn [fst]. f_equal.
  injection Hk as <-. vm_compute. reflexivity.
Defined.

(* ===================================================================== *)
(** ** What the projection contains *)
(* ===================================================================== *)

Lemma map_set_fresh {A} (m : list (Z * A)) (k : Z) (v : A) :
  Forall (fun k' => k' < k) (List.map fst m) -> map_set m k v = m ++ [(k, v)].
Proof.
  induction m as [|[k' v'] m IH]; simpl; intros H; [reflexivity|].
  inversion H as [|? ? Hlt Hrest]; subst.
  rewrite (proj2 (Z.eqb_neq k' k)) by lia. rewrite IH by exact Hrest. reflexivity.
Qed.

Lemma replay_step_raw (acc : Replay) (b : StorageBlock) (content : json) :
  rawItems (replay_step acc b content)
  = if truthy content
    then map_set (rawItems acc) (index b) (item_of b content)
    else rawItems acc.
Proof.
  unfold replay_step. destruct (truthy content); [|reflexivity].
  repeat match goal with
         | |- context [if ?c then _ else _] => destruct c
         end; reflexivity.
Qed.

(** Replaying blocks whose indices count up from [base], above every index
    already stored, adds one entry per readable block, in order. *)
Lemma replayed_raw {P : Platform} (st : SecureStorage P)
    (blocks : list StorageBlock) :
  forall (base : Z) (acc : Replay),
    (forall (j : nat) b, blocks !! j = Some b -> index b = base + Z.of_nat j) ->
    Forall (fun k => k < base) (List.map fst (rawItems acc)) ->
    rawItems (replayed st blocks acc)
    = rawItems acc
      ++ List.map (fun b => (index b, item_of b (decrypted st (index b))))
           (List.filter (readable st) blocks).
Proof.
  induction blocks as [|b blocks IH]; intros base acc Hidx Hacc.
  - simpl. rewrite app_nil_r. reflexivity.
  - change (replayed st (b :: blocks) acc)
      with (replayed st blocks (replay_step acc b (decrypted st (index b)))).
    pose proof (Hidx 0%nat b eq_refl) as Hb. rewrite Z.add_0_r in Hb.
    rewrite (IH (base + 1)).
    + rewrite replay_step_raw. cbn [List.filter]. unfold readable at 2.
      destruct (truthy (decrypted st (index b))); [|reflexivity].
      rewrite map_set_fresh by (rewrite Hb; exact Hacc).
      rewrite <- app_assoc. reflexivity.
    + intros j x Hx. rewrite (Hidx (S j) x Hx). lia.
    + rewrite replay_step_raw. destruct (truthy _).
      * rewrite map_set_fresh by (rewrite Hb; exact Hacc).
        rewrite map_app. apply Forall_app. split.
        -- revert Hacc. apply List.Forall_impl. intros; lia.
        -- repeat constructor. simpl. lia.
      * revert Hacc. apply List.Forall_impl. intros; lia.
Qed.

Lemma visible_keys (entries : list (Z * obj)) (locks deletions : jsset) :
  List.map fst (visible entries locks deletions)
  = List.filter (fun k => negb (set_has deletions (JNum k))) (List.map fst entries).
Proof.
  induction entries as [|[k item] rest IH]; simpl; [reflexivity|].
  destruct (set_has deletions (JNum k)); simpl; rewrite IH; reflexivity.
Qed.

Lemma visible_entry (entries : list (Z * obj)) (locks deletions : jsset)
    (entry : Z * obj) :
  In entry (visible entries locks deletions) ->
  exists item, In (fst entry, item) entries
    /\ snd entry = obj_set item (js "locked")
                     (JBool (set_has locks (JNum (fst entry)))).
Proof.
  induction entries as [|[k item] rest IH]; simpl; [tauto|].
  destruct (set_has deletions (JNum k)).
  - intros H. destruct (IH H) as (it & Hin & Heq). eauto.
  - intros [<- | H].
    + exists item. simpl. auto.
    + destruct (IH H) as (it & Hin & Heq). eauto.
Qed.

(** The entries of the replay of a reachable ledger, block by block. *)
Lemma view_raw {P : Platform} (st : SecureStorage P) :
  reachable st ->
  rawItems (view st)
  = List.map (fun b => (index b, item_of b (decrypted st (index b))))
      (List.filter (readable st) (drop 1 (chain st))).
Proof.
  intros Hr. destruct (reachable_inv st Hr) as (_ & [_ Hl] & _).
  unfold view. rewrite (replayed_raw st _ 1 empty_replay); [reflexivity | | constructor].
  intros j b Hb. rewrite lookup_drop in Hb. destruct (Hl _ _ Hb) as [-> _]. lia.
Qed.

(** Every returned item is the item of a readable block after the genesis
    block, with the lock flag of its index. *)
Lemma visible_item_of_block {P : Platform} (st : SecureStorage P)
    (entry : Z * obj) :
  reachable st -> In entry (visible_items st) ->
  exists b, In b (drop 1 (chain st)) /\ index b = fst entry
    /\ readable st b = true
    /\ snd entry = locked_item b (decrypted st (index b))
                     (set_has (locks (view st)) (JNum (index b))).
Proof.
  intros Hr Hin. unfold visible_items in Hin.
  apply visible_entry in Hin as (item & Hin & Heq).
  rewrite (view_raw st Hr) in Hin. apply in_map_iff in Hin as (b & [= Hk <-] & Hb).
  apply filter_In in Hb as [Hb Hread].
  exists b. split; [exact Hb|]. split; [exact Hk|]. split; [exact Hread|].
  rewrite Heq, <- Hk. reflexivity.
Qed.

(** X7. On a reachable ledger [getAllItems] returns, newest first, exactly
    one item for every block after the genesis block whose payload decrypts
    to a truthy value and whose index no tombstone names.  In the item of a
    block [locked] reads as the lock flag of the block's index, and every
    other property reads as the one of the decrypted record or, where the
    record has none of that name, as [_blockIndex], [_blockHash] or
    [_timestamp] of the block. *)
Theorem projection_is_one_item_per_readable_block {P : Platform}
    (st : SecureStorage P) :
  reachable st ->
  getAllItems st = (Return (rev (List.map snd (visible_items st))), st)
  /\ List.map fst (visible_items st)
     = List.filter (fun k => negb (set_has (deletions (view st)) (JNum k)))
         (List.map index (List.filter (readable st) (drop 1 (chain st))))
  /\ forall entry, In entry (visible_items st) ->
       exists b, In b (drop 1 (chain st)) /\ index b = fst entry
         /\ reads_as (snd entry) b (decrypted st (index b))
              (set_has (locks (view st)) (JNum (index b))).
Proof.
  intros Hr. split; [apply getAllItems_visible|]. split.
  - unfold visible_items. rewrite visible_keys, (view_raw st Hr), List.map_map.
    reflexivity.
  - intros entry Hin.
    destruct (visible_item_of_block st entry Hr Hin) as (b & Hb & Hk & _ & Heq).
    exists b. split; [exact Hb|]. split; [exact Hk|].
    rewrite Heq. apply locked_item_reads.
Qed.

Lemma projection_is_one_item_per_readable_block_witness :
  reachable two_records
  /\ exists item : obj,
       getAllItems two_records = (Return [item], two_records)
       /\ obj_get item (js "_blockIndex") = Some (JNum 2)
       /\ obj_get item (js "type") = Some (JStr (js "VIDEO_CLIP"))
       /\ obj_get item (js "locked") = Some (JBool false).
Proof.
  split; [exact two_records_reachable|].
  destruct (projection_is_one_item_per_readable_block two_records
              two_records_reachable) as (Hall & Hkeys & Hitems).
  assert (Hk : List.map fst (visible_items two_records) = [2])
    by (rewrite Hkeys; vm_compute; reflexivity).
  destruct (visible_items two_records) as [|[k item] [|other rest]];
    try discriminate Hk.
  injection Hk as ->. exists item. split; [exact Hall|].
  destruct (Hitems (2, item) (or_introl eq_refl)) as (b & _ & Hb & Hlocked & Hread).
  cbn [fst snd] in Hb, Hlocked, Hread. rewrite Hb in Hlocked, Hread.
  split; [rewrite Hread by discriminate; cbn; rewrite Hb; reflexivity|].
  split; [rewrite Hread by discriminate; reflexivity|].
  exact Hlocked.
Defined.

(* ===================================================================== *)
(** ** Lock flags *)
(* ===================================================================== *)

Lemma set_has_delete_num (s : jsset) (i k : Z) :
  set_has (set_delete s (JNum i)) (JNum k) = set_has s (JNum k) && negb (k =? i).
Proof.
  unfold set_has, set_delete. induction s as [|x s IH]; [reflexivity|].
  cbn [List.filter existsb].
  destruct (same_value_zero (JNum i) x) eqn:Ei; cbn [negb existsb]; rewrite IH.
  - destruct x as [| | z | | |]; try discriminate. simpl in Ei.
    apply Z.eqb_eq in Ei. subst z.
    simpl. destruct (k =? i); [rewrite !andb_false_r|]; reflexivity.
  - destruct (same_value_zero (JNum k) x) eqn:Ek; [|reflexivity].
    destruct x as [| | z | | |]; try discriminate. simpl in Ei, Ek.
    apply Z.eqb_eq in Ek. subst z.
    rewrite Z.eqb_sym, Ei. reflexivity.
Qed.

Lemma visible_flag {P : Platform} (st : SecureStorage P) (entry : Z * obj) :
  In entry (visible_items st) ->
  obj_get (snd entry) (js "locked")
  = Some (JBool (set_has (locks (view st)) (JNum (fst entry)))).
Proof.
  intros Hin. apply visible_entry in Hin as (item & _ & ->). apply obj_get_set.
Qed.

(** X8. The most recent toggle wins, whatever came before.  On a reachable
    ledger, after [lockItem i] with [i] other than 0 every item that
    [getAllItems] returns for index [i] has [locked] true, after
    [unlockItem i] it has [locked] false, and in both cases the flag of
    every other index is the one it had. *)
Theorem last_toggle_wins {P : Platform} {L : PlatformLaws P}
    (st : SecureStorage P) (i : Z) (u : jsstring) (t : Z) (e : Entropy) :
  reachable st -> length (iv e) = 12%nat -> i <> 0 ->
  (exists st', lockItem i u t e st = (Return true, st')
     /\ getAllItems st' = (Return (rev (List.map snd (visible_items st'))), st')
     /\ (forall entry, In entry (visible_items st') -> fst entry = i ->
           obj_get (snd entry) (js "locked") = Some (JBool true))
     /\ (forall k, k <> i ->
           set_has (locks (view st')) (JNum k) = set_has (locks (view st)) (JNum k)))
  /\ (exists st', unlockItem i u t e st = (Return true, st')
        /\ getAllItems st'
           = (Return (rev (List.map snd (visible_items st'))), st')
        /\ (forall entry, In entry (visible_items st') -> fst entry = i ->
              obj_get (snd entry) (js "locked") = Some (JBool false))
        /\ (forall k, k <> i ->
              set_has (locks (view st')) (JNum k)
              = set_has (locks (view st)) (JNum k))).
Proof.
  intros Hr Hiv Hi. pose proof (reachable_inv st Hr) as Hinv. split.
  - destruct (append_event "LOCK_EVIDENCE" "Evidence locked by " i t u e st Hinv Hiv)
      as (b & st' & Happ & _ & _ & _ & _ & Hview).
    rewrite replay_step_lock in Hview by exact Hi.
    exists st'. split; [unfold lockItem, bind; rewrite Happ; reflexivity|].
    split; [apply getAllItems_visible|]. split.
    + intros entry Hin Hk. rewrite (visible_flag st' entry Hin), Hk, Hview.
      cbn [locks]. rewrite set_has_add_num, Z.eqb_refl, orb_true_r. reflexivity.
    + intros k Hk. rewrite Hview. cbn [locks]. rewrite set_has_add_num.
      rewrite (proj2 (Z.eqb_neq k i) Hk). apply orb_false_r.
  - destruct (append_event "UNLOCK_EVIDENCE" "Evidence unlocked by " i t u e st
                Hinv Hiv)
      as (b & st' & Happ & _ & _ & _ & _ & Hview).
    rewrite replay_step_unlock in Hview by exact Hi.
    exists st'. split; [unfold unlockItem, bind; rewrite Happ; reflexivity|].
    split; [apply getAllItems_visible|]. split.
    + intros entry Hin Hk. rewrite (visible_flag st' entry Hin), Hk, Hview.
      cbn [locks]. rewrite set_has_delete_num, Z.eqb_refl, andb_false_r.
      reflexivity.
    + intros k Hk. rewrite Hview. cbn [locks]. rewrite set_has_delete_num.
      rewrite (proj2 (Z.eqb_neq k i) Hk). apply andb_true_r.
Qed.

Lemma last_toggle_wins_witness :
  reachable one_snapshot
  /\ exists (st' : SecureStorage Simple.platform) (lock item : obj),
       lockItem 1 (js "u") 30 (Simple.entropy 31) one_snapshot
       = (Return true, st')
       /\ getAllItems st' = (Return [lock; item], st')
       /\ obj_get item (js "cameraId") = Some (JStr (js "cam-1"))
       /\ obj_get item (js "locked") = Some (JBool true).
Proof.
  assert (Hr : reachable one_snapshot)
    by (apply reachable_after_append, reachable_initialize).
  split; [exact Hr|].
  destruct (last_toggle_wins one_snapshot 1 (js "u") 30 (Simple.entropy 31)
              Hr eq_refl ltac:(discriminate))
    as [(st' & Hlock & Hall & Hflag & _) _].
  assert (Hst : st' = snd (lockItem 1 (js "u") 30 (Simple.entropy 31) one_snapshot))
    by (rewrite Hlock; reflexivity).
  assert (Hvis : exists item lock,
             visible_items st' = [(1, item); (2, lock)]
             /\ obj_get item (js "cameraId") = Some (JStr (js "cam-1"))).
  { rewrite Hst. vm_compute. eexists _, _. split; reflexivity. }
  destruct Hvis as (item & lock & Hvis & Hcam).
  exists st', lock, item. split; [exact Hlock|].
  split; [rewrite Hall, Hvis; reflexivity|]. split; [exact Hcam|].
  apply (Hflag (1, item)); [rewrite Hvis; left; reflexivity | reflexivity].
Defined.

Lemma replay_step_zero_target (acc : Replay) (b : StorageBlock) (type verb : string)
    (t : Z) (u : jsstring) :
  replay_step acc b (event_record type 0 t u verb)
  = {| rawItems := map_set (rawItems acc) (index b)
                     (item_of b (event_record type 0 t u verb));
       locks := locks acc; deletions := deletions acc |}.
Proof.
  unfold replay_step. rewrite !is_event_record. cbn [Z.eqb negb].
  rewrite !andb_false_r. reflexivity.
Qed.

(** X9. Target index 0 is read as no target: on a reachable ledger
    [lockItem 0], [unlockItem 0] and [deleteItem 0] append their record,
    which is returned as an ordinary item, and change neither the set of
    locked indices nor the set of deleted indices. *)
Theorem zero_target_changes_no_flag {P : Platform} {L : PlatformLaws P}
    (st : SecureStorage P) (u : jsstring) (t : Z) (e : Entropy) :
  reachable st -> length (iv e) = 12%nat ->
  forall m : M P bool,
    m = lockItem 0 u t e \/ m = unlockItem 0 u t e \/ m = deleteItem 0 u t e ->
    exists st', m st = (Return true, st')
      /\ locks (view st') = locks (view st)
      /\ deletions (view st') = deletions (view st)
      /\ List.map fst (rawItems (view st'))
         = List.map fst (rawItems (view st)) ++ [Z.of_nat (length (chain st))].
Proof.
  intros Hr Hiv m Hm. pose proof (reachable_inv st Hr) as Hinv.
  assert (Hfresh : Forall (fun k => k < Z.of_nat (length (chain st)))
                     (List.map fst (rawItems (view st)))).
  { apply Forall_forall. intros k Hk. apply (view_keys st k Hinv) in Hk. lia. }
  assert (Hgen : forall type verb,
             exists st', (let! _ := append (event_record type 0 t u verb) e in
                          ret true) st = (Return true, st')
               /\ locks (view st') = locks (view st)
               /\ deletions (view st') = deletions (view st)
               /\ List.map fst (rawItems (view st'))
                  = List.map fst (rawItems (view st))
                    ++ [Z.of_nat (length (chain st))]).
  { intros type verb.
    destruct (append_event type verb 0 t u e st Hinv Hiv)
      as (b & st' & Happ & _ & _ & Hidx & _ & Hview).
    rewrite replay_step_zero_target in Hview.
    exists st'. split; [unfold bind; rewrite Happ; reflexivity|].
    rewrite Hview. cbn [locks deletions rawItems].
    split; [reflexivity|]. split; [reflexivity|].
    rewrite map_set_fresh by (rewrite Hidx; exact Hfresh).
    rewrite map_app, Hidx. reflexivity. }
  destruct Hm as [-> | [-> | ->]]; apply Hgen.
Qed.

Lemma zero_target_changes_no_flag_witness :
  reachable one_snapshot
  /\ exists st', deleteItem 0 (js "u") 30 (Simple.entropy 31) one_snapshot
                 = (Return true, st')
       /\ deletions (view st') = deletions (view one_snapshot)
       /\ List.map fst (rawItems (view st')) = [1; 2].
Proof.
  assert (Hr : reachable one_snapshot)
    by (apply reachable_after_append, reachable_initialize).
  split; [exact Hr|].
  destruct (zero_target_changes_no_flag one_snapshot (js "u") 30 (Simple.entropy 31)
              Hr eq_refl (deleteItem 0 (js "u") 30 (Simple.entropy 31))
              (or_intror (or_intror eq_refl)))
    as (st' & Hdel & _ & Hd & Hkeys).
  exists st'. split; [exact Hdel|]. split; [exact Hd|].
  rewrite Hkeys. vm_compute. reflexivity.
Defined.

(* ===================================================================== *)
(** ** What the validator accepts *)
(* ===================================================================== *)

Lemma validate_returns {P : Platform} input context fieldName e
    (st st' : SecureStorage P) (v : jsstring) :
  validate input context fieldName e st = (Return v, st') ->
  st' = st
  /\ canonicalize input <> []
  /\ schema_valid (canonicalize input) context = true
  /\ (context = PASSWORD \/ attack_found (canonicalize input) = false)
  /\ v = validated context (canonicalize input).
Proof.
  rewrite validate_unfold. cbv zeta.
  destruct (bool_decide (canonicalize input = []) && negb (is_SAFE_TEXT context))
    eqn:Hempty; [discriminate|].
  unfold detectAttackVectors, attack_found.
  destruct (is_PASSWORD context) eqn:Hp.
  - cbv [ret]. destruct (schema_valid _ _) eqn:Hs.
    + intros [= <- <-]. destruct context; try discriminate.
      rewrite andb_true_r in Hempty. apply bool_decide_eq_false in Hempty.
      repeat split; auto.
    + destruct (logViolation_returns (canonicalize input) context fieldName e st)
        as [st2 ->]. discriminate.
  - destruct (existsb _ ATTACK_VECTORS) eqn:Ha; [discriminate|].
    cbv [ret]. destruct (schema_valid _ _) eqn:Hs.
    + intros [= <- <-]. split; [reflexivity|]. split.
      * destruct context; simpl in Hempty;
          rewrite ?andb_true_r in Hempty;
          try (apply bool_decide_eq_false in Hempty; exact Hempty).
        simpl in Hs. apply test_anchored_plus in Hs. tauto.
      * split; [reflexivity|]. split; [auto|]. destruct context; reflexivity.
    + destruct (logViolation_returns (canonicalize input) context fieldName e st)
        as [st2 ->]. discriminate.
Qed.

Lemma validate_throws {P : Platform} input context fieldName e
    (st st' : SecureStorage P) (exc : exn) :
  validate input context fieldName e st = (Throw exc, st') ->
  (exists msg, exc = SecurityException msg)
  /\ (st' = st
      \/ exists b,
           append (violation_record (canonicalize input) context fieldName) e st
           = (Return b, st')).
Proof.
  rewrite validate_unfold. cbv zeta.
  destruct (bool_decide (canonicalize input = []) && negb (is_SAFE_TEXT context)).
  { intros [= <- <-]. eauto. }
  destruct (detectAttackVectors_cases (canonicalize input) context st) as [-> | ->].
  - destruct (schema_valid _ _); [discriminate|].
    unfold logViolation, try_catch, bind.
    destruct (append _ e st) as [[b | err] st2] eqn:Happ; cbv [ret].
    + intros [= <- <-]. eauto.
    + intros [= <- <-]. split; [eauto|]. left.
      rewrite append_unfold in Happ.
      destruct (encryptionKey st); [|congruence].
      destruct (list.last (chain st)); congruence.
  - intros [= <- <-]. eauto.
Qed.

(** X10. However [validate] ends, it ends in one of two ways.  When it
    returns, the ledger is the one before the call, the canonical form is
    not empty, passes the schema of the context and (outside PASSWORD)
    matches no attack pattern, and the value returned is the canonical
    form, upper-cased for MASTER_KEY and SERIAL.  When it throws, the
    exception is a [SecurityException], and the ledger is either unchanged
    or the one left by the one [append] of the violation record. *)
Theorem validate_verdict {P : Platform} (input : jsstring)
    (context : ValidationContext) (fieldName : jsstring) (e : Entropy)
    (st : SecureStorage P) :
  match validate input context fieldName e st with
  | (Return v, st') =>
      st' = st
      /\ canonicalize input <> []
      /\ schema_valid (canonicalize input) context = true
      /\ (context = PASSWORD \/ attack_found (canonicalize input) = false)
      /\ v = validated context (canonicalize input)
  | (Throw exc, st') =>
      (exists msg, exc = SecurityException msg)
      /\ (st' = st
          \/ exists b,
               append (violation_record (canonicalize input) context fieldName)
                 e st = (Return b, st'))
  end.
Proof.
  destruct (validate input context fieldName e st) as [[v | exc] st'] eqn:Hv.
  - eapply validate_returns, Hv.
  - eapply validate_throws, Hv.
Qed.

(** *** The patterns, read as sets of strings *)

Lemma test_class (rs : list (N * N)) (s : jsstring) :
  test (anchored (plus false rs)) s = true <-> s <> [] /\ over rs s.
Proof. exact (test_anchored_plus false rs s). Qed.

Lemma rmatch_chr (c : N) prev s k :
  rmatch (chr c) prev s k = true
  <-> exists rest, s = c :: rest /\ k (Some c) rest = true.
Proof.
  unfold chr. cbn [rmatch]. split.
  - intros H. bool_hyps. assert (n = c) by lia. subst. eauto.
  - intros (rest & -> & H). both; [apply mem_range; lia | exact H].
Qed.

Lemma rmatch_hex4 prev s k :
  rmatch PATTERNS.hex4 prev s k = true
  <-> exists g rest, s = g ++ rest /\ is_hex4 g = true
                     /\ k (list.last g) rest = true.
Proof.
  unfold PATTERNS.hex4. cbn [repeat_re rmatch]. split.
  - intros H. bool_hyps.
    match goal with
    | Hk : k (Some ?d) ?rest = true |- _ =>
        eexists [_; _; _; d], rest; split; [reflexivity|]; split; [|exact Hk]
    end.
    unfold is_hex4. cbn [length forallb]. unfold mem in *. cbn [xorb] in *.
    rewrite bool_decide_eq_true_2 by reflexivity.
    repeat match goal with Hm : in_ranges _ _ = true |- _ => rewrite Hm; clear Hm end.
    reflexivity.
  - intros (g & rest & -> & Hg & Hk). unfold is_hex4 in Hg.
    apply andb_true_iff in Hg as [Hl Hg]. apply bool_decide_eq_true in Hl.
    destruct g as [|a [|b [|c [|d [|x g]]]]]; try discriminate.
    cbn [forallb] in Hg. rewrite !andb_true_iff in Hg.
    destruct Hg as (Ha & Hb & Hc & Hd & _).
    cbn [app]. unfold mem. cbn [xorb]. rewrite Ha, Hb, Hc, Hd. exact Hk.
Qed.

Lemma test_MASTER_KEY (v : jsstring) :
  test PATTERNS.MASTER_KEY v = true <-> key_groups v.
Proof.
  unfold PATTERNS.MASTER_KEY. rewrite test_anchored. cbn [rmatch]. split.
  - intros H.
    apply rmatch_hex4 in H as (g1 & r1 & -> & Hg1 & H).
    apply rmatch_chr in H as (r2 & -> & H).
    apply rmatch_hex4 in H as (g2 & r3 & -> & Hg2 & H).
    apply rmatch_chr in H as (r4 & -> & H).
    apply rmatch_hex4 in H as (g3 & r5 & -> & Hg3 & H).
    apply rmatch_chr in H as (r6 & -> & H).
    apply rmatch_hex4 in H as (g4 & r7 & -> & Hg4 & H).
    unfold at_end in H. apply bool_decide_eq_true in H. subst r7.
    exists g1, g2, g3, g4. rewrite app_nil_r. auto.
  - intros (g1 & g2 & g3 & g4 & -> & Hg1 & Hg2 & Hg3 & Hg4).
    apply rmatch_hex4. eexists g1, _. split; [reflexivity|]. split; [assumption|].
    apply rmatch_chr. eexists. split; [reflexivity|].
    apply rmatch_hex4. eexists g2, _. split; [reflexivity|]. split; [assumption|].
    apply rmatch_chr. eexists. split; [reflexivity|].
    apply rmatch_hex4. eexists g3, _. split; [reflexivity|]. split; [assumption|].
    apply rmatch_chr. eexists. split; [reflexivity|].
    apply rmatch_hex4. exists g4, []. rewrite app_nil_r. auto.
Qed.

(** The schema of each context accepts the well-formed strings of the
    context and no others. *)
Lemma schema_valid_iff {P : Platform} (context : ValidationContext)
    (c : jsstring) :
  schema_valid c context = true <-> well_formed context (validated context c).
Proof.
  destruct context; cbn [schema_valid well_formed validated].
  - destruct (test PATTERNS.IP_V4 c) eqn:Ht.
    + apply test_IP_V4 in Ht. unfold jsstring_eqb.
      rewrite negb_true_iff, orb_false_iff, !bool_decide_eq_false. tauto.
    + split; [discriminate|]. intros [Hq _]. apply test_IP_V4 in Hq. congruence.
  - destruct (test PATTERNS.PORT c) eqn:Ht.
    + apply test_class in Ht. rewrite andb_true_iff, Z.ltb_lt, Z.leb_le.
      intuition lia.
    + split; [discriminate|]. intros (Hne & Hd & _).
      assert (test PATTERNS.PORT c = true) by (apply test_class; auto).
      congruence.
  - apply test_class.
  - rewrite andb_true_iff, negb_true_iff, bool_decide_eq_false.
    unfold PATTERNS.FILENAME. rewrite test_class. intuition lia.
  - apply test_MASTER_KEY.
  - apply test_class.
  - rewrite andb_true_iff, bool_decide_eq_true. unfold PRINTABLE.
    rewrite test_class. split; [tauto|]. intros [Ho Hl].
    split; [|exact Hl]. split; [|exact Ho].
    destruct c; simpl in Hl; [lia | discriminate].
Qed.

(** X11. [validate] returns exactly for the inputs whose canonical form is
    not empty, is (after upper-casing for MASTER_KEY and SERIAL) a
    well-formed string of the context, and, outside PASSWORD, matches no
    attack pattern; it then returns that string and leaves the ledger
    alone. *)
Theorem validate_accepts_the_well_formed {P : Platform} (input : jsstring)
    (context : ValidationContext) (fieldName : jsstring) (e : Entropy)
    (st : SecureStorage P) :
  validate input context fieldName e st
  = (Return (validated context (canonicalize input)), st)
  <-> canonicalize input <> []
      /\ well_formed context (validated context (canonicalize input))
      /\ (context = PASSWORD \/ attack_found (canonicalize input) = false).
Proof.
  split.
  - intros H. apply validate_returns in H as (_ & Hne & Hs & Ha & _).
    apply schema_valid_iff in Hs. auto.
  - intros (Hne & Hw & Ha). apply schema_valid_iff in Hw.
    rewrite (validate_accepts input context fieldName e st Hne); [| |exact Hw].
    + destruct context; reflexivity.
    + destruct Ha as [-> | Ha]; [left; reflexivity | right; exact Ha].
Qed.

Lemma validate_accepts_the_well_formed_witness :
  validate (js " abcd-1234-ef00-9999 ") MASTER_KEY (js "Key") (Simple.entropy 5)
    Simple.unlocked
  = (Return (js "ABCD-1234-EF00-9999"), Simple.unlocked).
Proof.
  apply (proj2 (validate_accepts_the_well_formed (js " abcd-1234-ef00-9999 ")
                  MASTER_KEY (js "Key") (Simple.entropy 5) Simple.unlocked)).
  split; [discriminate|]. split; [|right; reflexivity].
  exists (js "ABCD"), (js "1234"), (js "EF00"), (js "9999").
  repeat split; reflexivity.
Defined.

(** *** Contexts whose strings no attack pattern matches *)

Lemma in_units (rs : list (N * N)) (c : N) :
  in_ranges rs c = true -> In c (units rs).
Proof.
  unfold in_ranges, units. intros H.
  apply existsb_exists in H as (r & Hr & Hc).
  apply andb_true_iff in Hc as [Hlo Hhi]. apply N.leb_le in Hlo, Hhi.
  apply in_flat_map. exists r. split; [exact Hr|].
  apply in_map_iff. exists (N.to_nat c). split; [apply N2Nat.id|].
  apply in_seq. lia.
Qed.

Lemma over_units (rs : list (N * N)) (s : jsstring) :
  over rs s -> Forall (fun c => In c (units rs)) s.
Proof. apply List.Forall_impl. intros c. apply in_units. Qed.

Lemma over_app (rs : list (N * N)) (a b : jsstring) :
  over rs (a ++ b) <-> over rs a /\ over rs b.
Proof. apply Forall_app. Qed.

Lemma is_octet_digits (o : jsstring) : is_octet o = true -> over digit o.
Proof.
  unfold is_octet. rewrite !andb_true_iff, forallb_forall.
  intros [[H _] _]. apply Forall_forall. exact H.
Qed.

Lemma ip_units_alphabet (s : jsstring) :
  over [ (48, 57); (46, 46) ]%N s -> Forall (fun c => In c ip_alphabet) s.
Proof.
  intros H. apply over_units in H. revert H. apply List.Forall_impl.
  intros c Hc.
  assert (A : forallb (fun c => existsb (N.eqb c) ip_alphabet)
                (units [ (48, 57); (46, 46) ]%N) = true)
    by (vm_compute; reflexivity).
  rewrite forallb_forall in A. specialize (A c Hc).
  apply existsb_exists in A as (c' & Hin & Heq).
  apply N.eqb_eq in Heq. subst c'. exact Hin.
Qed.

Lemma over_weaken (rs rs' : list (N * N)) (s : jsstring) :
  (forall c, in_ranges rs c = true -> in_ranges rs' c = true) ->
  over rs s -> over rs' s.
Proof. intros Hsub. apply List.Forall_impl. exact Hsub. Qed.

Lemma digits_ip_text (s : jsstring) :
  over digit s -> over [ (48, 57); (46, 46) ]%N s.
Proof.
  apply over_weaken. intros c. unfold digit, in_ranges. simpl.
  intros H. rewrite orb_false_r in H. rewrite H. reflexivity.
Qed.

Lemma dotted_quad_ip_text (s : jsstring) :
  dotted_quad s -> over [ (48, 57); (46, 46) ]%N s.
Proof.
  intros (o1 & o2 & o3 & o4 & -> & H1 & H2 & H3 & H4).
  assert (Hdot : over [ (48, 57); (46, 46) ]%N (js "."))
    by (repeat constructor).
  repeat (apply over_app; split); try exact Hdot;
    apply digits_ip_text, is_octet_digits; assumption.
Qed.

Lemma well_formed_nonempty (context : ValidationContext) (v : jsstring) :
  well_formed context v -> v <> [].
Proof.
  destruct context; cbn [well_formed]; try tauto.
  - intros [(o1 & o2 & o3 & o4 & -> & H1 & _) _].
    unfold is_octet in H1. rewrite !andb_true_iff, bool_decide_eq_true in H1.
    destruct o1; simpl in *; [lia | discriminate].
  - intros (g1 & g2 & g3 & g4 & -> & H1 & _). unfold is_hex4 in H1.
    rewrite andb_true_iff, bool_decide_eq_true in H1.
    destruct g1; simpl in *; [lia | discriminate].
  - intros [_ Hl]. destruct v; simpl in *; [lia | discriminate].
Qed.

(** X12. For IP, PORT and PASSWORD the attack scan decides nothing: no
    pattern matches a dotted quad or a string of digits, and passwords are
    not scanned.  [validate] returns the canonical form exactly when it is
    a dotted quad of octets up to 255 (leading zeros included) other than
    0.0.0.0 and 255.255.255.255, a string of digits of value 1 to 65535,
    or at least eight printable ASCII characters. *)
Theorem scan_free_contexts {P : Platform} (input fieldName : jsstring)
    (e : Entropy) (st : SecureStorage P) :
  let c := canonicalize input in
  (validate input IP fieldName e st = (Return c, st)
   <-> dotted_quad c /\ c <> js "0.0.0.0" /\ c <> js "255.255.255.255")
  /\ (validate input PORT fieldName e st = (Return c, st)
      <-> c <> [] /\ over digit c /\ 1 <= parseInt c <= 65535)
  /\ (validate input PASSWORD fieldName e st = (Return c, st)
      <-> over [ (32, 126)%N ] c /\ (8 <= length c)%nat).
Proof.
  intros c.
  assert (Hback : forall context,
             validate input context fieldName e st = (Return c, st) ->
             validated context c = c -> well_formed context c).
  { intros context H Hv. apply validate_returns in H as (_ & _ & Hs & _ & _).
    apply schema_valid_iff in Hs.
    change (well_formed context (validated context c)) in Hs.
    rewrite Hv in Hs. exact Hs. }
  assert (Hforth : forall context,
             validated context c = c -> well_formed context c ->
             context = PASSWORD \/ attack_found c = false ->
             validate input context fieldName e st = (Return c, st)).
  { intros context Hv Hw Ha.
    rewrite <- Hv in Hw. apply schema_valid_iff in Hw.
    rewrite (validate_accepts input context fieldName e st); [| | |exact Hw].
    - change ((Return (validated context c), st) = (Return c, st)).
      rewrite Hv. reflexivity.
    - apply schema_valid_iff in Hw. rewrite Hv in Hw.
      exact (well_formed_nonempty _ _ Hw).
    - destruct Ha as [-> | Ha]; [left; reflexivity | right; exact Ha]. }
  split; [|split]; (split; [intros H; apply (Hback _ H eq_refl) | intros Hw]).
  - apply Hforth; [reflexivity | exact Hw |]. right.
    apply no_attack_in_ip_text, ip_units_alphabet, dotted_quad_ip_text, Hw.
  - apply Hforth; [reflexivity | exact Hw |]. right.
    apply no_attack_in_ip_text, ip_units_alphabet, digits_ip_text, Hw.
  - apply Hforth; [reflexivity | exact Hw | left; reflexivity].
Qed.

Lemma scan_free_contexts_witness :
  validate (js "010.001.000.009") IP (js "Address") (Simple.entropy 5)
    Simple.unlocked
  = (Return (js "010.001.000.009"), Simple.unlocked).
Proof.
  destruct (scan_free_contexts (js "010.001.000.009") (js "Address")
              (Simple.entropy 5) Simple.unlocked) as [Hip _].
  apply (proj2 Hip). split; [|split; discriminate].
  exists (js "010"), (js "001"), (js "000"), (js "009").
  repeat split; reflexivity.
Defined.

(** *** The text contexts *)

(** On text over a class that the other twelve patterns cannot read, the
    scan is decided by the SQL patterns and the comment dashes. *)
Lemma scan_of_text (rs : list (N * N)) (s : jsstring) :
  forallb (dead (units rs)) (skipn 6 ATTACK_VECTORS) = true ->
  over rs s ->
  attack_found s = existsb (fun pattern => test pattern s) text_vectors.
Proof.
  intros Hd Hs. unfold attack_found.
  change ATTACK_VECTORS with (text_vectors ++ skipn 6 ATTACK_VECTORS).
  rewrite existsb_app.
  replace (existsb _ (skipn 6 ATTACK_VECTORS)) with false; [apply orb_false_r|].
  symmetry. apply not_true_is_false. intros H.
  apply existsb_exists in H as (r & Hr & Ht).
  rewrite forallb_forall in Hd.
  rewrite (test_dead (units rs) r s (Hd r Hr) (over_units rs s Hs)) in Ht.
  discriminate.
Qed.

(** X13. For SAFE_TEXT and FILENAME only six of the eighteen attack
    patterns can match text of the allowed characters: the five SQL keyword
    pairs and the comment dashes.  [validate] returns the canonical form
    exactly when it is a non-empty string of the allowed characters (at
    most 255 of them for FILENAME) that none of these six matches. *)
Theorem text_contexts {P : Platform} (input fieldName : jsstring)
    (e : Entropy) (st : SecureStorage P) :
  let c := canonicalize input in
  (validate input SAFE_TEXT fieldName e st = (Return c, st)
   <-> well_formed SAFE_TEXT c
       /\ existsb (fun pattern => test pattern c) text_vectors = false)
  /\ (validate input FILENAME fieldName e st = (Return c, st)
      <-> well_formed FILENAME c
          /\ existsb (fun pattern => test pattern c) text_vectors = false).
Proof.
  intros c.
  assert (Hsafe : forall s, well_formed SAFE_TEXT s ->
            attack_found s = existsb (fun pattern => test pattern s) text_vectors).
  { intros s [_ Hs]. eapply scan_of_text; [|exact Hs]. vm_compute. reflexivity. }
  assert (Hfile : forall s, well_formed FILENAME s ->
            attack_found s = existsb (fun pattern => test pattern s) text_vectors).
  { intros s (_ & Hs & _). eapply scan_of_text; [|exact Hs].
    vm_compute. reflexivity. }
  split; split.
  - intros H. apply validate_returns in H as (_ & _ & Hs & [Hp | Ha] & _);
      [discriminate|].
    apply schema_valid_iff in Hs. change (well_formed SAFE_TEXT c) in Hs.
    split; [exact Hs|]. rewrite <- (Hsafe _ Hs). exact Ha.
  - intros [Hw Ha].
    rewrite (validate_accepts input SAFE_TEXT fieldName e st); [reflexivity | | |].
    + exact (well_formed_nonempty _ _ Hw).
    + right. change (attack_found c = false). rewrite (Hsafe _ Hw). exact Ha.
    + apply schema_valid_iff. exact Hw.
  - intros H. apply validate_returns in H as (_ & _ & Hs & [Hp | Ha] & _);
      [discriminate|].
    apply schema_valid_iff in Hs. change (well_formed FILENAME c) in Hs.
    split; [exact Hs|]. rewrite <- (Hfile _ Hs). exact Ha.
  - intros [Hw Ha].
    rewrite (validate_accepts input FILENAME fieldName e st); [reflexivity | | |].
    + exact (well_formed_nonempty _ _ Hw).
    + right. change (attack_found c = false). rewrite (Hfile _ Hw). exact Ha.
    + apply schema_valid_iff. exact Hw.
Qed.

Lemma text_contexts_witness :
  validate (js "front door 2") SAFE_TEXT (js "Name") (Simple.entropy 5)
    Simple.unlocked
  = (Return (js "front door 2"), Simple.unlocked).
Proof.
  destruct (text_contexts (js "front door 2") (js "Name")
              (Simple.entropy 5) Simple.unlocked) as [Hsafe _].
  apply (proj2 Hsafe). split; [|reflexivity].
  split; [discriminate|].
  repeat (apply Forall_cons; [reflexivity|]). apply Forall_nil.
Defined.

(* ===================================================================== *)
(** ** The attack patterns, read as conditions on the text *)
(* ===================================================================== *)

Lemma last_of_None (m : jsstring) : last_of None m = list.last m.
Proof. unfold last_of. destruct (list.last m); reflexivity. Qed.

Lemma last_of_app (prev : option N) (a b : jsstring) :
  last_of (last_of prev a) b = last_of prev (a ++ b).
Proof.
  unfold last_of. rewrite last_app.
  destruct (list.last b), (list.last a); reflexivity.
Qed.

Lemma search_iff (r : regex) (s : jsstring) :
  forall prev,
    search r prev s = true
    <-> exists pre rest, s = pre ++ rest
                         /\ rmatch r (last_of prev pre) rest accept = true.
Proof.
  intros prev. split.
  - revert prev. induction s as [|c s IH]; intros prev H; simpl in H.
    + rewrite orb_false_r in H. exists [], []. auto.
    + apply orb_true_iff in H as [H | H].
      * exists [], (c :: s). auto.
      * destruct (IH _ H) as (pre & rest & -> & Hm).
        exists (c :: pre), rest. rewrite last_of_cons. auto.
  - intros (pre & rest & -> & Hm). apply search_app, search_here, Hm.
Qed.

Lemma star_loop_complete (k : option N -> jsstring -> bool) neg rs
    (m rest : jsstring) :
  Forall (fun c => mem neg rs c = true) m ->
  forall prev, k (last_of prev m) rest = true ->
    star_loop k neg rs prev (m ++ rest) = true.
Proof.
  induction 1 as [|c m Hc _ IH]; intros prev Hk.
  - destruct rest as [|d rest]; simpl; [exact Hk|].
    change (last_of prev []) with prev in Hk. rewrite Hk. apply orb_true_r.
  - simpl. rewrite Hc, IH; [reflexivity|].
    rewrite <- last_of_cons with (prev := prev). exact Hk.
Qed.

Lemma chr_i_reads (c x : N) :
  exists rs, chr_i c = Chr false rs
             /\ (in_ranges rs x = true <-> fold_case x = fold_case c).
Proof.
  unfold chr_i, chr, fold_case, in_ranges. cbn [existsb fst snd].
  rewrite !orb_false_r.
  destruct (N.leb_spec 97 c), (N.leb_spec c 122), (N.leb_spec 65 c),
    (N.leb_spec c 90), (N.leb_spec 97 x), (N.leb_spec x 122);
    cbn [andb]; eexists; (split; [reflexivity|]);
    cbn [in_ranges existsb fst snd];
    rewrite ?orb_false_r, ?orb_true_iff, ?andb_true_iff, ?N.leb_le; lia.
Qed.

Lemma rmatch_lit_i (w : jsstring) :
  forall prev s k,
    rmatch (seq_of (List.map chr_i w)) prev s k = true
    <-> exists m rest, s = m ++ rest /\ same_letters m w
                       /\ k (last_of prev m) rest = true.
Proof.
  unfold same_letters. induction w as [|c w IH]; intros prev s k.
  - simpl. split.
    + intros H. exists [], s. auto.
    + intros (m & rest & -> & Hm & Hk). destruct m; [exact Hk | discriminate].
  - cbn [List.map seq_of foldr rmatch]. fold (seq_of (List.map chr_i w)).
    split.
    + intros H. destruct s as [|x s].
      * destruct (chr_i_reads c 0) as (rs & Hrs & _). rewrite Hrs in H.
        discriminate.
      * destruct (chr_i_reads c x) as (rs & Hrs & Hx). rewrite Hrs in H.
        cbn [rmatch] in H. apply andb_true_iff in H as [Hc H].
        apply IH in H as (m & rest & -> & Hm & Hk).
        exists (x :: m), rest. rewrite last_of_cons.
        split; [reflexivity|]. split; [|exact Hk].
        simpl. rewrite Hm. f_equal. apply Hx. exact Hc.
    + intros (m & rest & -> & Hm & Hk). destruct m as [|x m]; [discriminate|].
      injection Hm as Hx Hm.
      destruct (chr_i_reads c x) as (rs & Hrs & Hcx). rewrite Hrs.
      cbn [rmatch app]. apply andb_true_iff. split; [apply Hcx, Hx|].
      apply IH. exists m, rest. rewrite last_of_cons in Hk. auto.
Qed.

Lemma rmatch_lit (w : jsstring) :
  forall prev s k,
    rmatch (seq_of (List.map chr w)) prev s k = true
    <-> exists rest, s = w ++ rest /\ k (last_of prev w) rest = true.
Proof.
  induction w as [|c w IH]; intros prev s k.
  - simpl. split; [eauto|]. intros (rest & -> & Hk). exact Hk.
  - cbn [List.map seq_of foldr rmatch]. fold (seq_of (List.map chr w)).
    rewrite rmatch_chr. split.
    + intros (s' & -> & H). apply IH in H as (rest & -> & Hk).
      exists rest. rewrite last_of_cons. auto.
    + intros (rest & -> & Hk). exists (w ++ rest). split; [reflexivity|].
      apply IH. exists rest. rewrite last_of_cons in Hk. auto.
Qed.

Lemma test_lit (w : string) (s : jsstring) :
  test (lit w) s = true <-> contains s (js w).
Proof.
  unfold test, lit, contains. rewrite search_iff. split.
  - intros (pre & rest & -> & H). apply rmatch_lit in H as (post & -> & _).
    eauto.
  - intros (pre & post & ->). exists pre, (js w ++ post).
    split; [reflexivity|]. apply rmatch_lit. eauto.
Qed.

Lemma test_lit_i (w : string) (s : jsstring) :
  test (lit_i w) s = true <-> contains_ci s (js w).
Proof.
  unfold test, lit_i, contains_ci. rewrite search_iff. split.
  - intros (pre & rest & -> & H).
    apply rmatch_lit_i in H as (m & post & -> & Hm & _). eauto.
  - intros (pre & m & post & -> & Hm). exists pre, (m ++ post).
    split; [reflexivity|]. apply rmatch_lit_i. eauto.
Qed.

Lemma test_sql (a b : string) (s : jsstring) :
  test (sql a b) s = true <-> keyword_pair (js a) (js b) s.
Proof.
  unfold test, sql, lit_i, keyword_pair, boundary_at, any_star.
  rewrite search_iff. split.
  - intros (pre & rest & -> & H). cbn [rmatch] in H.
    apply andb_true_iff in H as [B1 H].
    apply rmatch_lit_i in H as (x & r1 & -> & Hx & H).
    apply andb_true_iff in H as [B2 H].
    apply star_loop_sound in H as (mid & r2 & -> & Hmid & H).
    apply andb_true_iff in H as [B3 H].
    apply rmatch_lit_i in H as (y & post & -> & Hy & H).
    apply andb_true_iff in H as [B4 _].
    exists pre, x, mid, y, post.
    rewrite last_of_None in B1.
    rewrite last_of_app, last_of_None in B2.
    rewrite !last_of_app, last_of_None, <- ?app_assoc in B3.
    rewrite !last_of_app, last_of_None, <- ?app_assoc in B4.
    repeat split; try assumption.
    revert Hmid. apply List.Forall_impl. intros c Hc.
    unfold mem in Hc. apply negb_true_iff. exact Hc.
  - intros (pre & x & mid & y & post & -> & Hx & Hy & Hmid & B1 & B2 & B3 & B4).
    rewrite <- last_of_None in B1.
    rewrite <- last_of_None, <- last_of_app in B2.
    rewrite <- last_of_None, <- !last_of_app in B3.
    rewrite <- last_of_None, <- !last_of_app in B4.
    exists pre, (x ++ mid ++ y ++ post). split; [reflexivity|].
    cbn [rmatch]. apply andb_true_iff. split; [exact B1|].
    apply rmatch_lit_i. exists x, (mid ++ y ++ post).
    split; [reflexivity|]. split; [exact Hx|].
    apply andb_true_iff. split; [exact B2|].
    apply star_loop_complete.
    { revert Hmid. apply List.Forall_impl. intros c Hc.
      unfold mem. apply negb_true_iff in Hc. exact Hc. }
    apply andb_true_iff. split; [exact B3|].
    apply rmatch_lit_i. exists y, post. split; [reflexivity|]. split; [exact Hy|].
    rewrite B4. reflexivity.
Qed.

(** X14. What the eighteen patterns of ATTACK_VECTORS look for.
    [detectAttackVectors] throws exactly when the context is not PASSWORD
    and the text has one of the five SQL keyword pairs (first keyword, then
    the second later on the same line, in any case, each as a whole word),
    or contains one of the nine shell, comment and path marks, or contains
    one of the four script marks in any case. *)
Theorem attack_vectors_read {P : Platform} (input : jsstring)
    (context : ValidationContext) (st : SecureStorage P) :
  raises (detectAttackVectors input context) st
  <-> context <> PASSWORD
      /\ ((exists a b, In (a, b) sql_keywords
                       /\ keyword_pair (js a) (js b) input)
          \/ (exists w, In w plain_marks /\ contains input (js w))
          \/ (exists w, In w script_marks /\ contains_ci input (js w))).
Proof.
  assert (Hscan : existsb (fun pattern => test pattern input) ATTACK_VECTORS = true
                  <-> (exists a b, In (a, b) sql_keywords
                                   /\ keyword_pair (js a) (js b) input)
                      \/ (exists w, In w plain_marks /\ contains input (js w))
                      \/ (exists w, In w script_marks
                                    /\ contains_ci input (js w))).
  { change ATTACK_VECTORS
      with (List.map (fun ab => sql (fst ab) (snd ab)) sql_keywords
            ++ List.map lit plain_marks ++ List.map lit_i script_marks).
    rewrite !existsb_app, !orb_true_iff, !existsb_exists.
    assert (E1 : (exists r, In r (List.map (fun ab => sql (fst ab) (snd ab))
                                    sql_keywords) /\ test r input = true)
                 <-> exists a b, In (a, b) sql_keywords
                                 /\ keyword_pair (js a) (js b) input).
    { split.
      - intros (r & Hr & Ht). apply in_map_iff in Hr as ([a b] & <- & Hin).
        apply test_sql in Ht. eauto.
      - intros (a & b & Hin & Hk). exists (sql a b). split.
        + apply in_map_iff. exists (a, b). auto.
        + apply test_sql, Hk. }
    assert (E2 : (exists r, In r (List.map lit plain_marks)
                            /\ test r input = true)
                 <-> exists w, In w plain_marks /\ contains input (js w)).
    { split.
      - intros (r & Hr & Ht). apply in_map_iff in Hr as (w & <- & Hin).
        apply test_lit in Ht. eauto.
      - intros (w & Hin & Hc). exists (lit w). split.
        + apply in_map_iff. eauto.
        + apply test_lit, Hc. }
    assert (E3 : (exists r, In r (List.map lit_i script_marks)
                            /\ test r input = true)
                 <-> exists w, In w script_marks /\ contains_ci input (js w)).
    { split.
      - intros (r & Hr & Ht). apply in_map_iff in Hr as (w & <- & Hin).
        apply test_lit_i in Ht. eauto.
      - intros (w & Hin & Hc). exists (lit_i w). split.
        + apply in_map_iff. eauto.
        + apply test_lit_i, Hc. }
    tauto. }
  unfold raises, detectAttackVectors. rewrite <- Hscan.
  destruct context; cbn [is_PASSWORD];
    destruct (existsb _ ATTACK_VECTORS); cbv [ret throw]; split;
    try (intros (exc & st' & H); discriminate H);
    try (intros [H1 H2]; congruence);
    try (intros _; split; [discriminate | reflexivity]);
    try (intros _; eexists _, _; reflexivity).
Qed.

Lemma attack_vectors_read_witness :
  raises (detectAttackVectors (js "Select camera from list") SAFE_TEXT)
    Simple.unlocked.
Proof.
  apply (proj2 (attack_vectors_read (js "Select camera from list") SAFE_TEXT
                  Simple.unlocked)).
  split; [discriminate|]. left. exists "SELECT"%string, "FROM"%string.
  split; [simpl; tauto|].
  exists [], (js "Select"), (js " camera "), (js "from"), (js " list").
  split; [reflexivity|]. split; [reflexivity|]. split; [reflexivity|].
  split; [repeat (apply Forall_cons; [reflexivity|]); apply Forall_nil|].
  repeat split; reflexivity.
Defined.

(* ===================================================================== *)
(** ** The canonical form *)
(* ===================================================================== *)

Lemma trim_start_split (s : jsstring) :
  exists pre, s = pre ++ trim_start s
              /\ Forall (fun c => is_space c = true) pre
              /\ forall c, head (trim_start s) = Some c -> is_space c = false.
Proof.
  induction s as [|x s (pre & Hs & Hpre & Hhead)].
  - exists []. simpl. split; [reflexivity|]. split; [constructor | discriminate].
  - simpl. destruct (is_space x) eqn:Hx.
    + exists (x :: pre). simpl. rewrite <- Hs. auto.
    + exists []. simpl. split; [reflexivity|]. split; [constructor|].
      intros c [= <-]. exact Hx.
Qed.

Lemma last_rev (s : jsstring) : list.last (rev s) = head s.
Proof. destruct s as [|x s]; [reflexivity|]. simpl. apply last_snoc. Qed.

(** [trim] removes a run of white space at each end and stops at the
    first and the last code unit that is not white space. *)
Lemma trim_split (s : jsstring) :
  exists pre post,
    s = pre ++ trim s ++ post
    /\ Forall (fun c => is_space c = true) pre
    /\ Forall (fun c => is_space c = true) post
    /\ (forall c, head (trim s) = Some c -> is_space c = false)
    /\ (forall c, list.last (trim s) = Some c -> is_space c = false).
Proof.
  unfold trim.
  destruct (trim_start_split s) as (pre & Hs & Hpre & Hhead).
  destruct (trim_start_split (rev (trim_start s))) as (post & Ht & Hpost & Hlast).
  set (t := trim_start s) in *. set (u := trim_start (rev t)) in *.
  assert (Et : t = rev u ++ rev post).
  { rewrite <- rev_app_distr, <- Ht. symmetry. apply rev_involutive. }
  exists pre, (rev post). split; [rewrite <- Et; exact Hs|].
  split; [exact Hpre|]. split; [apply Forall_rev, Hpost|]. split.
  - intros c Hc. apply Hhead. rewrite Et, head_app, Hc. reflexivity.
  - intros c Hc. apply Hlast. rewrite <- last_rev. exact Hc.
Qed.

Lemma trim_fixed (t : jsstring) :
  (forall c, head t = Some c -> is_space c = false) ->
  (forall c, list.last t = Some c -> is_space c = false) ->
  trim t = t.
Proof.
  intros Hhead Hlast.
  assert (Hstart : forall u : jsstring,
             (forall c, head u = Some c -> is_space c = false) ->
             trim_start u = u).
  { intros [|x u] Hu; [reflexivity|]. simpl. rewrite (Hu x eq_refl). reflexivity. }
  unfold trim. rewrite (Hstart t Hhead).
  rewrite Hstart; [apply rev_involutive|].
  intros c Hc. apply Hlast. rewrite <- (rev_involutive t), last_rev. exact Hc.
Qed.

Lemma trim_In (s : jsstring) (c : N) : In c (trim s) -> In c s.
Proof.
  destruct (trim_split s) as (pre & post & Hs & _). intros Hc.
  rewrite Hs. apply in_or_app. right. apply in_or_app. left. exact Hc.
Qed.

Lemma canonicalize_clean {P : Platform} (input : jsstring) :
  (forall c, head (canonicalize input) = Some c -> is_space c = false)
  /\ (forall c, list.last (canonicalize input) = Some c -> is_space c = false)
  /\ Forall (fun c => in_ranges control_ranges c = false) (canonicalize input).
Proof.
  unfold canonicalize. destruct input as [|x input].
  { split; [discriminate|]. split; [discriminate | constructor]. }
  cbv zeta.
  destruct (trim_split (List.filter (fun c => negb (in_ranges control_ranges c))
                          (normalize_NFKC (x :: input))))
    as (pre & post & _ & _ & _ & Hhead & Hlast).
  split; [exact Hhead|]. split; [exact Hlast|].
  apply Forall_forall. intros c Hc. apply trim_In, filter_In in Hc as [_ Hc].
  apply negb_true_iff. exact Hc.
Qed.

(** X15. The canonical form of a non-empty input is the normalised input
    without the control characters U+0000-0008, 000B, 000C, 000E-001F and
    007F, and without the white space at its two ends: it has none of
    these control characters, neither starts nor ends with white space, and
    what was cut off at each end is white space only. *)
Theorem canonical_form {P : Platform} (input : jsstring) :
  input <> [] ->
  exists pre post,
    List.filter (fun c => negb (in_ranges control_ranges c))
      (normalize_NFKC input)
    = pre ++ canonicalize input ++ post
    /\ Forall (fun c => is_space c = true) pre
    /\ Forall (fun c => is_space c = true) post
    /\ (forall c, head (canonicalize input) = Some c -> is_space c = false)
    /\ (forall c, list.last (canonicalize input) = Some c -> is_space c = false)
    /\ Forall (fun c => in_ranges control_ranges c = false) (canonicalize input).
Proof.
  intros Hne.
  destruct (canonicalize_clean input) as (Hhead & Hlast & Hctl).
  unfold canonicalize in *. destruct input as [|x input]; [congruence|].
  cbv zeta in *.
  destruct (trim_split (List.filter (fun c => negb (in_ranges control_ranges c))
                          (normalize_NFKC (x :: input))))
    as (pre & post & Hs & Hpre & Hpost & _).
  exists pre, post. auto 10.
Qed.

Lemma canonical_form_witness :
  js " a;b " <> []
  /\ exists pre post,
       List.filter (fun c => negb (in_ranges control_ranges c))
         (normalize_NFKC (js " a;b "))
       = pre ++ canonicalize (js " a;b ") ++ post
       /\ Forall (fun c => is_space c = true) pre
       /\ Forall (fun c => is_space c = true) post
       /\ (forall c, head (canonicalize (js " a;b ")) = Some c
                     -> is_space c = false)
       /\ (forall c, list.last (canonicalize (js " a;b ")) = Some c
                     -> is_space c = false)
       /\ Forall (fun c => in_ranges control_ranges c = false)
            (canonicalize (js " a;b ")).
Proof.
  split; [discriminate|]. apply (canonical_form (js " a;b ")). discriminate.
Defined.

(** The canonical form of a canonical form of ASCII text is itself. *)
Lemma canonicalize_fixed {P : Platform} {L : PlatformLaws P} (input : jsstring) :
  Forall (fun c => (c < 128)%N) (canonicalize input) ->
  canonicalize (canonicalize input) = canonicalize input.
Proof.
  intros Hascii.
  destruct (canonicalize_clean input) as (Hhead & Hlast & Hctl).
  remember (canonicalize input) as v eqn:Ev. clear Ev.
  unfold canonicalize. destruct v as [|y w]; [reflexivity|].
  cbv zeta. rewrite (nfkc_ascii _ Hascii).
  rewrite filter_id.
  - apply trim_fixed; assumption.
  - revert Hctl. apply List.Forall_impl. intros c ->. reflexivity.
Qed.

Lemma over_ascii (rs : list (N * N)) (s : jsstring) :
  forallb (fun r => (snd r <? 128)%N) rs = true ->
  over rs s -> Forall (fun c => (c < 128)%N) s.
Proof.
  intros Hrs. apply List.Forall_impl. intros c Hc.
  apply existsb_exists in Hc as (r & Hr & Hc).
  rewrite forallb_forall in Hrs. specialize (Hrs r Hr).
  apply andb_true_iff in Hc as [_ Hhi].
  apply N.leb_le in Hhi. apply N.ltb_lt in Hrs. lia.
Qed.

(** X16. What [validate] returns is accepted when it is validated again:
    for every context but MASTER_KEY and SERIAL (for SAFE_TEXT, when the
    returned text is ASCII), validating the returned value in the same
    context returns it unchanged and leaves the ledger alone. *)
Theorem validated_value_is_accepted_again {P : Platform} {L : PlatformLaws P}
    (input : jsstring) (context : ValidationContext) (fieldName : jsstring)
    (e : Entropy) (st st' : SecureStorage P) (v : jsstring) :
  validate input context fieldName e st = (Return v, st') ->
  context <> MASTER_KEY -> context <> SERIAL ->
  (context = SAFE_TEXT -> Forall (fun c => (c < 128)%N) v) ->
  forall (fieldName' : jsstring) (e' : Entropy) (st2 : SecureStorage P),
    validate v context fieldName' e' st2 = (Return v, st2).
Proof.
  intros Hv Hmk Hser Hsafe fieldName' e' st2.
  apply validate_returns in Hv as (_ & Hne & Hs & Ha & Hval).
  assert (Ev : v = canonicalize input)
    by (rewrite Hval; destruct context; try reflexivity; congruence).
  assert (Hascii : Forall (fun c => (c < 128)%N) v).
  { pose proof (proj1 (schema_valid_iff context _) Hs) as Hw.
    rewrite <- Hval in Hw.
    destruct context; cbn [well_formed] in Hw; try congruence.
    - eapply over_ascii; [|apply dotted_quad_ip_text, Hw]. reflexivity.
    - eapply over_ascii; [|apply Hw]. reflexivity.
    - apply Hsafe. reflexivity.
    - eapply over_ascii; [|apply Hw]. reflexivity.
    - eapply over_ascii; [|apply Hw]. reflexivity. }
  assert (Ec : canonicalize v = v)
    by (rewrite Ev; apply canonicalize_fixed; rewrite <- Ev; exact Hascii).
  rewrite (validate_accepts v context fieldName' e' st2); rewrite Ec, Ev.
  - destruct context; try reflexivity; congruence.
  - exact Hne.
  - destruct Ha as [-> | Ha]; [left; reflexivity | right; exact Ha].
  - exact Hs.
Qed.

Lemma validated_value_is_accepted_again_witness :
  validate (js "  8080 ") PORT (js "Port") (Simple.entropy 7) Simple.unlocked
  = (Return (js "8080"), Simple.unlocked)
  /\ validate (js "8080") PORT (js "Again") (Simple.entropy 8) Simple.unlocked
     = (Return (js "8080"), Simple.unlocked).
Proof.
  assert (H : validate (js "  8080 ") PORT (js "Port") (Simple.entropy 7)
                Simple.unlocked = (Return (js "8080"), Simple.unlocked)).
  { rewrite (validate_accepts (js "  8080 ") PORT);
      [reflexivity | vm_compute; discriminate | right; vm_compute; reflexivity
      | vm_compute; reflexivity]. }
  split; [exact H|].
  apply (validated_value_is_accepted_again (js "  8080 ") PORT (js "Port")
           (Simple.entropy 7) Simple.unlocked Simple.unlocked (js "8080") H);
    discriminate.
Defined.

(* ===================================================================== *)
(** ** [sha256] *)
(* ===================================================================== *)

Lemma hex_digit_inj (n m : N) :
  (n < 16)%N -> (m < 16)%N -> hex_digit n = hex_digit m -> n = m.
Proof.
  unfold hex_digit. intros Hn Hm.
  destruct (N.ltb_spec n 10), (N.ltb_spec m 10); lia.
Qed.

Lemma hex_digit_lower (n : N) :
  (n < 16)%N -> in_ranges [ (48, 57); (97, 102) ]%N (hex_digit n) = true.
Proof.
  unfold hex_digit, in_ranges. cbn [existsb fst snd]. intros Hn.
  rewrite orb_false_r, orb_true_iff, !andb_true_iff, !N.leb_le.
  destruct (N.ltb_spec n 10); lia.
Qed.

Lemma hex2_inj (x y : N) :
  (x < 256)%N -> (y < 256)%N -> hex2 x = hex2 y -> x = y.
Proof.
  unfold hex2. intros Hx Hy [= Hhi Hlo].
  apply hex_digit_inj in Hhi;
    [| apply N.Div0.div_lt_upper_bound; lia
     | apply N.Div0.div_lt_upper_bound; lia ].
  apply hex_digit_inj in Hlo; [| apply N.mod_lt; lia | apply N.mod_lt; lia ].
  rewrite (N.div_mod x 16), (N.div_mod y 16) by lia. congruence.
Qed.

Lemma hex_of_bytes_inj (a b : list N) :
  Forall (fun x => (x < 256)%N) a -> Forall (fun x => (x < 256)%N) b ->
  flat_map hex2 a = flat_map hex2 b -> a = b.
Proof.
  intros Ha. revert b. induction Ha as [|x a Hx _ IH]; intros b Hb H.
  - destruct b; [reflexivity | discriminate].
  - destruct Hb as [|y b Hy Hb]; [discriminate|].
    cbn [flat_map] in H. unfold hex2 at 1 3 in H. cbn [app] in H.
    injection H as Hhi Hlo Hrest.
    f_equal; [| apply IH; assumption].
    apply hex2_inj; [assumption | assumption |]. unfold hex2. congruence.
Qed.

(** X17. [sha256] writes each byte of the digest as two lower-case
    hexadecimal characters, so the string is twice as long as the digest,
    and two inputs get the same string only when their digests are the
    same. *)
Theorem sha256_is_the_digest_in_hex {P : Platform} (a b : jsstring) :
  Forall (fun x => (x < 256)%N) (digest a) ->
  Forall (fun x => (x < 256)%N) (digest b) ->
  length (sha256 a) = (2 * length (digest a))%nat
  /\ over [ (48, 57); (97, 102) ]%N (sha256 a)
  /\ (sha256 a = sha256 b -> digest a = digest b).
Proof.
  intros Ha Hb. unfold sha256. split; [|split].
  - clear Ha. induction (digest a) as [|x l IH]; simpl; [reflexivity|].
    rewrite IH. lia.
  - induction Ha as [|x l Hx _ IH]; [constructor|].
    cbn [flat_map]. unfold hex2 at 1. cbn [app].
    constructor; [|constructor; [|exact IH]]; apply hex_digit_lower.
    + apply N.Div0.div_lt_upper_bound. lia.
    + apply N.mod_lt. lia.
  - apply hex_of_bytes_inj; assumption.
Qed.

Lemma sha256_is_the_digest_in_hex_witness :
  length (sha256 (js "abc")) = 8%nat
  /\ over [ (48, 57); (97, 102) ]%N (sha256 (js "abc")).
Proof.
  assert (Hbytes : forall s : jsstring,
             Forall (fun x => (x < 256)%N) (digest s)).
  { intros s. change (digest s) with (Simple.digest32 s).
    unfold Simple.digest32.
    repeat (apply Forall_cons; [apply N.mod_lt; lia|]). apply Forall_nil. }
  destruct (sha256_is_the_digest_in_hex (js "abc") (js "abd")
              (Hbytes _) (Hbytes _)) as (Hlen & Hhex & _).
  split; [exact Hlen | exact Hhex].
Defined.

(* ===================================================================== *)
(** ** Blocks and payloads *)
(* ===================================================================== *)

Lemma payload_of_block {P : Platform} (st : SecureStorage P) :
  reachable st ->
  forall k : Z, 1 <= k < Z.of_nat (length (chain st)) ->
    is_Some (storage st !! k).
Proof.
  induction 1 as [mk t | st mk t Hr IH | st data e block st' Hr IH Happ];
    intros k.
  - rewrite initialize_unfold. simpl. lia.
  - pose proof (reachable_inv st Hr) as (_ & [(g & Hg & _) _] & _).
    rewrite initialize_unfold. simpl.
    apply lookup_lt_Some in Hg.
    rewrite bool_decide_eq_false_2 by lia. apply IH.
  - destruct (append_returns data e st (reachable_inv st Hr))
      as (key & prev & _ & _ & Hidx & Happ').
    rewrite Happ' in Happ. injection Happ as _ <-. simpl.
    rewrite length_app. simpl. intros Hk.
    destruct (decide (index prev + 1 = k)) as [<- | Hne].
    + rewrite lookup_insert_eq. eauto.
    + rewrite lookup_insert_ne by exact Hne. apply IH. lia.
Qed.

(** X18. On a reachable ledger the payload store has an entry exactly for
    the indices of the blocks after the genesis block: every appended
    block has its payload, the genesis block has none, and no payload is
    stored without a block. *)
Theorem every_block_has_a_payload {P : Platform} (st : SecureStorage P) :
  reachable st ->
  forall k : Z,
    is_Some (storage st !! k) <-> 1 <= k < Z.of_nat (length (chain st)).
Proof.
  intros Hr k. split.
  - destruct (reachable_inv st Hr) as (_ & _ & Hs). apply Hs.
  - apply payload_of_block, Hr.
Qed.

Lemma every_block_has_a_payload_witness :
  reachable two_records
  /\ is_Some (storage two_records !! 2)
  /\ ~ is_Some (storage two_records !! 0).
Proof.
  split; [exact two_records_reachable|]. split.
  - apply (every_block_has_a_payload two_records two_records_reachable 2).
    split; [lia | vm_compute; reflexivity].
  - intros H.
    apply (every_block_has_a_payload two_records two_records_reachable 0) in H.
    lia.
Defined.

(* ===================================================================== *)
(** ** Deletion is permanent *)
(* ===================================================================== *)

Lemma set_has_add_keep (s : jsset) (v w : json) :
  set_has s v = true -> set_has (set_add s w) v = true.
Proof.
  intros H. unfold set_add. destruct (set_has s w); [exact H|].
  unfold set_has in *. rewrite existsb_app, H. reflexivity.
Qed.

Lemma replay_step_deleted (acc : Replay) (b : StorageBlock) (content v : json) :
  set_has (deletions acc) v = true ->
  set_has (deletions (replay_step acc b content)) v = true.
Proof.
  intros H. unfold replay_step.
  repeat match goal with
         | |- context [if ?c then _ else _] => destruct c
         end; cbn [deletions]; try exact H.
  apply set_has_add_keep, H.
Qed.

Lemma run_deleted_kept {P : Platform} (op : operation) (st : SecureStorage P)
    (i : Z) :
  reachable st -> is_initialize op = false ->
  set_has (deletions (view st)) (JNum i) = true ->
  set_has (deletions (view (run op st))) (JNum i) = true.
Proof.
  intros Hr Hop Hdel.
  destruct (run_cases op st) as [-> | [(Hi & _) | (_ & d & e & ->)]].
  - exact Hdel.
  - congruence.
  - destruct (append_view d e st (reachable_inv st Hr))
      as (key & b & st' & Happ & _ & _ & _ & _ & _ & _ & _ & _ & _ & Hview).
    rewrite Happ. cbn [snd]. rewrite Hview. apply replay_step_deleted, Hdel.
Qed.

Lemma run_all_deleted_kept {P : Platform} (ops : list operation)
    (st : SecureStorage P) (i : Z) :
  reachable st -> forallb (fun op => negb (is_initialize op)) ops = true ->
  set_has (deletions (view st)) (JNum i) = true ->
  set_has (deletions (view (run_all ops st))) (JNum i) = true.
Proof.
  revert st. induction ops as [|op ops IH]; intros st Hr Hops Hdel; [exact Hdel|].
  cbn [forallb] in Hops. apply andb_true_iff in Hops as [Hop Hops].
  apply negb_true_iff in Hop.
  cbn [run_all fold_left]. apply IH; [apply run_reachable, Hr | exact Hops |].
  apply run_deleted_kept; assumption.
Qed.

(** X19. There is no way back from [deleteItem].  On a reachable ledger,
    after [deleteItem i] and then any operations other than [initialize],
    [getAllItems] returns no item stored under index [i]. *)
Theorem deletion_is_permanent {P : Platform} {L : PlatformLaws P}
    (st : SecureStorage P) (i : Z) (u : jsstring) (t : Z) (e : Entropy)
    (ops : list operation) :
  reachable st -> length (iv e) = 12%nat ->
  forallb (fun op => negb (is_initialize op)) ops = true ->
  exists st' : SecureStorage P,
    deleteItem i u t e st = (Return true, st')
    /\ getAllItems (run_all ops st')
       = (Return (rev (List.map snd (visible_items (run_all ops st')))),
          run_all ops st')
    /\ forall entry, In entry (visible_items (run_all ops st')) ->
         fst entry <> i.
Proof.
  intros Hr Hiv Hops. pose proof (reachable_inv st Hr) as Hinv.
  destruct (append_event "TOMBSTONE" "Item deleted by " i t u e st Hinv Hiv)
    as (b & st' & Happ & _ & _ & _ & _ & Hview).
  rewrite replay_step_tombstone in Hview.
  assert (Hr' : reachable st') by (eapply reachable_append; eauto).
  exists st'. split; [unfold deleteItem, bind; rewrite Happ; reflexivity|].
  split; [apply getAllItems_visible|].
  intros entry Hin. unfold visible_items in Hin.
  apply visible_not_deleted in Hin as [Hdel Hkey].
  apply (view_keys (run_all ops st') _
           (reachable_inv _ (run_all_reachable ops st' Hr'))) in Hkey.
  destruct (i =? 0) eqn:Ei; [apply Z.eqb_eq in Ei; lia|].
  intros E. rewrite E in Hdel.
  rewrite (run_all_deleted_kept ops st' i Hr' Hops) in Hdel; [discriminate|].
  rewrite Hview. cbn [deletions].
  rewrite set_has_add_num, Z.eqb_refl. apply orb_true_r.
Qed.

Lemma deletion_is_permanent_witness :
  reachable two_records
  /\ exists st' : SecureStorage Simple.platform,
       deleteItem 2 (js "u") 40 (Simple.entropy 41) two_records
       = (Return true, st')
       /\ forall entry,
            In entry (visible_items
                        (run_all [OpUnlockItem 2 (js "u") 50 (Simple.entropy 51);
                                  OpAppend (snapshot "cam-2") (Simple.entropy 60)]
                           st')) ->
            fst entry <> 2.
Proof.
  split; [exact two_records_reachable|].
  destruct (deletion_is_permanent two_records 2 (js "u") 40 (Simple.entropy 41)
              [OpUnlockItem 2 (js "u") 50 (Simple.entropy 51);
               OpAppend (snapshot "cam-2") (Simple.entropy 60)]
              two_records_reachable eq_refl eq_refl)
    as (st' & Hdel & _ & Hgone).
  exists st'. split; [exact Hdel | exact Hgone].
Defined.

(* ===================================================================== *)
(** ** Records given as strings *)
(* ===================================================================== *)

(** X20. [append] stores a string as it is and everything else as its JSON
    text, so a record and its JSON text are the same record to the ledger:
    appending the text of a record leaves the state that appending the
    record leaves, and on a reachable ledger [decrypt] returns the parsed
    record, not the string that was appended. *)
Theorem text_of_a_record_is_the_record {P : Platform} {L : PlatformLaws P}
    (record : json) (e : Entropy) (st : SecureStorage P) :
  reachable st -> json_wf record = true -> (forall s, record <> JStr s) ->
  length (iv e) = 12%nat ->
  append (JStr (JSON_stringify record)) e st = append record e st
  /\ exists (b : StorageBlock) (st' : SecureStorage P),
       append (JStr (JSON_stringify record)) e st = (Return b, st')
       /\ decrypt (index b) st' = (Return record, st').
Proof.
  intros Hr Hwf Hstr Hiv.
  assert (Hd : data_string record = JSON_stringify record).
  { destruct record; try reflexivity. destruct (Hstr s). reflexivity. }
  assert (Hsame : append (JStr (JSON_stringify record)) e st = append record e st).
  { rewrite !append_unfold. unfold appended_block, stored_blob.
    change (data_string (JStr (JSON_stringify record)))
      with (JSON_stringify record).
    rewrite Hd. reflexivity. }
  split; [exact Hsame|]. rewrite Hsame.
  pose proof (reachable_inv st Hr) as Hinv.
  destruct (append_view record e st Hinv)
    as (key & b & st' & Happ & _ & _ & _ & _ & _ & _ & Hk' & Hsto & _ & _).
  exists b, st'. split; [exact Happ|].
  rewrite decrypt_unfold. do 2 f_equal.
  apply (decrypted_stored st' key (index b) record e); try assumption.
  rewrite Hsto. apply lookup_insert_eq.
Qed.

Lemma text_of_a_record_is_the_record_witness :
  reachable two_records
  /\ exists (b : StorageBlock) (st' : SecureStorage Simple.platform),
       append (JStr (JSON_stringify (snapshot "cam-3"))) (Simple.entropy 70)
         two_records = (Return b, st')
       /\ decrypt (index b) st' = (Return (snapshot "cam-3"), st').
Proof.
  split; [exact two_records_reachable|].
  destruct (text_of_a_record_is_the_record (snapshot "cam-3") (Simple.entropy 70)
              two_records two_records_reachable eq_refl ltac:(discriminate)
              eq_refl) as [_ H].
  exact H.
Defined.

(* ===================================================================== *)
(** ** The properties of an item *)
(* ===================================================================== *)

(** X21. The properties of a returned item.  [getAllItems] returns the
    items of the replay, and for a block whose record is an object, a
    property of its item other than [locked] has the value the record gives
    it (the last one of that name), and only when the record has no such
    property the value of the block: a record with a property named
    [_blockIndex], [_blockHash] or [_timestamp] hides the one of its
    block. *)
Theorem record_properties_shadow_block_properties {P : Platform}
    (st : SecureStorage P) (entry : Z * obj)
    (fields : list (jsstring * json)) :
  reachable st -> In entry (visible_items st) ->
  decrypted st (fst entry) = JObj fields ->
  exists (b : StorageBlock) (items : list obj),
    getAllItems st = (Return items, st)
    /\ In (snd entry) items
    /\ In b (chain st) /\ index b = fst entry
    /\ forall name : jsstring, name <> js "locked" ->
         obj_get (snd entry) name
         = match obj_get (rev fields) name with
           | Some v => Some v
           | None => obj_get (block_fields b) name
           end.
Proof.
  intros Hr Hin Hd.
  destruct (visible_item_of_block st entry Hr Hin) as (b & Hb & Hk & _ & Heq).
  exists b, (rev (List.map snd (visible_items st))).
  split; [apply getAllItems_visible|].
  split; [apply in_rev; rewrite rev_involutive; apply in_map, Hin|].
  split.
  { rewrite <- (take_drop 1 (chain st)). apply in_or_app. right. exact Hb. }
  split; [exact Hk|].
  intros name Hname. rewrite Heq, Hk, Hd. unfold locked_item, item_of.
  rewrite obj_get_set_other by congruence.
  cbn [spread]. apply obj_get_assign.
Qed.

Lemma record_properties_shadow_block_properties_witness :
  reachable shadowed
  /\ exists (items : list obj) (item : obj),
       getAllItems shadowed = (Return items, shadowed)
       /\ In item items
       /\ obj_get item (js "type") = Some (JStr (js "NOTE"))
       /\ obj_get item (js "_blockIndex") = Some (JNum 99).
Proof.
  assert (Hr : reachable shadowed)
    by (apply reachable_after_append, reachable_initialize).
  split; [exact Hr|].
  assert (Hin : exists item, In (1, item) (visible_items shadowed))
    by (vm_compute; eexists; left; reflexivity).
  destruct Hin as [item Hin].
  destruct (record_properties_shadow_block_properties shadowed (1, item)
              [ (js "type", JStr (js "NOTE")); (js "_blockIndex", JNum 99) ]
              Hr Hin eq_refl) as (b & items & Hall & Hitem & _ & _ & Hprops).
  cbn [snd] in Hitem, Hprops.
  exists items, item. split; [exact Hall|]. split; [exact Hitem|].
  split; rewrite Hprops by discriminate; reflexivity.
Defined.
